(** * gScorer: pairing, recovery and persistence logic

    A shallow embedding of [gScorer-v2.py] (a Streamlit form for scoring
    pairs of images) and the properties of its pair resolver, its progress
    realigner, its session cache and its scoring session, of its secrets
    and offline mode, of its author page and of the showing of an image.

    Conventions of the embedding.
    - A Python [str] is a [string]; a character is a code point below 256.
      Comparison of strings is the lexicographic comparison of code points,
      as in Python.
    - A [set] of strings is the list of its elements in the order in which the
      set yields them.  That order is not fixed by the language: it is an
      oracle of the world ([set_iter]), and the theorems hold for every
      oracle that enumerates the elements.  [random.shuffle] is an oracle as
      well ([rand_shuffle]), constrained to return a permutation.
    - A [dict] that is iterated ([by_subject]) is an association list in
      insertion order; a [dict] that is only looked up (a score row, the
      secrets, the file system) is a [gmap].
    - [pandas] is outside the repository: [DataFrame.to_csv] and
      [read_csv] followed by [to_dict("records")] are oracles of the world.
    - A script run returns the new session state, the new file system, the
      effects it performed in order and the exception it raised, if any.
    - The TOML parsers and the reading and showing of an image are outside
      the repository as well: what a parser returns for a path, and what
      each attempt to show an image meets, are given.
    - A run starts from what the operator did: [st.button] is true in the
      run its click starts, the callback of a score button runs before the
      script, and [st.stop()] and [st.rerun()] end the run.  The world
      (directory, order file, secrets) stays as it is during a session. *)

From Stdlib Require Import String Ascii List Bool Arith ZArith Lia.
From Stdlib Require Import Permutation Sorted DecimalString OrdersEx.
From Stdlib Require DecimalPos.
From stdpp Require Import base option gmap strings.
Import ListNotations.

Local Open Scope string_scope.
Local Open Scope nat_scope.
Local Open Scope list_scope.

(** ** Python strings *)

Module PyStr.

(** [str.isspace] on one character, for code points below 256:
    TAB..CR, FS..US, SPACE, NEL and NBSP. *)
Definition is_space (c : ascii) : bool :=
  let n := nat_of_ascii c in
  ((9 <=? n) && (n <=? 13)) || ((28 <=? n) && (n <=? 32))
  || (n =? 133) || (n =? 160).

Fixpoint lstrip (s : string) : string :=
  match s with
  | EmptyString => EmptyString
  | String c r => if is_space c then lstrip r else s
  end.

Fixpoint rstrip (s : string) : string :=
  match s with
  | EmptyString => EmptyString
  | String c r =>
      match rstrip r with
      | EmptyString => if is_space c then EmptyString else String c EmptyString
      | r' => String c r'
      end
  end.

(** [s.strip()] *)
Definition strip (s : string) : string := rstrip (lstrip s).

(** [str.lower] on one character, for code points below 256: [A-Z] and the
    Latin-1 capitals, the multiplication sign excepted. *)
Definition lower_char (c : ascii) : ascii :=
  let n := nat_of_ascii c in
  if ((65 <=? n) && (n <=? 90))
     || ((192 <=? n) && (n <=? 222) && negb (n =? 215))
  then ascii_of_nat (n + 32) else c.

Fixpoint lower (s : string) : string :=
  match s with
  | EmptyString => EmptyString
  | String c r => String (lower_char c) (lower r)
  end.

(** [s.endswith(suffix)] *)
Fixpoint endswith (s suffix : string) : bool :=
  String.eqb s suffix
  || match s with
     | EmptyString => false
     | String _ r => endswith r suffix
     end.

(** [s.endswith(suffixes)] for a tuple of suffixes *)
Definition endswith_any (s : string) (suffixes : list string) : bool :=
  existsb (endswith s) suffixes.

(** [c in s] for a one-character string [c] *)
Fixpoint contains (c : ascii) (s : string) : bool :=
  match s with
  | EmptyString => false
  | String d r => Ascii.eqb d c || contains c r
  end.

(** [s.split(sep)] for a one-character separator: never empty. *)
Fixpoint split (sep : ascii) (s : string) : list string :=
  match s with
  | EmptyString => [EmptyString]
  | String c r =>
      if Ascii.eqb c sep then EmptyString :: split sep r
      else match split sep r with
           | [] => [String c EmptyString]
           | h :: t => String c h :: t
           end
  end.

(** [str(n)] for a natural number and for an integer *)
Definition str_of_nat (n : nat) : string :=
  NilEmpty.string_of_uint (Nat.to_uint n).

Definition str_of_Z (z : Z) : string :=
  NilEmpty.string_of_int (Z.to_int z).

(** [os.path.join(a, b)] on a POSIX system *)
Definition path_join (a b : string) : string :=
  if String.prefix "/" b then b
  else if String.eqb a "" || endswith a "/" then a ++ b
  else a ++ "/" ++ b.

(** [sorted(l, key=key)]: the stable sort on keys compared as strings.  A
    stable sort has one possible result, whatever the algorithm. *)
Section Sorted.
Context {A : Type} (key : A -> string).

Fixpoint insert_by (x : A) (l : list A) : list A :=
  match l with
  | [] => [x]
  | y :: l' =>
      if String.leb (key x) (key y) then x :: l else y :: insert_by x l'
  end.

Fixpoint sorted (l : list A) : list A :=
  match l with
  | [] => []
  | x :: l' => insert_by x (sorted l')
  end.

(** [key(x) <= key(y)] *)
Definition key_le (x y : A) : Prop := String.leb (key x) (key y) = true.

End Sorted.

End PyStr.

(** ** The pair resolver *)

Module Resolver.
Import PyStr.

(** (subject_id, ref_filename, final_filename) *)
Definition pair : Type := string * string * string.

Definition sid (p : pair) : string := fst (fst p).
Definition ref (p : pair) : string := snd (fst p).
Definition fin (p : pair) : string := snd p.

(** What the order file can hold in a field: a JSON scalar (floats and
    nested containers in a field are outside the model). *)
Inductive jscalar :=
| JNull
| JBool (b : bool)
| JInt (z : Z)
| JStr (s : string).

(** An entry of the list in the order file: an object, or anything else. *)
Inductive jitem :=
| JOther
| JObject (fields : gmap string jscalar).

(** The order file: unreadable or not JSON, JSON that is not a list, or a
    list. *)
Inductive jfile :=
| JUnreadable
| JNotList
| JList (items : list jitem).

(** Truth value of [item.get(k)]; [None] is Python's [None]. *)
Definition jtruthy (v : option jscalar) : bool :=
  match v with
  | None | Some JNull => false
  | Some (JBool b) => b
  | Some (JInt z) => negb (z =? 0)%Z
  | Some (JStr s) => negb (String.eqb s "")
  end.

Definition jstr (v : option jscalar) : string :=
  match v with
  | None | Some JNull => "None"
  | Some (JBool true) => "True"
  | Some (JBool false) => "False"
  | Some (JInt z) => str_of_Z z
  | Some (JStr s) => s
  end.

Definition load_item (item : jitem) : list pair :=
  match item with
  | JOther => []
  | JObject fields =>
      let sid := fields !! "subject_id" in
      let ref := fields !! "ref" in
      let fin := fields !! "final" in
      if jtruthy sid && jtruthy ref && jtruthy fin
      then [(jstr sid, jstr ref, jstr fin)] else []
  end.

(** [None] is Python's [None]: the file is unavailable or invalid, or it
    lists no usable entry ([pairs or None]). *)
Definition load_global_subject_pair_order (f : jfile) : option (list pair) :=
  match f with
  | JUnreadable | JNotList => None
  | JList items =>
      match flat_map load_item items with
      | [] => None
      | pairs => Some pairs
      end
  end.

Definition exts : list string := [".png"; ".jpg"; ".jpeg"; ".bmp"; ".gif"].

Definition is_image (f : string) : bool := endswith_any (lower f) exts.

(** [dir] is the result of [os.listdir]; [None] when it raises. *)
Definition _list_dir_images (dir : option (list string)) : list string :=
  match dir with
  | Some names => List.filter is_image names
  | None => []
  end.

(** [x in s] for a set [s] given by its elements *)
Definition mem (x : string) (s : list string) : bool :=
  existsb (String.eqb x) s.

(** [f.split("_")[0]]: the segment before the first underscore *)
Definition first_segment (f : string) : string := hd "" (split "_" f).

(** [f.split("_")[0].strip()] *)
Definition subject_of (f : string) : string := strip (first_segment f).

Definition ts_key (fname : string) : string :=
  let parts := split "_" fname in
  if 3 <=? length parts
  then nth 1 parts "" ++ "_" ++ nth 2 parts ""
  else if 1 <? length parts then nth 1 parts "" else fname.

(** [by_subject.setdefault(subject, []).append(f)] *)
Fixpoint setdefault_append (subject f : string)
    (by_subject : list (string * list string)) : list (string * list string) :=
  match by_subject with
  | [] => [(subject, [f])]
  | (k, flist) :: rest =>
      if String.eqb subject k then (k, flist ++ [f]) :: rest
      else (k, flist) :: setdefault_append subject f rest
  end.

(** The loop that fills [by_subject], for a subject read off the file name
    by [subject]. *)
Definition group_by (subject : string -> string) (files : list string)
    : list (string * list string) :=
  fold_left (fun d f => setdefault_append (subject f) f d) files [].

Definition group_by_subject (files : list string)
    : list (string * list string) :=
  group_by subject_of files.

(** The body of the loop over [by_subject.items()]. *)
Definition pair_of_subject (entry : string * list string) : list pair :=
  let '(subject, flist) := entry in
  if length flist <? 2 then []
  else
    let sorted_list := sorted ts_key flist in
    let ref_file := hd "" sorted_list in
    let final_file := List.last sorted_list "" in
    if String.eqb ref_file final_file then []
    else [(subject, ref_file, final_file)].

(** The world the resolver reads, and the two sources of arbitrary order. *)
Record world := {
  order_file : jfile;
  image_dir : option (list string);
  set_iter : list string -> list string;
  rand_shuffle : list pair -> list pair
}.

(** The oracles enumerate: both return a permutation of their argument. *)
Definition oracles_ok (w : world) : Prop :=
  (forall l, Permutation l (set_iter w l))
  /\ (forall l, Permutation l (rand_shuffle w l)).

(** [set(l)], in the order in which it will be iterated. *)
Definition py_set (w : world) (l : list string) : list string :=
  set_iter w (nodup string_dec l).

(** The pairs inferred from the files, sorted by subject, for a subject
    read off the file name by [subject]. *)
Definition pairs_by (subject : string -> string) (all_imgs : list string)
    : list pair :=
  let files := List.filter (contains "_") all_imgs in
  let by_subject := group_by subject files in
  let pairs := flat_map pair_of_subject by_subject in
  sorted sid pairs.

(** The fallback of [get_subject_pairs], from [files = ...] on. *)
Definition infer_pairs (w : world) (shuffle : bool)
    (all_imgs : list string) : list pair :=
  let pairs := pairs_by subject_of all_imgs in
  if shuffle then rand_shuffle w pairs else pairs.

(** The entries of the global order that pass the existence check. *)
Definition filter_ordered (all_imgs : list string) (ordered : list pair)
    : list pair :=
  List.filter (fun tpl => mem (ref tpl) all_imgs && mem (fin tpl) all_imgs)
    ordered.

Definition get_subject_pairs (w : world) (shuffle : bool) : list pair :=
  let ordered := load_global_subject_pair_order (order_file w) in
  let all_imgs := py_set w (_list_dir_images (image_dir w)) in
  match ordered with
  | Some ((_ :: _) as ordered) =>
      match filter_ordered all_imgs ordered with
      | [] => infer_pairs w shuffle all_imgs
      | filtered => filtered
      end
  | _ => infer_pairs w shuffle all_imgs
  end.

(** *** Notions used to state the properties *)

(** [by_subject.get(k, [])] *)
Fixpoint get_files (k : string) (d : list (string * list string))
    : list string :=
  match d with
  | [] => []
  | (k', flist) :: rest => if String.eqb k k' then flist else get_files k rest
  end.

(** The files of [files] whose subject is [s], in the order of [files]. *)
Definition files_of (subject : string -> string) (s : string)
    (files : list string) : list string :=
  List.filter (fun f => String.eqb (subject f) s) files.

(** The images of the directory as the resolver iterates over them. *)
Definition all_imgs (w : world) : list string :=
  py_set w (_list_dir_images (image_dir w)).

(** The entries of the global order that pass the existence check; empty
    when there is no global order. *)
Definition global_filtered (w : world) : list pair :=
  match load_global_subject_pair_order (order_file w) with
  | Some ordered => filter_ordered (all_imgs w) ordered
  | None => []
  end.

(** The inference as the specification words it: files grouped by the
    segment before the first underscore, as it stands. *)
Definition pairs_by_segment (all_imgs : list string) : list pair :=
  pairs_by first_segment all_imgs.

(** The files the inference puts under subject [s]: the images with an
    underscore whose stripped first segment is [s], as the set yields
    them. *)
Definition subject_files (w : world) (s : string) : list string :=
  files_of subject_of s (List.filter (contains "_") (all_imgs w)).

(** [f] ends, case-insensitively, with one of the image extensions. *)
Definition has_image_ext (f : string) : Prop :=
  exists ext pre, In ext exts /\ lower f = (pre ++ ext)%string.

(** The world [w] with the directory listing replaced. *)
Definition with_listing (w : world) (dir : option (list string)) : world :=
  {| order_file := order_file w; image_dir := dir;
     set_iter := set_iter w; rand_shuffle := rand_shuffle w |}.

(** A JSON object of the order file. *)
Definition order_entry (subject_id ref final : string) : jitem :=
  JObject (<["subject_id" := JStr subject_id]>
           (<["ref" := JStr ref]> (<["final" := JStr final]> ∅))).

(** A world without order file, where sets and shuffles keep the order. *)
Definition demo_world (dir : list string) : world :=
  {| order_file := JUnreadable; image_dir := Some dir;
     set_iter := fun l => l; rand_shuffle := fun l => l |}.

(** A world with an order file, where sets and shuffles keep the order. *)
Definition world_with (items : list jitem) (dir : list string) : world :=
  {| order_file := JList items; image_dir := Some dir;
     set_iter := fun l => l; rand_shuffle := fun l => l |}.

(** A world whose sets come out reversed and whose shuffle reverses. *)
Definition reversing_world (dir : list string) : world :=
  {| order_file := JUnreadable; image_dir := Some dir;
     set_iter := @rev string; rand_shuffle := @rev pair |}.

(** Strictly ascending subject_ids. *)
Definition sid_lt (p q : pair) : Prop := String.ltb (sid p) (sid q) = true.

End Resolver.

(** ** The session: cache, realigner, score submission, completion *)

Module Session.
Import PyStr Resolver.

(** A value of a score row.  Rows made by [handle_score] hold strings and an
    integer score; rows read back by pandas may hold integers or NaN where
    the text looked like a number or was empty. *)
Inductive pyval :=
| VStr (s : string)
| VInt (z : Z)
| VNaN.

(** A score row is a Python dict from column names to values. *)
Abbreviation row := (gmap string pyval).

(** Truth value of [r.get(k)]; [None] is Python's [None]. *)
Definition truthy (v : option pyval) : bool :=
  match v with
  | None => false
  | Some (VStr s) => negb (String.eqb s "")
  | Some (VInt z) => negb (z =? 0)%Z
  | Some VNaN => true
  end.

Inductive exn :=
| KeyError (msg : string)
| PandasError.

Inductive result (A : Type) :=
| Ok (a : A)
| Raise (e : exn).
Arguments Ok {A} a.
Arguments Raise {A} e.

(** What a run does to the outside, in order.  Rendering calls other than
    [st.warning] and [st.success] are left out. *)
Inductive effect :=
| StWarning (msg : string)
| StSuccess (msg : string)
| ToCsv (path : string) (rows : list row)
| OsRemove (path : string)
| SendEmail (subject body : string) (to_email : option string)
    (attachment_path : string).

(** What the session reads from outside. *)
Record env := {
  res : world;
  tmpdir : string;
  offline_mode : bool;
  offline_secrets : option (gmap string string);
  st_secrets : gmap string string;
  to_csv : list row -> string;
  read_csv_records : string -> result (list row)
}.

(** [st.session_state], the fields the scoring logic uses. *)
Record session_state := {
  scores : list row;
  img_idx : nat;
  image_order : list pair;
  scored_count : nat;
  _warned_score_mismatch : bool;
  last_author : option string;
  imported_external : bool
}.

Record machine := {
  ss : session_state;
  fs : gmap string string;
  log : list effect
}.

Definition set_ss (m : machine) (s : session_state) : machine :=
  {| ss := s; fs := fs m; log := log m |}.

Definition emit (x : effect) (m : machine) : machine :=
  {| ss := ss m; fs := fs m; log := log m ++ [x] |}.

Definition get_secret (e : env) (key : string) (dflt : option string)
    : result (option string) :=
  let offline :=
    match offline_secrets e with
    | Some d => if offline_mode e && negb (bool_decide (d = ∅)) then Some d
                else None
    | None => None
    end in
  match offline with
  | Some d => Ok (match d !! key with Some v => Some v | None => dflt end)
  | None =>
      match st_secrets e !! key with
      | Some v => Ok (Some v)
      | None =>
          match dflt with
          | Some v => Ok (Some v)
          | None => Raise (KeyError ("Secret '" ++ key ++ "' not found."))
          end
      end
  end.

(** The directory is created on the way ([os.makedirs], taken to succeed). *)
Definition get_output_dir (e : env) : string :=
  path_join (tmpdir e) "gScorer-output".

Definition get_cache_path (e : env) (author : string) : string :=
  path_join (get_output_dir e) (author ++ "_scores_tmp.csv").

(** The mail transport is a collaborator: the call is recorded. *)
Definition send_email_with_attachment (subject body : string)
    (to_email : option string) (attachment_path : string) (m : machine)
    : machine :=
  emit (SendEmail subject body to_email attachment_path) m.

(** [pd.DataFrame(rows).to_csv(path, index=False)] *)
Definition df_to_csv (e : env) (path : string) (rows : list row)
    (m : machine) : machine :=
  {| ss := ss m; fs := <[path := to_csv e rows]> (fs m);
     log := log m ++ [ToCsv path rows] |}.

(** The dict returned on recovery; its ["image_order"] is always [None]. *)
Record cache_data := {
  cd_scores : list row;
  cd_img_idx : nat
}.

(** [try: body except Exception: handler] *)
Definition try_except {A} (body : result A) (handler : result A) : result A :=
  match body with
  | Ok a => Ok a
  | Raise _ => handler
  end.

(** The result [Ok None] is Python's [None]. *)
Definition load_session_cache (e : env) (files : gmap string string)
    (author : string) : result (option cache_data) :=
  let cache_path := get_cache_path e author in
  match files !! cache_path with
  | Some content =>
      try_except
        (match read_csv_records e content with
         | Ok scores =>
             Ok (Some {| cd_scores := scores; cd_img_idx := length scores |})
         | Raise x => Raise x
         end)
        (Ok None)
  | None => Ok None
  end.

(** [{r.get("subject_id") for r in scored_rows if r.get("subject_id")}] *)
Definition scored_ids (scored_rows : list row) : list pyval :=
  flat_map (fun r : row =>
              match r !! "subject_id" with
              | Some v => if truthy (Some v) then [v] else []
              | None => []
              end) scored_rows.

(** [sid in scored_ids] for a string [sid]: only a string equals it. *)
Definition in_ids (sid : string) (ids : list pyval) : bool :=
  existsb (fun v => match v with
                    | VStr s => String.eqb sid s
                    | _ => false
                    end) ids.

(** The loop with [break]: the first index from [i] on whose subject is not
    scored. *)
Fixpoint first_unscored (ids : list pyval) (order : list pair) (i : nat)
    : option nat :=
  match order with
  | [] => None
  | p :: rest =>
      if negb (in_ids (sid p) ids) then Some i
      else first_unscored ids rest (S i)
  end.

Definition recognized (ids : list pyval) (order : list pair) : nat :=
  length (List.filter (fun p => in_ids (sid p) ids) order).

(** The order the realigner works on:
    [st.session_state.get("image_order") or get_subject_pairs()]. *)
Definition realign_order (e : env) (s : session_state) : list pair :=
  match image_order s with
  | [] => get_subject_pairs (res e) false
  | order => order
  end.

Definition mismatch_msg (rows recognized : nat) : string :=
  "Recovered " ++ str_of_nat rows ++ " score rows but only "
  ++ str_of_nat recognized ++ " matched current subject IDs.".

Definition _realign_img_idx_to_scores (e : env) (m : machine) : machine :=
  let s := ss m in
  let order := realign_order e s in
  let scored_rows := scores s in
  let ids := scored_ids scored_rows in
  let first :=
    match first_unscored ids order 0 with
    | Some i => i
    | None => length order
    end in
  let recog := recognized ids order in
  let s1 := {| scores := scores s; img_idx := first;
               image_order := image_order s; scored_count := recog;
               _warned_score_mismatch := _warned_score_mismatch s;
               last_author := last_author s;
               imported_external := imported_external s |} in
  let mismatch := (Z.of_nat (length scored_rows) - Z.of_nat recog)%Z in
  if (3 <? mismatch)%Z && negb (_warned_score_mismatch s) then
    emit (StWarning (mismatch_msg (length scored_rows) recog))
      (set_ss m {| scores := scores s1; img_idx := img_idx s1;
                   image_order := image_order s1;
                   scored_count := scored_count s1;
                   _warned_score_mismatch := true;
                   last_author := last_author s1;
                   imported_external := imported_external s1 |})
  else set_ss m s1.

Definition score_row (subject_id ref_file final_file : string)
    (score_value : Z) (timestamp : string) : row :=
  <["subject_id" := VStr subject_id]>
  (<["ref_image" := VStr ref_file]>
  (<["final_image" := VStr final_file]>
  (<["score" := VInt score_value]>
  (<["timestamp" := VStr timestamp]> ∅)))).

(** [timestamp] is [datetime.now()] in the format of the rows. *)
Definition handle_score (e : env) (timestamp : string) (score_value : Z)
    (subject_id ref_file final_file : string) (total_pairs : nat)
    (author_name : string) (m : machine) : result unit * machine :=
  let s := ss m in
  let m := set_ss m
    {| scores := scores s
                 ++ [score_row subject_id ref_file final_file score_value
                       timestamp];
       img_idx := img_idx s; image_order := image_order s;
       scored_count := scored_count s;
       _warned_score_mismatch := _warned_score_mismatch s;
       last_author := last_author s;
       imported_external := imported_external s |} in
  let m := _realign_img_idx_to_scores e m in
  let cache_path := get_cache_path e author_name in
  let m := df_to_csv e cache_path (scores (ss m)) m in
  if img_idx (ss m) mod 20 =? 0 then
    match get_secret e "RECIPIENT_EMAIL" None with
    | Raise x => (Raise x, m)
    | Ok RECIPIENT_EMAIL =>
        (Ok tt,
         send_email_with_attachment
           ("gScorer Progress Update for " ++ author_name)
           (author_name ++ " has scored " ++ str_of_nat (img_idx (ss m))
            ++ " out of " ++ str_of_nat total_pairs ++ " subject pairs.")
           RECIPIENT_EMAIL cache_path m)
    end
  else (Ok tt, m).

(** A click on score button [i]: the callback runs with the arguments bound
    when the form was rendered, those of the pair at the cursor. *)
Definition click_score (e : env) (timestamp : string) (author_name : string)
    (i : Z) (m : machine) : result unit * machine :=
  let image_files := image_order (ss m) in
  match nth_error image_files (img_idx (ss m)) with
  | Some (subject_id, ref_file, final_file) =>
      handle_score e timestamp i subject_id ref_file final_file
        (length image_files) author_name m
  | None => (Ok tt, m)
  end.

(** One run of the script for a session whose author is chosen, from the
    author check to the end.  [timestamp_str] is [datetime.now()] in the
    format of file names. *)
Definition scoring_page (e : env) (timestamp_str : string)
    (author_name : string) (m : machine) : result unit * machine :=
  let s := ss m in
  let s :=
    if negb (bool_decide (last_author s = Some author_name)) then
      {| scores := []; img_idx := 0;
         image_order := get_subject_pairs (res e) false;
         scored_count := scored_count s;
         _warned_score_mismatch := _warned_score_mismatch s;
         last_author := Some author_name;
         imported_external := imported_external s |}
    else s in
  let s :=
    match image_order s with
    | [] =>
        {| scores := scores s; img_idx := img_idx s;
           image_order := get_subject_pairs (res e) false;
           scored_count := scored_count s;
           _warned_score_mismatch := _warned_score_mismatch s;
           last_author := last_author s;
           imported_external := imported_external s |}
    | _ => s
    end in
  let s :=
    if negb (imported_external s) && (img_idx s =? 0)
       && match scores s with [] => true | _ => false end
    then {| scores := scores s; img_idx := img_idx s;
            image_order := image_order s; scored_count := scored_count s;
            _warned_score_mismatch := _warned_score_mismatch s;
            last_author := last_author s; imported_external := true |}
    else s in
  let image_files := image_order s in
  let m := _realign_img_idx_to_scores e (set_ss m s) in
  if img_idx (ss m) <? length image_files then
    (Ok tt, m)
  else
    let m := emit (StSuccess "All subject pairs scored!") m in
    let csv_path :=
      path_join (get_output_dir e)
        (author_name ++ "_subject_scores_" ++ timestamp_str ++ ".csv") in
    let m := df_to_csv e csv_path (scores (ss m)) m in
    let cache_path := get_cache_path e author_name in
    let m :=
      match fs m !! cache_path with
      | Some _ =>
          {| ss := ss m; fs := delete cache_path (fs m);
             log := log m ++ [OsRemove cache_path] |}
      | None => m
      end in
    match get_secret e "RECIPIENT_EMAIL" None with
    | Raise x => (Raise x, m)
    | Ok RECIPIENT_EMAIL =>
        (Ok tt,
         send_email_with_attachment
           ("gScorer Subject Pair Output Submitted by " ++ author_name)
           ("Final subject pair scores for " ++ author_name
            ++ " are attached.")
           RECIPIENT_EMAIL csv_path m)
    end.

(** *** Notions used to state the properties *)

(** Row [r] is a record of subject [s]: its subject_id is the string [s]. *)
Definition records_subject (s : string) (r : row) : bool :=
  match r !! "subject_id" with
  | Some (VStr t) => String.eqb s t
  | _ => false
  end.

(** Subject [s] has a record among [rows]. *)
Definition has_record (rows : list row) (s : string) : bool :=
  existsb (records_subject s) rows.

(** The cursor the realigner computes from the set of scored ids. *)
Definition cursor_of (ids : list pyval) (order : list pair) : nat :=
  match first_unscored ids order 0 with
  | Some i => i
  | None => length order
  end.

(** What the realigner takes as scored: a pair whose subject_id is not
    empty and has a record. *)
Definition covered (rows : list row) (p : pair) : bool :=
  negb (String.eqb (sid p) "") && has_record rows (sid p).

(** [len(scored_rows) - recognized > 3] for the order and rows at hand. *)
Definition drift (order : list pair) (rows : list row) : bool :=
  (3 <? Z.of_nat (length rows)
        - Z.of_nat (recognized (scored_ids rows) order))%Z.

Definition is_warning (x : effect) : bool :=
  match x with
  | StWarning _ => true
  | _ => false
  end.

Definition warnings (l : list effect) : nat :=
  length (List.filter is_warning l).

(** Between two calls of the realigner the script may replace the rows and
    the order; nothing but the realigner writes the warning flag. *)
Record update := {
  new_scores : list row;
  new_order : list pair
}.

Definition apply_update (u : update) (m : machine) : machine :=
  set_ss m {| scores := new_scores u; img_idx := img_idx (ss m);
              image_order := new_order u;
              scored_count := scored_count (ss m);
              _warned_score_mismatch := _warned_score_mismatch (ss m);
              last_author := last_author (ss m);
              imported_external := imported_external (ss m) |}.

Definition realign_after (e : env) (m : machine) (u : update) : machine :=
  _realign_img_idx_to_scores e (apply_update u m).

(** The realigner's calls of one session, in order. *)
Definition run_realigns (e : env) (us : list update) (m : machine)
    : machine :=
  fold_left (realign_after e) us m.

(** The order a call works on after update [u]. *)
Definition order_after (e : env) (u : update) : list pair :=
  match new_order u with
  | [] => get_subject_pairs (res e) false
  | order => order
  end.

(** The ids the rows of the pairs [l] put in the set of scored ids. *)
Definition ids_of (l : list pair) : list pyval :=
  map (fun p => VStr (sid p)) l.

Definition is_email (x : effect) : bool :=
  match x with
  | SendEmail _ _ _ _ => true
  | _ => false
  end.

(** The calls of the mail transport among the effects, in order. *)
Definition emails (l : list effect) : list effect :=
  List.filter is_email l.

Definition is_csv_write (x : effect) : bool :=
  match x with
  | ToCsv _ _ => true
  | _ => false
  end.

(** The CSV files written, in order. *)
Definition csv_writes (l : list effect) : list effect :=
  List.filter is_csv_write l.

(** Where the completed page writes the export at clock reading
    [timestamp_str]. *)
Definition export_path (e : env) (author_name timestamp_str : string)
    : string :=
  path_join (get_output_dir e)
    (author_name ++ "_subject_scores_" ++ timestamp_str ++ ".csv").

(** The mail of the completed page. *)
Definition final_mail (e : env) (author_name timestamp_str : string)
    (to_email : option string) : effect :=
  SendEmail ("gScorer Subject Pair Output Submitted by " ++ author_name)
    ("Final subject pair scores for " ++ author_name ++ " are attached.")
    to_email (export_path e author_name timestamp_str).

(** The progress mail of a submission that leaves the cursor at [cursor]. *)
Definition progress_mail (e : env) (author_name : string)
    (cursor total_pairs : nat) (to_email : option string) : effect :=
  SendEmail ("gScorer Progress Update for " ++ author_name)
    (author_name ++ " has scored " ++ str_of_nat cursor ++ " out of "
     ++ str_of_nat total_pairs ++ " subject pairs.")
    to_email (get_cache_path e author_name).

(** The operator scores pair after pair: one click per input, each with the
    time of the click and the score chosen.  An exception raised by the
    callback ends that callback only. *)
Definition clicks (e : env) (author_name : string)
    (inputs : list (string * Z)) (m : machine) : machine :=
  fold_left (fun m input =>
               snd (click_score e (fst input) author_name (snd input) m))
    inputs m.

(** The page rendered again and again, once per clock reading. *)
Definition renders (e : env) (author_name : string)
    (timestamps : list string) (m : machine) : machine :=
  fold_left (fun m ts => snd (scoring_page e ts author_name m))
    timestamps m.

(** *** A sample deployment, for concrete runs *)

Definition demo_env (w : world) : env :=
  {| res := w; tmpdir := "/tmp"; offline_mode := false;
     offline_secrets := None;
     st_secrets := {["RECIPIENT_EMAIL" := "lab@example.org"]};
     to_csv := fun _ => "csv";
     read_csv_records := fun _ => Raise PandasError |}.

(** The session state as the script initialises it. *)
Definition fresh_session : session_state :=
  {| scores := []; img_idx := 0; image_order := []; scored_count := 0;
     _warned_score_mismatch := false; last_author := None;
     imported_external := false |}.

Definition fresh_machine : machine :=
  {| ss := fresh_session; fs := ∅; log := [] |}.

(** A session in the middle of scoring [order] with [rows] recorded. *)
Definition session_with (order : list pair) (rows : list row) : machine :=
  {| ss := {| scores := rows; img_idx := 0; image_order := order;
              scored_count := 0; _warned_score_mismatch := false;
              last_author := None; imported_external := false |};
     fs := ∅; log := [] |}.

(** Twenty pairs, subjects S1 to S20. *)
Definition demo_order20 : list pair :=
  map (fun n => let s := ("S" ++ str_of_nat n)%string in
                (s, (s ++ "_20240101_0800.png")%string,
                 (s ++ "_20240115_0900.png")%string))
    (seq 1 20).


End Session.

(** ** Offline mode: secrets read from a local TOML file *)

Module Offline.
Import PyStr.

(** A value of the secrets file.  Arrays, floats and dates are left out:
    the loader tells a table from everything else and nothing more. *)
#[warnings="-register-all"] Inductive toml :=
| TStr (s : string)
| TInt (z : Z)
| TBool (b : bool)
| TTable (items : list (string * toml)).

(** What the loader finds at a path.  The two TOML parsers are outside the
    repository: [Parsed data] is the dict one of them returned, with its
    items in the order of the file; [Unparsable msg] says that both raised,
    the second with the text [msg]. *)
Inductive toml_file :=
| NotAFile
| Unparsable (msg : string)
| NotADict
| Parsed (data : list (string * toml)).

Inductive ui :=
| Info (msg : string)
| Error (msg : string)
| Success (msg : string).

(** The two entries of [st.session_state] that offline mode uses;
    [offline_secrets] is [None] until a file is loaded. *)
Record state := {
  offline_mode : bool;
  offline_secrets : option (gmap string toml)
}.

(** [for sk, sv in v.items(): flat[sk] = sv] *)
Definition flatten_table (items : list (string * toml))
    (flat : gmap string toml) : gmap string toml :=
  fold_left (fun flat kv => <[fst kv := snd kv]> flat) items flat.

(** The body of the loop over [data.items()]. *)
Definition flatten_entry (flat : gmap string toml) (kv : string * toml)
    : gmap string toml :=
  match snd kv with
  | TTable items => flatten_table items flat
  | v => <[fst kv := v]> flat
  end.

Definition flatten (data : list (string * toml)) : gmap string toml :=
  fold_left flatten_entry data ∅.

Definition _load_offline_secrets (read : string -> toml_file) (path : string)
    (s : state) : state * list ui :=
  match read path with
  | NotAFile => (s, [Error "Secrets file not found at provided path."])
  | Unparsable msg => (s, [Error ("Failed to parse TOML: " ++ msg)])
  | NotADict => (s, [Error "Secrets file did not yield a dict."])
  | Parsed data =>
      ({| offline_mode := offline_mode s;
          offline_secrets := Some (flatten data) |},
       [Success "Offline secrets loaded."])
  end.

(** Truth value of [st.session_state.offline_secrets]: [None] and the empty
    dict are false. *)
Definition has_secrets (s : state) : bool :=
  match offline_secrets s with
  | Some d => negb (Nat.eqb (size d) 0)
  | None => false
  end.

(** How the prompt ends a run: the script goes on, stops, or is run again. *)
Inductive outcome :=
| Pass
| Stop
| Rerun.

Definition prompt : string :=
  "Offline mode active. Provide path to a TOML secrets file containing SMTP_SERVER, SMTP_PORT, SMTP_USER, SMTP_PASSWORD, SENDER_NAME, RECIPIENT_EMAIL.".

(** The prompt shown while offline mode has no secrets.  [secrets_path] is
    the text of the input field and [load_clicked] tells whether this run
    comes from a click on "Load secrets". *)
Definition offline_prompt (read : string -> toml_file)
    (secrets_path : string) (load_clicked : bool) (s : state)
    : outcome * state * list ui :=
  if offline_mode s && negb (has_secrets s) then
    if load_clicked && negb (String.eqb secrets_path "") then
      let out := _load_offline_secrets read secrets_path s in
      if has_secrets (fst out)
      then (Rerun, fst out, Info prompt :: snd out)
      else (Stop, fst out, Info prompt :: snd out)
    else (Stop, s, [Info prompt])
  else (Pass, s, []).

(** *** Notions used to state the properties *)

(** The bindings the loader writes, in the order in which it writes them:
    a table gives its items, any other value gives itself. *)
Definition bindings (data : list (string * toml)) : list (string * toml) :=
  flat_map (fun kv => match snd kv with
                      | TTable items => items
                      | _ => [kv]
                      end) data.

(** The last value bound to [k] in a list of bindings. *)
Fixpoint last_binding (k : string) (l : list (string * toml))
    : option toml :=
  match l with
  | [] => None
  | (k', v) :: rest =>
      match last_binding k rest with
      | Some v' => Some v'
      | None => if String.eqb k k' then Some v else None
      end
  end.

End Offline.

(** ** Showing an image *)

Module Display.
Import PyStr.

(** What [display_image] does to the outside, in order: it shows the bytes
    read, sleeps a tenth of a second, or warns. *)
Inductive act :=
| Image (data : string)
| Sleep
| Warning (msg : string).

(** [os.path.basename] on a POSIX system: what follows the last slash. *)
Definition basename (p : string) : string := List.last (split "/" p) "".

(** The loop over [range(tries)] from attempt [attempt] on.  [read i] is
    what attempt [i] meets: the bytes of the file, read and shown, or [None]
    when opening, reading or showing raises. *)
Fixpoint try_display (read : nat -> option string) (attempt tries : nat)
    : bool * list act :=
  match tries with
  | 0 => (false, [])
  | S tries' =>
      match read attempt with
      | Some data => (true, [Image data])
      | None =>
          let out := try_display read (S attempt) tries' in
          (fst out, Sleep :: snd out)
      end
  end.

Definition display_image (read : nat -> option string) (img_path : string)
    (nonce : nat) (allow_retries : bool) : bool * list act :=
  let file_name := basename img_path in
  let tries := if allow_retries then 3 else 1 in
  let out := try_display read 0 tries in
  if fst out then (true, snd out)
  else (false,
        snd out
        ++ [Warning ("Couldn't load image: " ++ file_name
                     ++ ". Try reloading.")]).

End Display.

(** ** The author page and whole sessions *)

Module App.
Import PyStr Resolver Session.

(** The entries of [st.session_state] that choose the author.  [None] for
    [author_name] says that the key is not in the session state. *)
Record page_state := {
  author_name : option string;
  pending_author : string;
  show_custom_author : bool
}.

(** The buttons of the author page, by their keys. *)
Inductive button :=
| AuthorBtn (name : string)
| OthersBtn
| ConfirmBtn
| ContinueBtn (pending : string)
| StartNewBtn (pending : string)
| StartAsBtn (pending : string).

#[global] Instance button_eq_dec : EqDecision button.
Proof. solve_decision. Defined.

(** What the operator did to start a run: the button clicked, if any, and
    the text in the field for a custom name. *)
Record widgets := {
  clicked : option button;
  custom_name : string
}.

(** [st.button(..., key=...)]: true in the run its click starts. *)
Definition pressed (w : widgets) (b : button) : bool :=
  bool_decide (clicked w = Some b).

(** How a run of the page ends: at [st.stop()], at [st.rerun()], or by an
    exception. *)
Inductive outcome :=
| Stopped
| Rerun
| Raised (x : exn).

Record app := {
  page : page_state;
  mach : machine
}.

Definition author_buttons : list string :=
  ["FI"; "JH"; "HS"; "GA"; "NA"; "AAY"].

(** The body of the loop over [author_buttons]. *)
Definition author_button (w : widgets) (p : page_state) (name : string)
    : page_state :=
  if pressed w (AuthorBtn name)
  then {| author_name := author_name p; pending_author := name;
          show_custom_author := false |}
  else p.

(** The assignments of the two buttons that start from nothing: no row,
    the cursor at the first pair, the resolver's order. *)
Definition start_session (e : env) (pending : string) (m : machine)
    : machine :=
  let s := ss m in
  set_ss m {| scores := []; img_idx := 0;
              image_order := get_subject_pairs (res e) false;
              scored_count := scored_count s;
              _warned_score_mismatch := _warned_score_mismatch s;
              last_author := Some pending;
              imported_external := imported_external s |}.

(** The first part of the page, down to [pending = ...]: the six buttons,
    the button "Others" and the field with its button "Confirm name". *)
Definition select_author (w : widgets) (p : page_state) : page_state :=
  let p := fold_left (author_button w) author_buttons p in
  let p :=
    if pressed w OthersBtn
    then {| author_name := author_name p;
            pending_author := pending_author p;
            show_custom_author := true |}
    else p in
  if show_custom_author p && pressed w ConfirmBtn
     && negb (String.eqb (custom_name w) "")
     && negb (String.eqb (strip (custom_name w)) "")
  then {| author_name := author_name p;
          pending_author := strip (custom_name w);
          show_custom_author := show_custom_author p |}
  else p.

(** One run of the script while no author is chosen, from the subheader to
    the [st.stop()] or [st.rerun()] that ends it. *)
Definition author_page (e : env) (w : widgets) (a : app) : outcome * app :=
  let p := select_author w (page a) in
  let pending := pending_author p in
  let m := mach a in
  let chosen := {| author_name := Some pending;
                   pending_author := pending_author p;
                   show_custom_author := show_custom_author p |} in
  if String.eqb pending "" then (Stopped, {| page := p; mach := m |})
  else
    match load_session_cache e (fs m) pending with
    | Raise x => (Raised x, {| page := p; mach := m |})
    | Ok (Some cache_data) =>
        if pressed w (ContinueBtn pending) then
          let s := ss m in
          let m := set_ss m
            {| scores := cd_scores cache_data;
               img_idx := cd_img_idx cache_data;
               image_order := image_order s;
               scored_count := scored_count s;
               _warned_score_mismatch := _warned_score_mismatch s;
               last_author := last_author s;
               imported_external := imported_external s |} in
          let m := _realign_img_idx_to_scores e m in
          let s := ss m in
          let m := set_ss m
            {| scores := scores s; img_idx := img_idx s;
               image_order := get_subject_pairs (res e) false;
               scored_count := scored_count s;
               _warned_score_mismatch := _warned_score_mismatch s;
               last_author := Some pending;
               imported_external := imported_external s |} in
          (Rerun, {| page := chosen; mach := m |})
        else if pressed w (StartNewBtn pending) then
          let cache_path := get_cache_path e pending in
          let m := {| ss := ss m; fs := delete cache_path (fs m);
                      log := log m ++ [OsRemove cache_path] |} in
          (Rerun, {| page := chosen; mach := start_session e pending m |})
        else (Stopped, {| page := p; mach := m |})
    | Ok None =>
        if pressed w (StartAsBtn pending) then
          (Rerun, {| page := chosen; mach := start_session e pending m |})
        else (Stopped, {| page := p; mach := m |})
    end.

(** A click on a score button and the run that follows it: the callback,
    then the script.  [at_row] and [at_file] are the clock readings of the
    callback and of the run, each in its format. *)
Record submission := {
  at_row : string;
  at_file : string;
  value : Z
}.

Definition submit (e : env) (author : string) (m : machine)
    (s : submission) : machine :=
  snd (scoring_page e (at_file s) author
         (snd (click_score e (at_row s) author (value s) m))).

Definition submissions (e : env) (author : string) (l : list submission)
    (m : machine) : machine :=
  fold_left (submit e author) l m.

(** *** Notions used to state the properties *)

(** The session state before any author is chosen. *)
Definition fresh_page : page_state :=
  {| author_name := None; pending_author := ""; show_custom_author := false |}.

(** A browser session opened on the files [files]. *)
Definition fresh_app (files : gmap string string) : app :=
  {| page := fresh_page;
     mach := {| ss := fresh_session; fs := files; log := [] |} |}.

(** A click on button [b], the field for a custom name left empty. *)
Definition click (b : button) : widgets :=
  {| clicked := Some b; custom_name := "" |}.

(** An author name as the page accepts one: not empty, and with no white
    space around it. *)
Definition well_formed (author : string) : Prop :=
  author <> "" /\ strip author = author.

(** The row a submission records for pair [p]. *)
Definition row_of (p : pair) (s : submission) : row :=
  score_row (sid p) (ref p) (fin p) (value s) (at_row s).

(** The rows of the submissions [l] made on the pairs [order], one by
    one. *)
Fixpoint rows_of (order : list pair) (l : list submission) : list row :=
  match order, l with
  | p :: order', s :: l' => row_of p s :: rows_of order' l'
  | _, _ => []
  end.

(** A deployment in which pandas reads back the rows it wrote: the files
    hold the text [csv] and every text reads as [rows]. *)
Definition env_reading (w : world) (rows : list row) : env :=
  {| res := w; tmpdir := "/tmp"; offline_mode := false;
     offline_secrets := None;
     st_secrets := {["RECIPIENT_EMAIL" := "lab@example.org"]};
     to_csv := fun _ => "csv";
     read_csv_records := fun _ => Ok rows |}.

End App.

(** ** Facts about strings and sorting *)

Section StringOrder.
Import PyStr.

Lemma string_leb_iff (a b : string) :
  String.leb a b = true <-> a = b \/ String_as_OT.lt a b.
Proof.
  unfold String.leb.
  change (String.compare a b) with (String_as_OT.compare a b).
  destruct (String_as_OT.compare_spec a b) as [H|H|H].
  - split; [left; exact H | reflexivity].
  - split; [right; exact H | reflexivity].
  - split; [discriminate |].
    intros [E|L]; exfalso.
    + subst b. exact (StrictOrder_Irreflexive a H).
    + exact (StrictOrder_Irreflexive a (StrictOrder_Transitive a b a L H)).
Qed.

Lemma string_leb_refl (a : string) : String.leb a a = true.
Proof. apply string_leb_iff. left. reflexivity. Qed.

Lemma string_leb_trans (a b c : string) :
  String.leb a b = true -> String.leb b c = true -> String.leb a c = true.
Proof.
  rewrite !string_leb_iff.
  intros [->|Hab] [->|Hbc]; auto.
  right. exact (StrictOrder_Transitive a b c Hab Hbc).
Qed.

Lemma string_leb_false (a b : string) :
  String.leb a b = false -> String.leb b a = true.
Proof.
  intros H. destruct (String.leb_total a b) as [E|E]; congruence.
Qed.

End StringOrder.

(** The stable sort returns a sorted permutation. *)
Section SortedFacts.
Import PyStr.
Context {A : Type} (key : A -> string).

Lemma insert_by_perm (x : A) (l : list A) :
  Permutation (x :: l) (insert_by key x l).
Proof.
  induction l as [|y l IH]; simpl.
  - apply Permutation_refl.
  - destruct (String.leb (key x) (key y)).
    + apply Permutation_refl.
    + eapply Permutation_trans; [apply perm_swap|].
      apply perm_skip. exact IH.
Qed.

Lemma sorted_perm (l : list A) : Permutation l (sorted key l).
Proof.
  induction l as [|x l IH]; simpl.
  - apply perm_nil.
  - eapply Permutation_trans; [apply perm_skip; exact IH|].
    apply insert_by_perm.
Qed.

Lemma insert_by_sorted (x : A) (l : list A) :
  StronglySorted (key_le key) l -> StronglySorted (key_le key) (insert_by key x l).
Proof.
  induction l as [|y l IH]; simpl; intros Hs.
  - constructor; [constructor | constructor].
  - inversion Hs as [|? ? Hl Hy]; subst.
    destruct (String.leb (key x) (key y)) eqn:E.
    + constructor; [exact Hs|].
      constructor; [exact E|].
      eapply List.Forall_impl; [|exact Hy].
      intros z Hz. unfold key_le in *. eapply string_leb_trans; eassumption.
    + constructor; [apply IH; exact Hl|].
      apply (Permutation_Forall (insert_by_perm x l)).
      constructor; [apply string_leb_false; exact E | exact Hy].
Qed.

Lemma sorted_sorted (l : list A) : StronglySorted (key_le key) (sorted key l).
Proof.
  induction l as [|x l IH]; simpl.
  - constructor.
  - apply insert_by_sorted. exact IH.
Qed.

Lemma sorted_length (l : list A) : length (sorted key l) = length l.
Proof. symmetry. apply Permutation_length, sorted_perm. Qed.

Lemma sorted_In (l : list A) (x : A) : In x (sorted key l) <-> In x l.
Proof.
  split; apply Permutation_in; [apply Permutation_sym|]; apply sorted_perm.
Qed.

(** In a sorted list the head has the least key and the last element the
    greatest. *)
Lemma strongly_sorted_hd (d : A) (l : list A) (x : A) :
  StronglySorted (key_le key) l -> In x l -> (key_le key) (hd d l) x.
Proof.
  intros Hs Hin. destruct l as [|y l]; [contradiction|].
  simpl. inversion Hs as [|? ? _ Hy]; subst.
  destruct Hin as [->|Hin].
  - apply string_leb_refl.
  - rewrite List.Forall_forall in Hy. apply Hy, Hin.
Qed.

Lemma strongly_sorted_last (d : A) (l : list A) (x : A) :
  StronglySorted (key_le key) l -> In x l -> (key_le key) x (List.last l d).
Proof.
  induction l as [|y l IH]; intros Hs Hin; [contradiction|].
  inversion Hs as [|? ? Hl Hy]; subst.
  destruct l as [|z l].
  - destruct Hin as [->|[]]. apply string_leb_refl.
  - change (List.last (y :: z :: l) d) with (List.last (z :: l) d).
    destruct Hin as [->|Hin].
    + rewrite List.Forall_forall in Hy. apply Hy.
      destruct (exists_last (l:=z :: l)) as [l' [a E]]; [discriminate|].
      rewrite E, List.last_last. apply in_or_app. right. left. reflexivity.
    + apply IH; assumption.
Qed.

(** On a list without repetition and with two elements at least, the first
    and the last element differ. *)
Lemma nodup_hd_last (d : A) (l : list A) :
  List.NoDup l -> 2 <= length l -> hd d l <> List.last l d.
Proof.
  intros Hn Hlen. destruct l as [|x [|y l]]; simpl in Hlen; try lia.
  change (List.last (x :: y :: l) d) with (List.last (y :: l) d).
  simpl hd. intros E. inversion Hn as [|? ? Hx _]; subst.
  apply Hx.
  destruct (exists_last (l:=y :: l)) as [l' [a E']]; [discriminate|].
  rewrite E', List.last_last. apply in_or_app. right. left. reflexivity.
Qed.

End SortedFacts.

(** ** The progress realigner *)

Section Realigner.
Import PyStr Resolver Session.

Lemma in_ids_app (s : string) (a b : list pyval) :
  in_ids s (a ++ b) = in_ids s a || in_ids s b.
Proof. unfold in_ids. apply existsb_app. Qed.

Lemma scored_ids_cons (r : row) (rows : list row) :
  scored_ids (r :: rows)
  = match r !! "subject_id" with
    | Some v => if truthy (Some v) then [v] else []
    | None => []
    end ++ scored_ids rows.
Proof. reflexivity. Qed.

(** A string is in the set of scored ids exactly when it is not empty and
    some row records it. *)
Lemma in_ids_scored_ids (rows : list row) (s : string) :
  in_ids s (scored_ids rows) = negb (String.eqb s "") && has_record rows s.
Proof.
  induction rows as [|r rows IH].
  - simpl. rewrite andb_false_r. reflexivity.
  - rewrite scored_ids_cons, in_ids_app, IH. clear IH.
    change (has_record (r :: rows) s)
      with (records_subject s r || has_record rows s).
    unfold records_subject.
    destruct (r !! "subject_id") as [[t|z|]|]; simpl.
    + destruct (String.eqb_spec t "") as [->|Ht]; simpl.
      * destruct (String.eqb_spec s "") as [->|Hs]; reflexivity.
      * destruct (String.eqb_spec s t) as [->|Hst]; simpl.
        -- rewrite (proj2 (String.eqb_neq t "") Ht). reflexivity.
        -- reflexivity.
    + destruct (z =? 0)%Z; reflexivity.
    + reflexivity.
    + reflexivity.
Qed.

(** The loop with [break] stops after the longest scored prefix. *)
Lemma first_unscored_shift (ids : list pyval) (order : list pair) (i : nat) :
  first_unscored ids order i
  = option_map (Nat.add i) (first_unscored ids order 0).
Proof.
  revert i. induction order as [|p order IH]; intros i; simpl.
  - reflexivity.
  - destruct (in_ids (sid p) ids); simpl.
    + rewrite IH, (IH 1).
      destruct (first_unscored ids order 0); simpl; [f_equal; lia | reflexivity].
    + f_equal. lia.
Qed.

Lemma cursor_of_cons (ids : list pyval) (p : pair) (order : list pair) :
  cursor_of ids (p :: order)
  = if in_ids (sid p) ids then S (cursor_of ids order) else 0.
Proof.
  unfold cursor_of. simpl.
  destruct (in_ids (sid p) ids); simpl; [|reflexivity].
  rewrite first_unscored_shift.
  destruct (first_unscored ids order 0); reflexivity.
Qed.

Lemma cursor_of_le (ids : list pyval) (order : list pair) :
  cursor_of ids order <= length order.
Proof.
  induction order as [|p order IH]; [reflexivity|].
  rewrite cursor_of_cons. simpl. destruct (in_ids (sid p) ids); lia.
Qed.

Lemma cursor_of_before (ids : list pyval) (order : list pair) (i : nat) (p : pair) :
  i < cursor_of ids order -> nth_error order i = Some p ->
  in_ids (sid p) ids = true.
Proof.
  revert i. induction order as [|q order IH]; intros i Hi Hp.
  - destruct i; discriminate.
  - rewrite cursor_of_cons in Hi.
    destruct (in_ids (sid q) ids) eqn:E; [|lia].
    destruct i as [|i]; simpl in Hp.
    + injection Hp as <-. exact E.
    + apply (IH i); [lia | exact Hp].
Qed.

Lemma cursor_of_at (ids : list pyval) (order : list pair) (p : pair) :
  nth_error order (cursor_of ids order) = Some p ->
  in_ids (sid p) ids = false.
Proof.
  induction order as [|q order IH]; intros Hp.
  - discriminate.
  - rewrite cursor_of_cons in Hp.
    destruct (in_ids (sid q) ids) eqn:E; simpl in Hp.
    + apply IH. exact Hp.
    + injection Hp as <-. exact E.
Qed.


Lemma recognized_covered (rows : list row) (order : list pair) :
  recognized (scored_ids rows) order = length (List.filter (covered rows) order).
Proof.
  unfold recognized. f_equal. apply filter_ext.
  intros p. apply in_ids_scored_ids.
Qed.

(** What one call of the realigner does to the machine. *)
Lemma realign_effect (e : env) (m : machine) :
  let order := realign_order e (ss m) in
  let rows := scores (ss m) in
  let warn := drift order rows && negb (_warned_score_mismatch (ss m)) in
  let m' := _realign_img_idx_to_scores e m in
  img_idx (ss m') = cursor_of (scored_ids rows) order
  /\ scored_count (ss m') = recognized (scored_ids rows) order
  /\ scores (ss m') = rows
  /\ image_order (ss m') = image_order (ss m)
  /\ last_author (ss m') = last_author (ss m)
  /\ imported_external (ss m') = imported_external (ss m)
  /\ _warned_score_mismatch (ss m')
     = _warned_score_mismatch (ss m) || drift order rows
  /\ fs m' = fs m
  /\ log m'
     = log m ++ (if warn
                 then [StWarning (mismatch_msg (length rows)
                                    (recognized (scored_ids rows) order))]
                 else []).
Proof.
  cbv zeta. unfold _realign_img_idx_to_scores, drift, cursor_of.
  destruct (3 <? _)%Z eqn:D; destruct (_warned_score_mismatch (ss m)) eqn:W;
    simpl; rewrite ?W, ?app_nil_r; repeat split; reflexivity.
Qed.

(** C3, as amended: the cursor is the index of the first entry of the order
    that is not covered, where an entry is covered when its subject_id is
    not empty and some row records it; it is the length of the order when
    every entry is covered.  The scored count is the number of covered
    entries.  When no entry of the order has an empty subject_id, covered
    means having a record, and the cursor and the count are those of the
    claim. *)
Theorem realign_cursor_first_uncovered (e : env) (m : machine) :
  let order := realign_order e (ss m) in
  let rows := scores (ss m) in
  let m' := _realign_img_idx_to_scores e m in
  let cursor := img_idx (ss m') in
  cursor <= length order
  /\ (forall i p, i < cursor -> nth_error order i = Some p ->
        covered rows p = true)
  /\ (forall p, nth_error order cursor = Some p -> covered rows p = false)
  /\ scored_count (ss m') = length (List.filter (covered rows) order)
  /\ ((forall p, In p order -> sid p <> "") ->
      (forall i p, i < cursor -> nth_error order i = Some p ->
         has_record rows (sid p) = true)
      /\ (forall p, nth_error order cursor = Some p ->
            has_record rows (sid p) = false)
      /\ scored_count (ss m')
         = length (List.filter (fun p => has_record rows (sid p)) order)).
Proof.
  cbv zeta.
  pose proof (realign_effect e m) as H. cbv zeta in H.
  destruct H as (Hc & Hn & _).
  rewrite Hc, Hn. clear Hc Hn.
  set (order := realign_order e (ss m)).
  set (rows := scores (ss m)).
  assert (Hbefore : forall i p, i < cursor_of (scored_ids rows) order ->
            nth_error order i = Some p -> covered rows p = true).
  { intros i p Hi Hp. unfold covered. rewrite <- in_ids_scored_ids.
    eapply cursor_of_before; eassumption. }
  assert (Hat : forall p, nth_error order (cursor_of (scored_ids rows) order) = Some p ->
            covered rows p = false).
  { intros p Hp. unfold covered. rewrite <- in_ids_scored_ids.
    apply (cursor_of_at _ order). exact Hp. }
  assert (Hcov : (forall p, In p order -> sid p <> "") ->
            forall p, In p order -> covered rows p = has_record rows (sid p)).
  { intros Hne p Hp. unfold covered.
    rewrite (proj2 (String.eqb_neq _ _) (Hne p Hp)). reflexivity. }
  split; [apply cursor_of_le|].
  split; [exact Hbefore|].
  split; [exact Hat|].
  split; [apply recognized_covered|].
  intros Hne. split; [|split].
  - intros i p Hi Hp. rewrite <- (Hcov Hne p (nth_error_In _ _ Hp)).
    eapply Hbefore; eassumption.
  - intros p Hp. rewrite <- (Hcov Hne p (nth_error_In _ _ Hp)).
    apply Hat. exact Hp.
  - rewrite recognized_covered. f_equal.
    apply List.filter_ext_in. intros p Hp. apply Hcov; assumption.
Qed.

(** C3, counterexample: the order holds one pair whose subject_id is empty,
    and one row records that subject.  The claim puts the cursor at 1, the
    length of the order, and the scored count at 1; the realigner leaves the
    cursor on the pair and counts 0. *)
Lemma realign_ignores_empty_subject_id :
  let order := [("", "_a.png", "_b.png")] in
  let rows := [score_row "" "_a.png" "_b.png" 3 "2024-01-01 08:00:00"] in
  let m' := _realign_img_idx_to_scores (demo_env (demo_world []))
              (session_with order rows) in
  has_record rows "" = true
  /\ length (List.filter (fun p => has_record rows (sid p)) order) = 1
  /\ img_idx (ss m') = 0
  /\ nth_error order (img_idx (ss m')) = Some ("", "_a.png", "_b.png")
  /\ scored_count (ss m') = 0.
Proof. vm_compute. repeat split; reflexivity. Qed.

End Realigner.

(** ** The drift warning *)

Section DriftWarning.
Import PyStr Resolver Session.

Lemma warnings_app (a b : list effect) :
  warnings (a ++ b) = warnings a + warnings b.
Proof. unfold warnings. rewrite List.filter_app, List.length_app. reflexivity. Qed.

(** One call after an update: the cursor and the count depend on the rows
    and the order alone; the flag decides only whether the warning shows. *)
Lemma realign_after_effect (e : env) (m : machine) (u : update) :
  let order := order_after e u in
  let rows := new_scores u in
  let warn := drift order rows && negb (_warned_score_mismatch (ss m)) in
  let m' := realign_after e m u in
  img_idx (ss m') = cursor_of (scored_ids rows) order
  /\ scored_count (ss m') = recognized (scored_ids rows) order
  /\ scores (ss m') = rows
  /\ image_order (ss m') = new_order u
  /\ fs m' = fs m
  /\ _warned_score_mismatch (ss m')
     = _warned_score_mismatch (ss m) || drift order rows
  /\ log m'
     = log m ++ (if warn
                 then [StWarning (mismatch_msg (length rows)
                                    (recognized (scored_ids rows) order))]
                 else []).
Proof.
  cbv zeta. unfold realign_after.
  pose proof (realign_effect e (apply_update u m)) as H. cbv zeta in H.
  destruct H as (H1 & H2 & H3 & H4 & _ & _ & H7 & H8 & H9).
  repeat split; assumption.
Qed.

Lemma run_realigns_flag_and_count (e : env) (us : list update) (m : machine) :
  let drifts := existsb (fun u => drift (order_after e u) (new_scores u)) us in
  _warned_score_mismatch (ss (run_realigns e us m))
  = _warned_score_mismatch (ss m) || drifts
  /\ warnings (log (run_realigns e us m))
     = warnings (log m)
       + (if negb (_warned_score_mismatch (ss m)) && drifts then 1 else 0).
Proof.
  cbv zeta. revert m. induction us as [|u us IH]; intros m.
  - simpl. rewrite orb_false_r, andb_false_r. split; [reflexivity | lia].
  - change (run_realigns e (u :: us) m)
      with (run_realigns e us (realign_after e m u)).
    destruct (IH (realign_after e m u)) as [IHf IHw].
    pose proof (realign_after_effect e m u) as H. cbv zeta in H.
    destruct H as (_ & _ & _ & _ & _ & Hf & Hl).
    rewrite IHf, IHw, Hf, Hl, warnings_app. simpl existsb.
    destruct (_warned_score_mismatch (ss m));
      destruct (drift (order_after e u) (new_scores u));
      destruct (existsb _ us); simpl; split; try reflexivity;
      unfold warnings; simpl; lia.
Qed.

(** C9: over the realigner's calls of one session, started with the flag
    unset, the warning is shown once when some call finds more than three
    rows unmatched and never otherwise; and at every call, whatever the flag,
    the cursor and the scored count are those the rows and the order
    determine, the rows, the order and the files are left as they were, and
    the only thing added to the output is that warning. *)
Theorem drift_warning_once_per_session (e : env) (us : list update)
    (m : machine) :
  _warned_score_mismatch (ss m) = false ->
  warnings (log (run_realigns e us m))
  = warnings (log m)
    + (if existsb (fun u => drift (order_after e u) (new_scores u)) us
       then 1 else 0)
  /\ (forall (m1 : machine) (u : update),
        let order := order_after e u in
        let rows := new_scores u in
        let m' := realign_after e m1 u in
        img_idx (ss m') = cursor_of (scored_ids rows) order
        /\ scored_count (ss m') = recognized (scored_ids rows) order
        /\ scores (ss m') = rows
        /\ image_order (ss m') = new_order u
        /\ fs m' = fs m1
        /\ log m'
           = log m1
             ++ (if drift order rows
                    && negb (_warned_score_mismatch (ss m1))
                 then [StWarning (mismatch_msg (length rows)
                                    (recognized (scored_ids rows) order))]
                 else [])).
Proof.
  intros Hflag. split.
  - pose proof (run_realigns_flag_and_count e us m) as H. cbv zeta in H.
    destruct H as [_ Hw]. rewrite Hw, Hflag. reflexivity.
  - intros m1 u. cbv zeta.
    pose proof (realign_after_effect e m1 u) as H. cbv zeta in H.
    destruct H as (H1 & H2 & H3 & H4 & H5 & _ & H7).
    repeat split; assumption.
Qed.

(** A session with one pair in the order and four rows of other subjects:
    three calls, one warning. *)
Lemma drift_warning_once_per_session_witness :
  let order := [("S1", "S1_a.png", "S1_b.png")] in
  let rows := [score_row "X1" "a" "b" 1 "t"; score_row "X2" "a" "b" 2 "t";
               score_row "X3" "a" "b" 3 "t"; score_row "X4" "a" "b" 4 "t"] in
  let u := {| new_scores := rows; new_order := order |} in
  warnings (log (run_realigns (demo_env (demo_world [])) [u; u; u]
                   fresh_machine)) = 1.
Proof.
  exact (proj1 (drift_warning_once_per_session (demo_env (demo_world []))
                  _ fresh_machine eq_refl)).
Defined.

End DriftWarning.

(** ** The session cache *)

Section Cache.
Import PyStr Resolver Session.


End Cache.

(** ** Score submission *)

Section Submission.
Import PyStr Resolver Session.

Lemma emails_app (a b : list effect) : emails (a ++ b) = emails a ++ emails b.
Proof. apply List.filter_app. Qed.

(** What one submission does. *)
Lemma handle_score_effect (e : env) (ts : string) (v : Z)
    (s rf ff : string) (total : nat) (author : string) (m : machine) :
  let rows := scores (ss m) ++ [score_row s rf ff v ts] in
  let order := realign_order e (ss m) in
  let c := cursor_of (scored_ids rows) order in
  let out := handle_score e ts v s rf ff total author m in
  img_idx (ss (snd out)) = c
  /\ scores (ss (snd out)) = rows
  /\ image_order (ss (snd out)) = image_order (ss m)
  /\ fs (snd out) = <[get_cache_path e author := to_csv e rows]> (fs m)
  /\ fst out
     = (if c mod 20 =? 0
        then match get_secret e "RECIPIENT_EMAIL" None with
             | Ok _ => Ok tt
             | Raise x => Raise x
             end
        else Ok tt)
  /\ emails (log (snd out))
     = emails (log m)
       ++ (if c mod 20 =? 0
           then match get_secret e "RECIPIENT_EMAIL" None with
                | Ok r => [progress_mail e author c total r]
                | Raise _ => []
                end
           else []).
Proof.
  cbv zeta. unfold handle_score.
  match goal with
  | |- context [_realign_img_idx_to_scores e ?m1] =>
      pose proof (realign_effect e m1) as H; cbv zeta in H;
      set (m2 := _realign_img_idx_to_scores e m1) in *
  end.
  cbn [ss fs log set_ss scores image_order _warned_score_mismatch] in H.
  destruct H as (Hc & _ & Hs & Ho & _ & _ & _ & Hf & Hl).
  change (realign_order e _) with (realign_order e (ss m)) in Hc, Hl.
  unfold df_to_csv, send_email_with_attachment, emit.
  cbn [ss fs log]. rewrite Hc, Hs, Hf.
  set (c := cursor_of _ _).
  assert (He : emails (log m2) = emails (log m)).
  { rewrite Hl, emails_app.
    match goal with
    | |- context [if ?b then _ else _] => destruct b
    end; cbn; rewrite ?app_nil_r; reflexivity. }
  destruct (c mod 20 =? 0).
  - destruct (get_secret e "RECIPIENT_EMAIL" None) as [r|x];
      cbn [fst snd ss fs log]; rewrite ?emails_app, He;
      cbn [emails List.filter is_email]; rewrite ?app_nil_r;
      repeat split; try assumption; reflexivity.
  - cbn [fst snd ss fs log]. rewrite ?emails_app, He.
    cbn [emails List.filter is_email]. rewrite ?app_nil_r.
    repeat split; try assumption; reflexivity.
Qed.

Lemma scored_ids_app (a b : list row) :
  scored_ids (a ++ b) = scored_ids a ++ scored_ids b.
Proof. apply List.flat_map_app. Qed.

Lemma score_row_subject (s rf ff : string) (v : Z) (ts : string) :
  score_row s rf ff v ts !! "subject_id" = Some (VStr s).
Proof. apply lookup_insert_eq. Qed.

Lemma scored_ids_score_row (s rf ff : string) (v : Z) (ts : string) :
  scored_ids [score_row s rf ff v ts]
  = if String.eqb s "" then [] else [VStr s].
Proof.
  unfold scored_ids. cbn [flat_map]. rewrite score_row_subject.
  cbn [truthy]. destruct (String.eqb s ""); reflexivity.
Qed.

(** The cursor depends on the scored ids only through the subjects of the
    order. *)
Lemma cursor_of_ext (ids1 ids2 : list pyval) (order : list pair) :
  (forall p, In p order -> in_ids (sid p) ids1 = in_ids (sid p) ids2) ->
  cursor_of ids1 order = cursor_of ids2 order.
Proof.
  induction order as [|q order IH]; intros H; [reflexivity|].
  rewrite !cursor_of_cons, (H q (or_introl eq_refl)).
  rewrite IH; [reflexivity|]. intros p Hp. apply H. right. exact Hp.
Qed.

Lemma in_ids_ids_of (s : string) (l : list pair) :
  in_ids s (ids_of l) = true <-> In s (map sid l).
Proof.
  unfold in_ids, ids_of. rewrite existsb_exists. split.
  - intros (v & Hv & E). apply in_map_iff in Hv as (p & <- & Hp).
    apply String.eqb_eq in E. subst s. apply in_map. exact Hp.
  - intros Hs. apply in_map_iff in Hs as (p & <- & Hp).
    exists (VStr (sid p)).
    split; [apply (List.in_map (fun p => VStr (sid p))); exact Hp|].
    apply String.eqb_refl.
Qed.

(** With the first [k] pairs scored and no subject repeated, the cursor
    is [k]. *)
Lemma cursor_of_prefix (order : list pair) (k : nat) :
  List.NoDup (map sid order) -> k <= length order ->
  cursor_of (ids_of (firstn k order)) order = k.
Proof.
  revert k. induction order as [|q order IH]; intros k Hn Hk.
  - simpl in Hk. assert (k = 0) by lia. subst k. reflexivity.
  - inversion Hn as [|? ? Hq Hn']; subst.
    rewrite cursor_of_cons. destruct k as [|k].
    + reflexivity.
    + cbn [firstn ids_of map in_ids existsb]. rewrite String.eqb_refl.
      cbn [orb]. f_equal.
      rewrite <- (IH k Hn') at 2 by (simpl in Hk; lia).
      apply cursor_of_ext. intros p Hp.
      change (VStr (sid q) :: map (fun p0 => VStr (sid p0)) (firstn k order))
        with ([VStr (sid q)] ++ ids_of (firstn k order)).
      rewrite in_ids_app. cbn [in_ids existsb].
      destruct (String.eqb_spec (sid p) (sid q)) as [E|E]; [|reflexivity].
      exfalso. apply Hq. rewrite <- E. apply in_map. exact Hp.
Qed.









End Submission.

(** ** The completed page *)

Section Completion.
Import PyStr Resolver Session.

Lemma csv_writes_app (a b : list effect) :
  csv_writes (a ++ b) = csv_writes a ++ csv_writes b.
Proof. apply List.filter_app. Qed.

(** One render of a session whose pairs are all scored. *)
Lemma scoring_page_completed (e : env) (author : string) (r : option string)
    (order : list pair) (ts : string) (m : machine) :
  get_secret e "RECIPIENT_EMAIL" None = Ok r ->
  last_author (ss m) = Some author ->
  image_order (ss m) = order -> order <> [] ->
  cursor_of (scored_ids (scores (ss m))) order = length order ->
  let out := scoring_page e ts author m in
  fst out = Ok tt
  /\ last_author (ss (snd out)) = Some author
  /\ image_order (ss (snd out)) = order
  /\ scores (ss (snd out)) = scores (ss m)
  /\ img_idx (ss (snd out)) = length order
  /\ csv_writes (log (snd out))
     = csv_writes (log m) ++ [ToCsv (export_path e author ts) (scores (ss m))]
  /\ emails (log (snd out)) = emails (log m) ++ [final_mail e author ts r].
Proof.
  intros Hsecret Hla Ho Hne Hcur. cbv zeta. unfold scoring_page.
  rewrite Hla, Hsecret.
  rewrite (bool_decide_eq_true_2 _ eq_refl). cbn [negb].
  rewrite Ho. destruct order as [|p order]; [congruence|].
  match goal with |- context [set_ss m ?s] => set (s1 := s) end.
  assert (Hs1 : scores s1 = scores (ss m) /\ image_order s1 = p :: order
                /\ last_author s1 = Some author).
  { subst s1. destruct (_ && _ && _); cbn; auto. }
  destruct Hs1 as (Hs1 & Ho1 & Hl1).
  pose proof (realign_effect e (set_ss m s1)) as H. cbv zeta in H.
  cbn [ss set_ss fs log] in H.
  set (m2 := _realign_img_idx_to_scores e (set_ss m s1)) in *.
  destruct H as (Hc & _ & Hsc & Hio & Hlast & _ & _ & Hfs & Hl).
  assert (Hro : realign_order e s1 = p :: order).
  { unfold realign_order. rewrite Ho1. reflexivity. }
  rewrite Hro, Hs1 in Hc, Hl. rewrite Hcur in Hc. rewrite Hs1 in Hsc.
  rewrite Ho1 in *. rewrite Hl1 in Hlast. rewrite Hc, Nat.ltb_irrefl.
  assert (Hcsv : csv_writes (log m2) = csv_writes (log m)).
  { rewrite Hl, csv_writes_app.
    match goal with
    | |- context [if ?b then _ else _] => destruct b
    end; cbn; rewrite ?app_nil_r; reflexivity. }
  assert (Hmail : emails (log m2) = emails (log m)).
  { rewrite Hl, emails_app.
    match goal with
    | |- context [if ?b then _ else _] => destruct b
    end; cbn; rewrite ?app_nil_r; reflexivity. }
  unfold send_email_with_attachment, df_to_csv, emit. cbn [ss fs log].
  destruct (_ !! get_cache_path e author);
    cbn [fst snd ss fs log];
    rewrite ?csv_writes_app, ?emails_app, Hcsv, Hmail, Hsc, Hlast, Hio, Hc;
    cbn [csv_writes emails List.filter is_csv_write is_email];
    rewrite ?app_nil_r; repeat split; reflexivity.
Qed.

(** C2, as amended: the completed page has no one-shot gate.  With the
    recipient configured, every render of a session whose pairs are all
    scored writes one export file, named after the clock reading of that
    render, and sends one completion mail with that file attached; so a
    session rendered [n] times in the completed state exports [n] times and
    mails [n] times, and exactly once only when it is rendered once. *)
Theorem completed_page_exports_at_every_render (e : env) (author : string)
    (r : option string) (order : list pair) (timestamps : list string)
    (m : machine) :
  get_secret e "RECIPIENT_EMAIL" None = Ok r ->
  last_author (ss m) = Some author ->
  image_order (ss m) = order -> order <> [] ->
  cursor_of (scored_ids (scores (ss m))) order = length order ->
  let m' := renders e author timestamps m in
  csv_writes (log m')
  = csv_writes (log m)
    ++ map (fun ts => ToCsv (export_path e author ts) (scores (ss m)))
         timestamps
  /\ emails (log m')
     = emails (log m) ++ map (fun ts => final_mail e author ts r) timestamps
  /\ scores (ss m') = scores (ss m)
  /\ image_order (ss m') = order.
Proof.
  intros Hsecret Hla Ho Hne Hcur. cbv zeta. revert m Hla Ho Hcur.
  induction timestamps as [|ts tss IH]; intros m Hla Ho Hcur.
  - cbn [renders fold_left map]. rewrite !app_nil_r. auto.
  - change (renders e author (ts :: tss) m)
      with (renders e author tss (snd (scoring_page e ts author m))).
    pose proof (scoring_page_completed e author r order ts m
                  Hsecret Hla Ho Hne Hcur) as H.
    cbv zeta in H. destruct H as (_ & Hla' & Ho' & Hs' & _ & Hcsv & Hmail).
    destruct (IH _ Hla' Ho' ltac:(rewrite Hs'; exact Hcur))
      as (IH1 & IH2 & IH3 & IH4).
    rewrite IH1, IH2, IH3, IH4, Hcsv, Hmail, Hs'. cbn [map].
    rewrite <- !app_assoc. auto.
Qed.

(** One pair, scored; the completed page rendered three times: three
    exports, three mails. *)
Lemma completed_page_exports_at_every_render_witness :
  let e := demo_env (demo_world []) in
  let order := [("S1", "S1_a.png", "S1_b.png")] in
  let rows := [score_row "S1" "S1_a.png" "S1_b.png" 3 "2024-01-01 08:00:00"] in
  let m := {| ss := {| scores := rows; img_idx := 1; image_order := order;
                       scored_count := 1; _warned_score_mismatch := false;
                       last_author := Some "FI";
                       imported_external := true |};
              fs := ∅; log := [] |} in
  let m' := renders e "FI" ["t1"; "t2"; "t3"] m in
  length (csv_writes (log m')) = 3 /\ length (emails (log m')) = 3.
Proof.
  cbv zeta.
  pose proof (completed_page_exports_at_every_render
                (demo_env (demo_world [])) "FI" (Some "lab@example.org")
                [("S1", "S1_a.png", "S1_b.png")] ["t1"; "t2"; "t3"]
                {| ss := {| scores := [score_row "S1" "S1_a.png" "S1_b.png" 3
                                         "2024-01-01 08:00:00"];
                            img_idx := 1;
                            image_order := [("S1", "S1_a.png", "S1_b.png")];
                            scored_count := 1;
                            _warned_score_mismatch := false;
                            last_author := Some "FI";
                            imported_external := true |};
                   fs := ∅; log := [] |}
                eq_refl eq_refl eq_refl ltac:(discriminate)
                ltac:(vm_compute; reflexivity)) as H.
  cbv zeta in H. destruct H as (H1 & H2 & _).
  rewrite H1, H2. split; reflexivity.
Defined.

(** C2, counterexample: the directory holds the two images of one subject.
    The operator opens the page, scores the pair, and the page is rendered
    twice more, a minute apart: the completed state is rendered twice, two
    export files are written and the completion mail is sent twice. *)
Lemma completed_page_rendered_twice_exports_twice :
  let e := demo_env (demo_world ["S1_20240101_0800.png";
                                 "S1_20240115_0900.png"]) in
  let m0 := set_ss fresh_machine
              {| scores := []; img_idx := 0; image_order := [];
                 scored_count := 0; _warned_score_mismatch := false;
                 last_author := Some "FI"; imported_external := false |} in
  let m1 := snd (scoring_page e "20240201_101400" "FI" m0) in
  let m2 := snd (click_score e "2024-02-01 10:14:30" "FI" 3 m1) in
  let m3 := snd (scoring_page e "20240201_101500" "FI" m2) in
  let m4 := snd (scoring_page e "20240201_101600" "FI" m3) in
  let rows := [score_row "S1" "S1_20240101_0800.png" "S1_20240115_0900.png"
                 3 "2024-02-01 10:14:30"] in
  img_idx (ss m2) = 1
  /\ length (image_order (ss m2)) = 1
  /\ csv_writes (log m4)
     = [ToCsv "/tmp/gScorer-output/FI_scores_tmp.csv" rows;
        ToCsv "/tmp/gScorer-output/FI_subject_scores_20240201_101500.csv"
          rows;
        ToCsv "/tmp/gScorer-output/FI_subject_scores_20240201_101600.csv"
          rows]
  /\ emails (log m4)
     = [final_mail e "FI" "20240201_101500" (Some "lab@example.org");
        final_mail e "FI" "20240201_101600" (Some "lab@example.org")].
Proof. vm_compute. repeat split; reflexivity. Qed.

End Completion.

(** ** The pair resolver: membership, sets, grouping *)

Section ResolverFacts.
Import PyStr Resolver.

Lemma mem_In (x : string) (s : list string) : mem x s = true <-> In x s.
Proof.
  unfold mem. rewrite existsb_exists. split.
  - intros (y & Hy & E). apply String.eqb_eq in E. subst y. exact Hy.
  - intros H. exists x. split; [exact H | apply String.eqb_refl].
Qed.

Lemma mem_ext (x : string) (s t : list string) :
  (forall y, In y s <-> In y t) -> mem x s = mem x t.
Proof.
  intros H. destruct (mem x s) eqn:E1, (mem x t) eqn:E2; try reflexivity.
  - apply mem_In, H, mem_In in E1. congruence.
  - apply mem_In, H, mem_In in E2. congruence.
Qed.

(** [s.endswith(suffix)] holds exactly when [s] is some prefix followed by
    [suffix]. *)
Lemma endswith_spec (s suffix : string) :
  endswith s suffix = true <-> exists pre, s = (pre ++ suffix)%string.
Proof.
  induction s as [|c s IH]; cbn [endswith].
  - rewrite orb_false_r, String.eqb_eq. split.
    + intros <-. exists "". reflexivity.
    + intros ([|d pre] & H); [exact H | discriminate].
  - rewrite orb_true_iff, String.eqb_eq, IH. split.
    + intros [<-|(pre & ->)]; [exists ""; reflexivity|].
      exists (String c pre). reflexivity.
    + intros ([|d pre] & H); [left; exact H|].
      right. injection H as -> ->. exists pre. reflexivity.
Qed.

Lemma list_dir_images_In (dir : option (list string)) (f : string) :
  In f (_list_dir_images dir)
  <-> exists names, dir = Some names /\ In f names /\ is_image f = true.
Proof.
  destruct dir as [names|]; cbn [_list_dir_images].
  - rewrite List.filter_In. split.
    + intros [H1 H2]. exists names. auto.
    + intros (n & E & H1 & H2). injection E as <-. auto.
  - split; [contradiction | intros (n & E & _); discriminate].
Qed.

(** A Python set yields each element of the list once. *)
Lemma py_set_In (w : world) (l : list string) (x : string) :
  oracles_ok w -> In x (py_set w l) <-> In x l.
Proof.
  intros [Hs _]. unfold py_set. rewrite <- (List.nodup_In string_dec l x).
  split; apply Permutation_in; [apply Permutation_sym|]; apply Hs.
Qed.

Lemma py_set_NoDup (w : world) (l : list string) :
  oracles_ok w -> List.NoDup (py_set w l).
Proof.
  intros [Hs _]. unfold py_set.
  eapply Permutation_NoDup; [apply Hs | apply List.NoDup_nodup].
Qed.

Lemma all_imgs_In (w : world) (f : string) :
  oracles_ok w ->
  In f (all_imgs w)
  <-> exists names, image_dir w = Some names /\ In f names
                    /\ is_image f = true.
Proof.
  intros Hw. unfold all_imgs. rewrite (py_set_In w _ f Hw).
  apply list_dir_images_In.
Qed.

Lemma filter_ordered_In (imgs : list string) (ordered : list pair)
    (tpl : pair) :
  In tpl (filter_ordered imgs ordered)
  <-> In tpl ordered /\ In (ref tpl) imgs /\ In (fin tpl) imgs.
Proof.
  unfold filter_ordered. rewrite List.filter_In, andb_true_iff, !mem_In.
  reflexivity.
Qed.

(** The two paths of the resolver. *)
Lemma get_subject_pairs_cases (w : world) (shuffle : bool) :
  get_subject_pairs w shuffle
  = match global_filtered w with
    | [] => infer_pairs w shuffle (all_imgs w)
    | filtered => filtered
    end.
Proof.
  unfold get_subject_pairs, global_filtered, all_imgs.
  destruct (load_global_subject_pair_order (order_file w)) as [[|p ordered]|];
    try reflexivity.
Qed.

End ResolverFacts.

(** Grouping: [by_subject] holds, under each subject that has a file, the
    files of that subject in the order in which they came. *)
Section Grouping.
Import PyStr Resolver.
Variable subject : string -> string.

Lemma get_files_setdefault (k s f : string) (d : list (string * list string)) :
  get_files k (setdefault_append s f d)
  = if String.eqb k s then get_files k d ++ [f] else get_files k d.
Proof.
  induction d as [|[k' fl] d IH]; cbn [setdefault_append get_files].
  - destruct (String.eqb k s); reflexivity.
  - destruct (String.eqb_spec s k') as [->|Hs]; cbn [get_files].
    + destruct (String.eqb k k'); reflexivity.
    + destruct (String.eqb_spec k k') as [->|Hk].
      * rewrite (proj2 (String.eqb_neq k' s)) by congruence. reflexivity.
      * exact IH.
Qed.

Lemma keys_setdefault (k s f : string) (d : list (string * list string)) :
  In k (map fst (setdefault_append s f d)) <-> k = s \/ In k (map fst d).
Proof.
  induction d as [|[k' fl] d IH]; cbn [setdefault_append map fst In].
  - intuition congruence.
  - destruct (String.eqb_spec s k') as [->|Hs]; cbn [map fst In].
    + intuition congruence.
    + rewrite IH. intuition congruence.
Qed.

Lemma nodup_keys_setdefault (s f : string) (d : list (string * list string)) :
  List.NoDup (map fst d) -> List.NoDup (map fst (setdefault_append s f d)).
Proof.
  induction d as [|[k' fl] d IH]; cbn [setdefault_append map fst]; intros Hn.
  - constructor; [intros [] | constructor].
  - inversion Hn as [|? ? Hk Hn']; subst.
    destruct (String.eqb_spec s k') as [->|Hs]; cbn [map fst].
    + constructor; assumption.
    + constructor; [|apply IH; exact Hn'].
      rewrite keys_setdefault. intros [E|H]; [congruence | contradiction].
Qed.

Lemma files_of_app (k : string) (a b : list string) :
  files_of subject k (a ++ b) = files_of subject k a ++ files_of subject k b.
Proof. apply List.filter_app. Qed.

Lemma group_acc (files : list string) (d : list (string * list string)) :
  let d' := fold_left (fun d f => setdefault_append (subject f) f d) files d in
  (forall k, get_files k d' = get_files k d ++ files_of subject k files)
  /\ (forall k, In k (map fst d')
                <-> In k (map fst d) \/ exists f, In f files /\ subject f = k)
  /\ (List.NoDup (map fst d) -> List.NoDup (map fst d')).
Proof.
  cbv zeta. revert d. induction files as [|f files IH]; intros d.
  - cbn [fold_left]. split; [intros k; rewrite app_nil_r; reflexivity|].
    split; [|auto]. intros k. split; [auto|].
    intros [H|(f & [] & _)]. exact H.
  - cbn [fold_left].
    destruct (IH (setdefault_append (subject f) f d)) as (IH1 & IH2 & IH3).
    split; [|split].
    + intros k. rewrite IH1, get_files_setdefault.
      change (f :: files) with ([f] ++ files). rewrite files_of_app.
      unfold files_of at 2. cbn [List.filter].
      rewrite (String.eqb_sym (subject f) k).
      destruct (String.eqb k (subject f)); rewrite <- ?app_assoc; reflexivity.
    + intros k. rewrite IH2, keys_setdefault. cbn [In]. split.
      * intros [[E|H]|(g & Hg & E)]; eauto.
      * intros [H|(g & [<-|Hg] & E)]; eauto.
    + intros Hn. apply IH3, nodup_keys_setdefault, Hn.
Qed.

Lemma get_files_In (k : string) (fl : list string)
    (d : list (string * list string)) :
  List.NoDup (map fst d) -> In (k, fl) d -> get_files k d = fl.
Proof.
  induction d as [|[k' fl'] d IH]; intros Hn Hin; [contradiction|].
  inversion Hn as [|? ? Hk Hn']; subst. cbn [get_files].
  destruct Hin as [E|Hin].
  - injection E as -> ->. rewrite String.eqb_refl. reflexivity.
  - destruct (String.eqb_spec k k') as [->|Hne]; [|apply IH; assumption].
    exfalso. apply Hk. apply (List.in_map fst) in Hin. exact Hin.
Qed.

Lemma In_get_files (k : string) (d : list (string * list string)) :
  In k (map fst d) -> In (k, get_files k d) d.
Proof.
  induction d as [|[k' fl'] d IH]; intros Hin; [contradiction|].
  cbn [get_files]. destruct (String.eqb_spec k k') as [->|Hne].
  - left. reflexivity.
  - right. apply IH. destruct Hin as [E|Hin]; [cbn in E; congruence | exact Hin].
Qed.

Lemma group_by_keys_nodup (files : list string) :
  List.NoDup (map fst (group_by subject files)).
Proof.
  unfold group_by. apply (group_acc files []). constructor.
Qed.

Lemma group_by_In (files : list string) (k : string) (fl : list string) :
  In (k, fl) (group_by subject files)
  <-> fl = files_of subject k files /\ fl <> [].
Proof.
  pose proof (group_acc files []) as H. cbv zeta in H.
  destruct H as (Hget & Hkeys & _). fold (group_by subject files) in Hget, Hkeys.
  pose proof (group_by_keys_nodup files) as Hn.
  split.
  - intros Hin. pose proof (get_files_In k fl _ Hn Hin) as E.
    rewrite Hget in E. cbn [get_files app] in E. split; [congruence|].
    apply (List.in_map fst) in Hin. cbn [fst] in Hin.
    apply Hkeys in Hin as [[]|(f & Hf & Hs)].
    intros Hnil. rewrite Hnil in E.
    assert (Hin' : In f (files_of subject k files)).
    { apply List.filter_In. split; [exact Hf | apply String.eqb_eq, Hs]. }
    rewrite E in Hin'. exact Hin'.
  - intros [-> Hne].
    rewrite <- (app_nil_l (files_of subject k files)).
    change [] with (get_files k []) at 1. rewrite <- Hget.
    apply In_get_files, Hkeys. right.
    destruct (files_of subject k files) as [|f fl] eqn:E; [congruence|].
    assert (Hin : In f (files_of subject k files)) by (rewrite E; left; reflexivity).
    unfold files_of in Hin. apply List.filter_In in Hin as [Hf Hs].
    exists f. split; [exact Hf | apply String.eqb_eq, Hs].
Qed.


Lemma pair_of_subject_In (k : string) (fl : list string) (p : pair) :
  In p (pair_of_subject (k, fl))
  <-> 2 <= length fl
      /\ hd "" (sorted ts_key fl) <> List.last (sorted ts_key fl) ""
      /\ p = (k, hd "" (sorted ts_key fl), List.last (sorted ts_key fl) "").
Proof.
  cbn [pair_of_subject]. destruct (length fl <? 2) eqn:E.
  - apply Nat.ltb_lt in E. split; [contradiction | intros (H & _); lia].
  - apply Nat.ltb_ge in E.
    destruct (String.eqb_spec (hd "" (sorted ts_key fl))
                (List.last (sorted ts_key fl) "")) as [Heq|Hne].
    + split; [contradiction | intros (_ & H & _); contradiction].
    + cbn [In]. split.
      * intros [<-|[]]. auto.
      * intros (_ & _ & ->). left. reflexivity.
Qed.

Lemma flat_pairs_sid (d : list (string * list string)) (p : pair) :
  In p (flat_map pair_of_subject d) -> In (sid p) (map fst d).
Proof.
  intros H. apply in_flat_map in H as ([k fl] & Hd & Hp).
  apply pair_of_subject_In in Hp as (_ & _ & ->).
  apply (List.in_map fst) in Hd. exact Hd.
Qed.

Lemma flat_pairs_nodup (d : list (string * list string)) :
  List.NoDup (map fst d) ->
  List.NoDup (map sid (flat_map pair_of_subject d)).
Proof.
  induction d as [|[k fl] d IH]; intros Hn; [constructor|].
  inversion Hn as [|? ? Hk Hn']; subst.
  cbn [flat_map]. rewrite List.map_app.
  assert (Hone : pair_of_subject (k, fl) = []
                 \/ exists p, pair_of_subject (k, fl) = [p] /\ sid p = k).
  { cbn [pair_of_subject]. destruct (length fl <? 2); [left; reflexivity|].
    destruct (String.eqb _ _); [left; reflexivity|].
    right. eexists. split; reflexivity. }
  destruct Hone as [->|(p & -> & Hp)]; [apply IH; exact Hn'|].
  cbn [map app]. constructor; [|apply IH; exact Hn'].
  rewrite Hp. intros Hin. apply Hk.
  apply in_map_iff in Hin as (q & <- & Hq). apply flat_pairs_sid. exact Hq.
Qed.

Lemma string_leb_neq_ltb (a b : string) :
  String.leb a b = true -> a <> b -> String.ltb a b = true.
Proof.
  unfold String.leb, String.ltb. intros Hle Hne.
  destruct (String.compare a b) eqn:E; try reflexivity; try discriminate.
  apply String.compare_eq_iff in E. contradiction.
Qed.

(** Sorted on keys that do not repeat is strictly ascending. *)
Lemma sorted_nodup_strict (l : list pair) :
  StronglySorted (key_le sid) l -> List.NoDup (map sid l) ->
  StronglySorted sid_lt l.
Proof.
  induction 1 as [|p l Hs IH Hall]; intros Hn; [constructor|].
  inversion Hn as [|? ? Hp Hn']; subst.
  constructor; [apply IH; exact Hn'|].
  rewrite List.Forall_forall in *. intros q Hq.
  apply string_leb_neq_ltb; [apply Hall; exact Hq|].
  intros E. apply Hp. rewrite E. apply (List.in_map sid). exact Hq.
Qed.

Lemma pairs_by_nodup (imgs : list string) :
  List.NoDup (map sid (pairs_by subject imgs)).
Proof.
  unfold pairs_by.
  eapply Permutation_NoDup;
    [apply Permutation_map, sorted_perm|].
  apply flat_pairs_nodup, group_by_keys_nodup.
Qed.

Lemma pairs_by_sorted (imgs : list string) :
  StronglySorted sid_lt (pairs_by subject imgs).
Proof.
  apply sorted_nodup_strict; [apply sorted_sorted | apply pairs_by_nodup].
Qed.

(** The pairs inferred: one for each subject with two files at least, made
    of the first and the last of its files sorted by timestamp key. *)
Lemma pairs_by_In (imgs : list string) (s r f : string) :
  List.NoDup imgs ->
  let fl := files_of subject s (List.filter (contains "_") imgs) in
  In (s, r, f) (pairs_by subject imgs)
  <-> 2 <= length fl
      /\ r = hd "" (sorted ts_key fl)
      /\ f = List.last (sorted ts_key fl) "".
Proof.
  intros Hn. cbv zeta. unfold pairs_by. rewrite sorted_In, in_flat_map.
  set (files := List.filter (contains "_") imgs).
  assert (Hdiff : 2 <= length (files_of subject s files) ->
            hd "" (sorted ts_key (files_of subject s files))
            <> List.last (sorted ts_key (files_of subject s files)) "").
  { intros Hlen. apply nodup_hd_last.
    - eapply Permutation_NoDup; [apply sorted_perm|].
      unfold files_of, files. apply List.NoDup_filter, List.NoDup_filter, Hn.
    - rewrite sorted_length. exact Hlen. }
  split.
  - intros ([k fl] & Hd & Hp). apply pair_of_subject_In in Hp as (Hlen & _ & E).
    injection E as <- -> ->. apply group_by_In in Hd as [-> _]. auto.
  - intros (Hlen & -> & ->). exists (s, files_of subject s files). split.
    + apply group_by_In. split; [reflexivity|].
      intros E. rewrite E in Hlen. simpl in Hlen. lia.
    + apply pair_of_subject_In. auto.
Qed.

(** The first file of a pair has the least timestamp key among the files of
    its subject and the last file the greatest; both are files of the
    subject, and they differ. *)
Lemma pairs_by_extremes (imgs : list string) (s r f : string) :
  List.NoDup imgs ->
  let fl := files_of subject s (List.filter (contains "_") imgs) in
  In (s, r, f) (pairs_by subject imgs) ->
  In r fl /\ In f fl /\ r <> f
  /\ forall g, In g fl ->
       String.leb (ts_key r) (ts_key g) = true
       /\ String.leb (ts_key g) (ts_key f) = true.
Proof.
  intros Hn. cbv zeta. intros Hin.
  apply (pairs_by_In imgs s r f Hn) in Hin as (Hlen & -> & ->).
  set (fl := files_of subject s (List.filter (contains "_") imgs)) in *.
  assert (Hne : sorted ts_key fl <> []).
  { intros E. apply (f_equal (@length string)) in E.
    rewrite sorted_length in E. simpl in E. lia. }
  destruct (sorted ts_key fl) as [|x l] eqn:E; [congruence|].
  rewrite <- E in *. clear Hne.
  split; [apply (sorted_In ts_key); rewrite E; left; reflexivity|].
  split.
  { apply (sorted_In ts_key). rewrite E.
    destruct (exists_last (l:=x :: l)) as (l' & a & E'); [discriminate|].
    rewrite E', List.last_last. apply in_or_app. right. left. reflexivity. }
  split.
  { apply nodup_hd_last.
    - eapply Permutation_NoDup; [apply sorted_perm|].
      unfold fl, files_of. apply List.NoDup_filter, List.NoDup_filter, Hn.
    - rewrite sorted_length. exact Hlen. }
  intros g Hg. apply (sorted_In ts_key) in Hg. split.
  - apply (strongly_sorted_hd ts_key); [apply sorted_sorted | exact Hg].
  - apply (strongly_sorted_last ts_key); [apply sorted_sorted | exact Hg].
Qed.

End Grouping.

(** ** The pair resolver: what it returns *)

Section ResolverResults.
Import PyStr Resolver.

Lemma is_image_spec (f : string) : is_image f = true <-> has_image_ext f.
Proof.
  unfold is_image, endswith_any, has_image_ext. rewrite existsb_exists.
  split.
  - intros (ext & Hext & H). apply endswith_spec in H as (pre & H).
    exists ext, pre. auto.
  - intros (ext & pre & Hext & H). exists ext. split; [exact Hext|].
    apply endswith_spec. exists pre. exact H.
Qed.

Lemma demo_world_ok (dir : list string) : oracles_ok (demo_world dir).
Proof. split; intros l; apply Permutation_refl. Qed.

Lemma world_with_ok (items : list jitem) (dir : list string) :
  oracles_ok (world_with items dir).
Proof. split; intros l; apply Permutation_refl. Qed.

Lemma reversing_world_ok (dir : list string) :
  oracles_ok (reversing_world dir).
Proof. split; intros l; apply Permutation_rev. Qed.

Lemma infer_pairs_perm (w : world) (shuffle : bool) (imgs : list string) :
  oracles_ok w ->
  Permutation (pairs_by subject_of imgs) (infer_pairs w shuffle imgs).
Proof.
  intros [_ Hr]. unfold infer_pairs.
  destruct shuffle; [apply Hr | apply Permutation_refl].
Qed.

Lemma infer_pairs_In (w : world) (shuffle : bool) (imgs : list string)
    (p : pair) :
  oracles_ok w ->
  In p (infer_pairs w shuffle imgs) <-> In p (pairs_by subject_of imgs).
Proof.
  intros Hw. split; apply Permutation_in;
    [apply Permutation_sym|]; apply infer_pairs_perm; exact Hw.
Qed.

Lemma subject_files_In (w : world) (s g : string) :
  In g (subject_files w s)
  <-> In g (all_imgs w) /\ contains "_" g = true /\ subject_of g = s.
Proof.
  unfold subject_files, files_of. rewrite !List.filter_In, String.eqb_eq.
  tauto.
Qed.

Lemma filter_idem {A : Type} (f : A -> bool) (l : list A) :
  List.filter f (List.filter f l) = List.filter f l.
Proof.
  induction l as [|x l IH]; [reflexivity|].
  cbn [List.filter]. destruct (f x) eqn:E; [|exact IH].
  cbn [List.filter]. rewrite E, IH. reflexivity.
Qed.

(** C10: each file of a returned pair, whichever way the list was made, is
    an entry of the image directory whose name ends, case-insensitively,
    with one of the five image extensions; and the entries with another
    extension have no part in the result: removing them from the directory
    changes nothing. *)
Theorem resolver_returns_image_files_only (w : world) (shuffle : bool) :
  oracles_ok w ->
  (forall p f,
     In p (get_subject_pairs w shuffle) ->
     f = ref p \/ f = fin p ->
     (exists names, image_dir w = Some names /\ In f names)
     /\ is_image f = true
     /\ has_image_ext f)
  /\ (forall names,
        image_dir w = Some names ->
        get_subject_pairs w shuffle
        = get_subject_pairs
            (with_listing w (Some (List.filter is_image names))) shuffle).
Proof.
  intros Hw. split.
  - intros p f Hp Hf.
    assert (Himg : In f (all_imgs w)).
    { rewrite get_subject_pairs_cases in Hp.
      destruct (global_filtered w) as [|q filtered] eqn:Hg.
      - apply (infer_pairs_In w shuffle _ p Hw) in Hp.
        destruct p as [[s r] g].
        pose proof (pairs_by_extremes subject_of (all_imgs w) s r g
                      (py_set_NoDup w _ Hw) Hp) as (Hr & Hg' & _).
        fold (subject_files w s) in Hr, Hg'.
        apply subject_files_In in Hr as (Hr & _).
        apply subject_files_In in Hg' as (Hg' & _).
        destruct Hf as [->| ->]; assumption.
      - rewrite <- Hg in Hp. unfold global_filtered in Hp.
        destruct (load_global_subject_pair_order (order_file w));
          [|contradiction].
        apply filter_ordered_In in Hp as (_ & Hr & Hg').
        destruct Hf as [->| ->]; assumption. }
    apply (all_imgs_In w f Hw) in Himg as (names & Hd & Hn & Hi).
    split; [exists names; auto|]. split; [exact Hi|].
    apply is_image_spec, Hi.
  - intros names Hd. unfold get_subject_pairs, with_listing, py_set.
    cbn [order_file image_dir set_iter rand_shuffle].
    rewrite Hd. cbn [_list_dir_images]. rewrite filter_idem.
    reflexivity.
Qed.

(** A directory with a text file that follows the naming convention. *)
Lemma resolver_returns_image_files_only_witness :
  let w := demo_world ["S1_20240101_0800.png"; "S1_20240110_0800.txt";
                       "S1_20240115_0900.PNG"] in
  get_subject_pairs w false
  = [("S1", "S1_20240101_0800.png", "S1_20240115_0900.PNG")]
  /\ is_image "S1_20240115_0900.PNG" = true
  /\ is_image "S1_20240110_0800.txt" = false.
Proof.
  split; [vm_compute; reflexivity|]. split; [|vm_compute; reflexivity].
  exact (proj1 (proj2
    (proj1 (resolver_returns_image_files_only
              (demo_world ["S1_20240101_0800.png"; "S1_20240110_0800.txt";
                           "S1_20240115_0900.PNG"]) false
              (demo_world_ok _))
       ("S1", "S1_20240101_0800.png", "S1_20240115_0900.PNG")
       "S1_20240115_0900.PNG"
       ltac:(vm_compute; left; reflexivity)
       (or_intror eq_refl)))).
Defined.

Lemma filter_ordered_ext (s t : list string) (ordered : list pair) :
  (forall y, In y s <-> In y t) ->
  filter_ordered s ordered = filter_ordered t ordered.
Proof.
  intros H. unfold filter_ordered. apply List.filter_ext. intros tpl.
  rewrite (mem_ext _ s t H), (mem_ext _ s t H). reflexivity.
Qed.





Lemma nodup_map_filter {A B : Type} (f : A -> B) (g : A -> bool)
    (l : list A) :
  List.NoDup (map f l) -> List.NoDup (map f (List.filter g l)).
Proof.
  induction l as [|x l IH]; intros Hn; [constructor|].
  inversion Hn as [|? ? Hx Hn']; subst. cbn [List.filter].
  destruct (g x); [|apply IH; exact Hn'].
  cbn [map]. constructor; [|apply IH; exact Hn'].
  intros Hin. apply Hx. apply in_map_iff in Hin as (y & E & Hy).
  apply List.filter_In in Hy as [Hy _]. rewrite <- E.
  apply (List.in_map f). exact Hy.
Qed.

(** C1, as amended: a list made by filename inference has pairwise
    distinct subject_ids and two different files in every entry, shuffled or
    not; a list taken from the global order is the entries of the file that
    pass the existence check, as they stand, and has those two properties
    when the entries of the file have them. *)
Theorem inferred_pairs_unique_and_distinct (w : world) (shuffle : bool) :
  oracles_ok w ->
  let result := get_subject_pairs w shuffle in
  (global_filtered w = [] ->
   List.NoDup (map sid result) /\ forall p, In p result -> ref p <> fin p)
  /\ (global_filtered w <> [] -> result = global_filtered w)
  /\ (forall ordered,
        load_global_subject_pair_order (order_file w) = Some ordered ->
        List.NoDup (map sid ordered) ->
        (forall p, In p ordered -> ref p <> fin p) ->
        List.NoDup (map sid result)
        /\ forall p, In p result -> ref p <> fin p).
Proof.
  intros Hw. cbv zeta.
  assert (Hinf : List.NoDup (map sid (infer_pairs w shuffle (all_imgs w)))
                 /\ forall p, In p (infer_pairs w shuffle (all_imgs w)) ->
                      ref p <> fin p).
  { split.
    - eapply Permutation_NoDup;
        [apply Permutation_map, infer_pairs_perm; exact Hw|].
      apply pairs_by_nodup.
    - intros [[s r] f] Hp. apply (infer_pairs_In w shuffle _ _ Hw) in Hp.
      apply (pairs_by_extremes subject_of (all_imgs w) s r f
               (py_set_NoDup w _ Hw)) in Hp as (_ & _ & Hne & _).
      exact Hne. }
  rewrite get_subject_pairs_cases.
  split; [intros ->; exact Hinf|].
  split; [destruct (global_filtered w); [congruence | reflexivity]|].
  intros ordered Hload Hn Hd.
  destruct (global_filtered w) as [|q filtered] eqn:Hg; [exact Hinf|].
  rewrite <- Hg. unfold global_filtered. rewrite Hload. split.
  - apply nodup_map_filter. exact Hn.
  - intros p Hp. apply filter_ordered_In in Hp as (Hp & _). apply Hd, Hp.
Qed.

(** Three files of one subject, the set yielded in reverse, the result
    shuffled: one pair, of two different files. *)
Lemma inferred_pairs_unique_and_distinct_witness :
  let w := reversing_world ["S1_20240101_0800.png"; "S1_20240108_0800.png";
                            "S1_20240115_0900.png"; "S2_20240101_0800.png"] in
  List.NoDup (map sid (get_subject_pairs w true))
  /\ forall p, In p (get_subject_pairs w true) -> ref p <> fin p.
Proof.
  exact (proj1 (inferred_pairs_unique_and_distinct
                  (reversing_world ["S1_20240101_0800.png";
                                    "S1_20240108_0800.png";
                                    "S1_20240115_0900.png";
                                    "S2_20240101_0800.png"]) true
                  (reversing_world_ok _)) eq_refl).
Defined.

(** C1, counterexample: the order file lists subject S1 twice, the first
    time with one file in both places, and both files are in the directory.
    The resolver returns the two entries as they stand: the subject_ids
    repeat, and the first entry has the same file twice. *)
Lemma global_order_returned_with_duplicates :
  let w := world_with [order_entry "S1" "S1_a.png" "S1_a.png";
                       order_entry "S1" "S1_a.png" "S1_b.png"]
             ["S1_a.png"; "S1_b.png"] in
  get_subject_pairs w false
  = [("S1", "S1_a.png", "S1_a.png"); ("S1", "S1_a.png", "S1_b.png")]
  /\ map sid (get_subject_pairs w false) = ["S1"; "S1"]
  /\ (exists p, In p (get_subject_pairs w false) /\ ref p = fin p).
Proof.
  vm_compute. split; [reflexivity|]. split; [reflexivity|].
  eexists. split; [left; reflexivity | reflexivity].
Qed.

Lemma group_by_ext (s1 s2 : string -> string) (files : list string) :
  (forall f, In f files -> s1 f = s2 f) ->
  group_by s1 files = group_by s2 files.
Proof.
  unfold group_by. generalize (@nil (string * list string)) as d.
  induction files as [|f files IH]; intros d H; [reflexivity|].
  cbn [fold_left]. rewrite (H f (or_introl eq_refl)).
  apply IH. intros g Hg. apply H. right. exact Hg.
Qed.

Lemma pairs_by_ext (s1 s2 : string -> string) (imgs : list string) :
  (forall f, In f imgs -> s1 f = s2 f) ->
  pairs_by s1 imgs = pairs_by s2 imgs.
Proof.
  intros H. unfold pairs_by. rewrite (group_by_ext s1 s2); [reflexivity|].
  intros f Hf. apply List.filter_In in Hf as [Hf _]. apply H, Hf.
Qed.

(** The six orders of three things. *)
Lemma permutation_of_three {A : Type} (a b c : A) (l : list A) :
  Permutation [a; b; c] l ->
  l = [a; b; c] \/ l = [a; c; b] \/ l = [b; a; c]
  \/ l = [b; c; a] \/ l = [c; a; b] \/ l = [c; b; a].
Proof.
  intros H. apply Permutation_sym in H.
  destruct (Permutation_vs_cons_inv H) as (l1 & l2 & ->).
  apply Permutation_sym, Permutation_cons_app_inv in H.
  apply Permutation_length_2_inv in H.
  destruct l1 as [|x [|y [|z l1]]]; cbn [app] in *;
    destruct H as [H|H]; try discriminate;
    try (injection H as -> ->); try (injection H as -> -> ->);
    try (destruct l1; discriminate); subst; auto 10.
Qed.

(** The scenario of the specification, whatever the order in which the
    directory lists the three files and the set yields them. *)
Lemma scenario_one_pair (w : world) (names : list string) :
  oracles_ok w -> image_dir w = Some names ->
  Permutation names ["S1_20240101_0800.png"; "S1_20240115_0900.png";
                     "S2_20240101_0800.png"] ->
  pairs_by subject_of (all_imgs w)
  = [("S1", "S1_20240101_0800.png", "S1_20240115_0900.png")].
Proof.
  intros [Hset _] Hdir Hperm. unfold all_imgs, py_set. rewrite Hdir.
  cbn [_list_dir_images].
  assert (Hfilter : List.filter is_image names = names).
  { apply List.forallb_filter_id, List.forallb_forall. intros f Hf.
    apply (Permutation_in _ Hperm) in Hf.
    destruct Hf as [<-|[<-|[<-|[]]]]; reflexivity. }
  assert (Hnodup : nodup string_dec names = names).
  { apply List.nodup_fixed_point.
    apply (Permutation_NoDup (Permutation_sym Hperm)).
    repeat constructor; cbn [In]; intuition discriminate. }
  rewrite Hfilter, Hnodup.
  pose proof (Permutation_trans (Permutation_sym Hperm) (Hset names)) as Hp.
  apply permutation_of_three in Hp.
  destruct Hp as [->|[->|[->|[->|[->| ->]]]]]; vm_compute; reflexivity.
Qed.

(** C6, as amended: on the inference path, with the shuffle off, the
    resolver looks at the images whose name holds an underscore, puts each
    under the segment before its first underscore with the white space
    around it stripped, returns one pair for each subject with two files at
    least, made of the file with the least timestamp key and the file with
    the greatest, and returns the pairs in strictly ascending order of
    subject_id.  When no first segment has white space around it this is
    the inference as the claim words it; and for the directory of the
    scenario the result is the single pair of S1. *)
Theorem inference_groups_by_stripped_segment (w : world) :
  oracles_ok w -> global_filtered w = [] ->
  let result := get_subject_pairs w false in
  (forall s g,
     In g (subject_files w s)
     <-> In g (all_imgs w) /\ contains "_" g = true
         /\ strip (first_segment g) = s)
  /\ (forall s r f,
        In (s, r, f) result
        <-> 2 <= length (subject_files w s)
            /\ r = hd "" (sorted ts_key (subject_files w s))
            /\ f = List.last (sorted ts_key (subject_files w s)) "")
  /\ (forall s r f,
        In (s, r, f) result ->
        In r (subject_files w s) /\ In f (subject_files w s) /\ r <> f
        /\ forall g, In g (subject_files w s) ->
             String.leb (ts_key r) (ts_key g) = true
             /\ String.leb (ts_key g) (ts_key f) = true)
  /\ StronglySorted sid_lt result
  /\ ((forall g, In g (all_imgs w) ->
         strip (first_segment g) = first_segment g) ->
      result = pairs_by_segment (all_imgs w))
  /\ (forall names,
        image_dir w = Some names ->
        Permutation names ["S1_20240101_0800.png"; "S1_20240115_0900.png";
                           "S2_20240101_0800.png"] ->
        result = [("S1", "S1_20240101_0800.png", "S1_20240115_0900.png")]).
Proof.
  intros Hw Hg. cbv zeta.
  assert (E : get_subject_pairs w false = pairs_by subject_of (all_imgs w)).
  { rewrite get_subject_pairs_cases, Hg. reflexivity. }
  rewrite E. pose proof (py_set_NoDup w (_list_dir_images (image_dir w)) Hw)
    as Hn. fold (all_imgs w) in Hn.
  split; [intros s g; apply subject_files_In|].
  split; [intros s r f; apply (pairs_by_In subject_of _ s r f Hn)|].
  split; [intros s r f; apply (pairs_by_extremes subject_of _ s r f Hn)|].
  split; [apply pairs_by_sorted|].
  split; [intros H; apply pairs_by_ext; exact H|].
  intros names Hdir Hperm. apply (scenario_one_pair w names Hw Hdir Hperm).
Qed.

(** The directory of the scenario, listed with S2 first and yielded in
    reverse. *)
Lemma inference_groups_by_stripped_segment_witness :
  let w := reversing_world ["S2_20240101_0800.png"; "S1_20240115_0900.png";
                            "S1_20240101_0800.png"] in
  get_subject_pairs w false
  = [("S1", "S1_20240101_0800.png", "S1_20240115_0900.png")].
Proof.
  exact (proj2 (proj2 (proj2 (proj2 (proj2
    (inference_groups_by_stripped_segment
       (reversing_world ["S2_20240101_0800.png"; "S1_20240115_0900.png";
                         "S1_20240101_0800.png"])
       (reversing_world_ok _) eq_refl)))))
    ["S2_20240101_0800.png"; "S1_20240115_0900.png";
     "S1_20240101_0800.png"]
    eq_refl
    (Permutation_sym
       (Permutation_rev ["S1_20240101_0800.png"; "S1_20240115_0900.png";
                         "S2_20240101_0800.png"]))).
Defined.

(** C6, counterexample: one file is named with a space before its first
    underscore.  The segments before the first underscore, [S1 ] and [S1],
    differ, so grouping by that segment leaves each file alone and no pair;
    the resolver strips the segment, groups the two files under S1 and
    returns their pair. *)
Lemma inference_strips_the_segment :
  let w := demo_world ["S1 _20240101_0800.png"; "S1_20240115_0900.png"] in
  first_segment "S1 _20240101_0800.png" = "S1 "
  /\ first_segment "S1_20240115_0900.png" = "S1"
  /\ pairs_by_segment (all_imgs w) = []
  /\ get_subject_pairs w false
     = [("S1", "S1 _20240101_0800.png", "S1_20240115_0900.png")].
Proof. vm_compute. repeat split; reflexivity. Qed.

End ResolverResults.


(** ** The realigner called twice *)

Section Resume.
Import PyStr Resolver Session.

(** The realigner is idempotent: a second call on the machine the first
    call left changes nothing, neither the state nor the output. *)
Theorem realign_idempotent (e : env) (m : machine) :
  _realign_img_idx_to_scores e (_realign_img_idx_to_scores e m)
  = _realign_img_idx_to_scores e m.
Proof.
  pose proof (realign_effect e m) as H. cbv zeta in H.
  destruct H as (Hc & Hn & Hs & Ho & Hla & Hie & Hfl & Hfs & Hl).
  set (m1 := _realign_img_idx_to_scores e m) in *.
  assert (Hord : realign_order e (ss m1) = realign_order e (ss m)).
  { unfold realign_order. rewrite Ho. reflexivity. }
  unfold _realign_img_idx_to_scores at 1.
  fold (cursor_of (scored_ids (scores (ss m1))) (realign_order e (ss m1))).
  fold (drift (realign_order e (ss m1)) (scores (ss m1))).
  rewrite Hord, Hs, Hfl, <- Hc, <- Hn.
  destruct (_warned_score_mismatch (ss m));
    destruct (drift (realign_order e (ss m)) (scores (ss m)));
    cbn [orb andb negb]; unfold set_ss;
    destruct m1 as [[? ? ? ? ? ? ?] ? ?]; cbn in *; subst; reflexivity.
Qed.

End Resume.

(** ** The global order file *)

Section GlobalOrder.
Import PyStr Resolver.

Lemma str_of_Z_nonempty (z : Z) : str_of_Z z <> "".
Proof.
  unfold str_of_Z. destruct z as [|p|p]; simpl; try discriminate.
  pose proof (DecimalPos.Unsigned.to_uint_nonnil p) as H.
  destruct (Pos.to_uint p); simpl; congruence.
Qed.

Lemma jtruthy_jstr (v : option jscalar) : jtruthy v = true -> jstr v <> "".
Proof.
  destruct v as [[|[]|z|s]|]; simpl; try discriminate.
  - intros _. apply str_of_Z_nonempty.
  - intros H Hs. subst s. discriminate.
Qed.

Lemma load_item_usable (item : jitem) (p : pair) :
  In p (load_item item) -> sid p <> "" /\ ref p <> "" /\ fin p <> "".
Proof.
  destruct item as [|fields]; simpl; [tauto|].
  destruct (jtruthy (fields !! "subject_id")) eqn:H1; simpl; [|tauto].
  destruct (jtruthy (fields !! "ref")) eqn:H2; simpl; [|tauto].
  destruct (jtruthy (fields !! "final")) eqn:H3; simpl; [|tauto].
  intros [<-|[]]. unfold sid, ref, fin; simpl.
  repeat split; apply jtruthy_jstr; assumption.
Qed.

Lemma load_order_entry (s r f : string) :
  s <> "" -> r <> "" -> f <> "" ->
  load_item (order_entry s r f) = [(s, r, f)].
Proof.
  intros Hs Hr Hf. unfold load_item, order_entry.
  rewrite lookup_insert_eq.
  rewrite lookup_insert_ne by discriminate. rewrite lookup_insert_eq.
  rewrite lookup_insert_ne by discriminate.
  rewrite lookup_insert_ne by discriminate. rewrite lookup_insert_eq.
  simpl.
  destruct (String.eqb_spec s ""); [contradiction|].
  destruct (String.eqb_spec r ""); [contradiction|].
  destruct (String.eqb_spec f ""); [contradiction|]. reflexivity.
Qed.

(** What the loader returns is never an empty list, and each of its
    triples holds three strings none of which is empty. *)
Theorem global_order_entries_are_usable (f : jfile) (ordered : list pair) :
  load_global_subject_pair_order f = Some ordered ->
  ordered <> []
  /\ forall p, In p ordered -> sid p <> "" /\ ref p <> "" /\ fin p <> "".
Proof.
  destruct f as [| |items]; simpl; try discriminate.
  destruct (flat_map load_item items) as [|q l] eqn:E; [discriminate|].
  intros [= <-]. split; [discriminate|].
  intros p Hp. rewrite <- E in Hp. apply in_flat_map in Hp.
  destruct Hp as (item & _ & Hp). eapply load_item_usable; eassumption.
Qed.

Lemma global_order_entries_are_usable_witness :
  let f := JList [JOther;
                  JObject (<["subject_id" := JInt 7]>
                           (<["ref" := JStr "7_a.png"]>
                            (<["final" := JStr "7_b.png"]> ∅)));
                  JObject (<["subject_id" := JStr "S2"]>
                           (<["ref" := JStr ""]>
                            (<["final" := JStr "S2_b.png"]> ∅)))] in
  load_global_subject_pair_order f = Some [("7", "7_a.png", "7_b.png")]
  /\ forall p, In p [("7", "7_a.png", "7_b.png")] ->
       sid p <> "" /\ ref p <> "" /\ fin p <> "".
Proof.
  cbv zeta.
  match goal with
  | |- load_global_subject_pair_order ?f = Some ?l /\ _ =>
      split; [reflexivity|];
      apply (global_order_entries_are_usable f l); reflexivity
  end.
Defined.

(** A file that lists pairs of non-empty strings is read back as those
    pairs, in the order of the file; an entry that is not an object changes
    nothing, wherever it stands. *)
Theorem global_order_round_trip (pairs : list pair) :
  pairs <> [] ->
  (forall p, In p pairs -> sid p <> "" /\ ref p <> "" /\ fin p <> "") ->
  let entry p := order_entry (sid p) (ref p) (fin p) in
  load_global_subject_pair_order (JList (map entry pairs)) = Some pairs
  /\ forall k,
       load_global_subject_pair_order
         (JList (map entry (firstn k pairs) ++ JOther
                 :: map entry (skipn k pairs)))
       = Some pairs.
Proof.
  intros Hne Hok entry.
  assert (Hflat : forall l, (forall p, In p l -> In p pairs) ->
                            flat_map load_item (map entry l) = l).
  { induction l as [|[[s r] f] l IH]; intros Hl; [reflexivity|].
    destruct (Hok (s, r, f)) as (Hs & Hr & Hf); [apply Hl; left; reflexivity|].
    cbn [map flat_map]. unfold entry at 1.
    change (sid (s, r, f)) with s in *. change (ref (s, r, f)) with r in *.
    change (fin (s, r, f)) with f in *.
    rewrite load_order_entry by assumption. cbn [app]. f_equal.
    apply IH. intros p Hp. apply Hl. right. assumption. }
  split.
  - simpl. rewrite Hflat by auto. destruct pairs; [contradiction|reflexivity].
  - intros k. simpl. rewrite flat_map_app. simpl.
    rewrite !Hflat.
    + rewrite firstn_skipn. destruct pairs; [contradiction|reflexivity].
    + intros p Hp. rewrite <- (firstn_skipn k pairs). apply in_or_app. right. assumption.
    + intros p Hp. rewrite <- (firstn_skipn k pairs). apply in_or_app. left. assumption.
Qed.

Lemma global_order_round_trip_witness :
  load_global_subject_pair_order
    (JList [order_entry "S2" "S2_a.png" "S2_b.png";
            order_entry "S1" "S1_a.png" "S1_b.png"])
  = Some [("S2", "S2_a.png", "S2_b.png"); ("S1", "S1_a.png", "S1_b.png")].
Proof.
  refine (proj1 (global_order_round_trip
            [("S2", "S2_a.png", "S2_b.png"); ("S1", "S1_a.png", "S1_b.png")]
            _ _)).
  - discriminate.
  - intros p [<-|[<-|[]]]; repeat split; discriminate.
Defined.

End GlobalOrder.

(** ** The pair resolver: what does not depend on the order of the set *)

Section SortedUnique.
Import PyStr.
Context {A : Type} (key : A -> string).

Lemma string_leb_antisym (a b : string) :
  String.leb a b = true -> String.leb b a = true -> a = b.
Proof.
  intros Hab Hba. apply string_leb_iff in Hab, Hba.
  destruct Hab as [Hab|Hab]; [assumption|].
  destruct Hba as [Hba|Hba]; [symmetry; assumption|].
  exfalso. apply (StrictOrder_Irreflexive (R := String_as_OT.lt) a).
  eapply (StrictOrder_Transitive (R := String_as_OT.lt)); eassumption.
Qed.

(** Two lists sorted by [key] that hold the same elements, no two of them
    with the same key, are the same list. *)
Lemma sorted_by_perm_unique (l1 l2 : list A) :
  StronglySorted (key_le key) l1 -> StronglySorted (key_le key) l2 ->
  Permutation l1 l2 -> List.NoDup (map key l1) -> l1 = l2.
Proof.
  revert l2. induction l1 as [|x l1 IH]; intros l2 S1 S2 P N.
  - apply Permutation_nil in P. symmetry. assumption.
  - destruct l2 as [|y l2].
    { apply Permutation_sym, Permutation_nil in P. discriminate. }
    inversion S1 as [|? ? S1' F1]; subst. inversion S2 as [|? ? S2' F2]; subst.
    rewrite List.Forall_forall in F1, F2.
    assert (Hxy : key_le key x y).
    { assert (Hy : In y (x :: l1)).
      { eapply Permutation_in; [apply Permutation_sym; exact P|left; reflexivity]. }
      destruct Hy as [<-|Hy]; [apply string_leb_refl|apply F1; assumption]. }
    assert (Hyx : key_le key y x).
    { assert (Hx : In x (y :: l2)).
      { eapply Permutation_in; [exact P|left; reflexivity]. }
      destruct Hx as [<-|Hx]; [apply string_leb_refl|apply F2; assumption]. }
    assert (Hk : key x = key y) by (apply string_leb_antisym; assumption).
    assert (Heq : x = y).
    { assert (Hy : In y (x :: l1)).
      { eapply Permutation_in; [apply Permutation_sym; exact P|left; reflexivity]. }
      destruct Hy as [Hy|Hy]; [assumption|].
      exfalso. simpl in N. inversion N as [|? ? Hn _]; subst.
      apply Hn. rewrite Hk. apply List.in_map. assumption. }
    subst y. f_equal. apply IH; try assumption.
    + eapply Permutation_cons_inv; exact P.
    + simpl in N. inversion N; assumption.
Qed.

(** The stable sort of two arrangements of the same elements gives the same
    list when no two elements have the same key. *)
Lemma sorted_perm_unique (l1 l2 : list A) :
  Permutation l1 l2 ->
  (forall x y, In x l1 -> In y l1 -> key x = key y -> x = y) ->
  List.NoDup l1 ->
  sorted key l1 = sorted key l2.
Proof.
  intros P Hinj N. apply sorted_by_perm_unique.
  - apply sorted_sorted.
  - apply sorted_sorted.
  - eapply Permutation_trans; [apply Permutation_sym, sorted_perm|].
    eapply Permutation_trans; [exact P|apply sorted_perm].
  - apply Finite.Injective_map_NoDup_in.
    + intros x y Hx Hy. apply sorted_In in Hx, Hy. apply Hinj; assumption.
    + eapply Permutation_NoDup; [apply sorted_perm|assumption].
Qed.

End SortedUnique.

Section SetOrder.
Import PyStr Resolver.

Lemma files_of_perm (s : string) (l1 l2 : list string) :
  List.NoDup l1 -> List.NoDup l2 -> (forall f, In f l1 <-> In f l2) ->
  Permutation (files_of subject_of s (List.filter (contains "_") l1))
              (files_of subject_of s (List.filter (contains "_") l2)).
Proof.
  intros N1 N2 H. unfold files_of.
  apply Permutation.NoDup_Permutation.
  - apply List.NoDup_filter, List.NoDup_filter. assumption.
  - apply List.NoDup_filter, List.NoDup_filter. assumption.
  - intros f. rewrite !List.filter_In, H. reflexivity.
Qed.

Lemma pairs_by_set_order (l1 l2 : list string) :
  List.NoDup l1 -> List.NoDup l2 -> (forall f, In f l1 <-> In f l2) ->
  (forall f g, In f l1 -> In g l1 ->
     subject_of f = subject_of g -> ts_key f = ts_key g -> f = g) ->
  pairs_by subject_of l1 = pairs_by subject_of l2.
Proof.
  intros N1 N2 H Hk.
  assert (Hin : forall p, In p (pairs_by subject_of l1)
                          <-> In p (pairs_by subject_of l2)).
  { intros [[s r] f].
    pose proof (pairs_by_In subject_of l1 s r f N1) as E1.
    pose proof (pairs_by_In subject_of l2 s r f N2) as E2.
    cbv zeta in E1, E2. rewrite E1, E2.
    pose proof (files_of_perm s l1 l2 N1 N2 H) as P.
    set (fl1 := files_of subject_of s (List.filter (contains "_") l1)) in *.
    set (fl2 := files_of subject_of s (List.filter (contains "_") l2)) in *.
    assert (Es : sorted ts_key fl1 = sorted ts_key fl2).
    { apply sorted_perm_unique; [exact P| |].
      - intros x y Hx Hy. unfold fl1, files_of in Hx, Hy.
        rewrite !List.filter_In in Hx, Hy.
        destruct Hx as ((Hx & _) & Hsx), Hy as ((Hy & _) & Hsy).
        apply String.eqb_eq in Hsx, Hsy. apply Hk; congruence.
      - unfold fl1, files_of. apply List.NoDup_filter, List.NoDup_filter.
        assumption. }
    rewrite Es, (Permutation_length P). reflexivity. }
  apply (sorted_by_perm_unique sid).
  - unfold pairs_by. apply sorted_sorted.
  - unfold pairs_by. apply sorted_sorted.
  - apply Permutation.NoDup_Permutation.
    + eapply NoDup_map_inv. apply pairs_by_nodup.
    + eapply NoDup_map_inv. apply pairs_by_nodup.
    + exact Hin.
  - apply pairs_by_nodup.
Qed.

(** Without the shuffle, the result does not depend on the order in which
    the set of images is iterated, as long as no two images of one subject
    have the same timestamp key; with such a tie it may. *)
Theorem resolver_independent_of_set_order :
  (forall w1 w2 : world,
     oracles_ok w1 -> oracles_ok w2 ->
     order_file w1 = order_file w2 ->
     (forall f, In f (all_imgs w1) <-> In f (all_imgs w2)) ->
     (forall f g, In f (all_imgs w1) -> In g (all_imgs w1) ->
        subject_of f = subject_of g -> ts_key f = ts_key g -> f = g) ->
     get_subject_pairs w1 false = get_subject_pairs w2 false)
  /\ (exists w1 w2 : world,
        oracles_ok w1 /\ oracles_ok w2
        /\ order_file w1 = order_file w2 /\ image_dir w1 = image_dir w2
        /\ get_subject_pairs w1 false <> get_subject_pairs w2 false).
Proof.
  split.
  - intros w1 w2 O1 O2 Hf Hm Hk.
    rewrite !get_subject_pairs_cases. unfold global_filtered.
    rewrite <- Hf.
    assert (Hp : infer_pairs w1 false (all_imgs w1)
                 = infer_pairs w2 false (all_imgs w2)).
    { unfold infer_pairs. apply pairs_by_set_order; try assumption.
      - apply py_set_NoDup; assumption.
      - apply py_set_NoDup; assumption. }
    rewrite Hp.
    destruct (load_global_subject_pair_order (order_file w1)) as [ordered|];
      [|reflexivity].
    rewrite (filter_ordered_ext _ _ ordered Hm). reflexivity.
  - exists (demo_world ["S1_2024_01_a.png"; "S1_2024_01_b.png"]),
           (reversing_world ["S1_2024_01_a.png"; "S1_2024_01_b.png"]).
    split; [apply demo_world_ok|]. split; [apply reversing_world_ok|].
    split; [reflexivity|]. split; [reflexivity|].
    vm_compute. discriminate.
Qed.

End SetOrder.

(** ** The timestamp key, the shuffle, the empty directory *)

Section ResolverEdges.
Import PyStr Resolver.

Lemma split_no_sep (c : ascii) (s : string) :
  contains c s = false -> split c s = [s].
Proof.
  induction s as [|d r IH]; [reflexivity|].
  simpl. destruct (Ascii.eqb d c); [discriminate|]. simpl.
  intros H. rewrite (IH H). reflexivity.
Qed.

Lemma split_app_sep (c : ascii) (a b : string) :
  contains c a = false ->
  split c (a ++ String c b) = a :: split c b.
Proof.
  induction a as [|d r IH]; simpl.
  - intros _. rewrite Ascii.eqb_refl. reflexivity.
  - destruct (Ascii.eqb d c); [discriminate|]. simpl.
    intros H. rewrite (IH H). reflexivity.
Qed.

(** The key of a name is its second and third segments joined by an
    underscore; what follows a third underscore is not looked at.  A name
    with one underscore has its second segment for key, a name with none
    has itself. *)
Theorem ts_key_reads_second_and_third_segment (a b c rest : string) :
  contains "_" a = false -> contains "_" b = false ->
  contains "_" c = false ->
  ts_key a = a
  /\ ts_key (a ++ "_" ++ b)%string = b
  /\ ts_key (a ++ "_" ++ b ++ "_" ++ c)%string = (b ++ "_" ++ c)%string
  /\ ts_key (a ++ "_" ++ b ++ "_" ++ c ++ "_" ++ rest)%string
     = (b ++ "_" ++ c)%string.
Proof.
  intros Ha Hb Hc. unfold ts_key.
  repeat split.
  - rewrite split_no_sep by assumption. reflexivity.
  - change ("_" ++ b)%string with (String "_" b).
    rewrite split_app_sep, split_no_sep by assumption. reflexivity.
  - change ("_" ++ b ++ "_" ++ c)%string with (String "_" (b ++ String "_" c)).
    rewrite !split_app_sep, split_no_sep by assumption. reflexivity.
  - change ("_" ++ b ++ "_" ++ c ++ "_" ++ rest)%string
      with (String "_" (b ++ String "_" (c ++ String "_" rest))).
    rewrite !split_app_sep by assumption.
    destruct (split "_" rest); reflexivity.
Qed.

Lemma ts_key_reads_second_and_third_segment_witness :
  ts_key "S1" = "S1"
  /\ ts_key "S1_20240101" = "20240101"
  /\ ts_key "S1_20240101_0800.png" = "20240101_0800.png"
  /\ ts_key "S1_20240101_0800.png_copy_2" = "20240101_0800.png".
Proof.
  apply (ts_key_reads_second_and_third_segment
           "S1" "20240101" "0800.png" "copy_2"); reflexivity.
Defined.



(** Without an image in the directory, or without a directory that can be
    listed, there is no pair, whatever the order file says. *)
Theorem no_image_no_pair (w : world) (shuffle : bool) :
  oracles_ok w -> _list_dir_images (image_dir w) = [] ->
  get_subject_pairs w shuffle = [].
Proof.
  intros O H. rewrite get_subject_pairs_cases.
  assert (Hi : all_imgs w = []).
  { unfold all_imgs, py_set. rewrite H. simpl.
    apply Permutation_nil. apply (proj1 O). }
  assert (Hg : global_filtered w = []).
  { unfold global_filtered. rewrite Hi.
    destruct (load_global_subject_pair_order (order_file w)) as [l|];
      [|reflexivity].
    unfold filter_ordered. induction l as [|p l IH]; [reflexivity|].
    simpl. exact IH. }
  rewrite Hg, Hi. unfold infer_pairs. simpl.
  destruct shuffle; [|reflexivity].
  apply Permutation_nil. apply (proj2 O).
Qed.

Lemma no_image_no_pair_witness :
  get_subject_pairs
    (world_with [order_entry "S1" "S1_a.png" "S1_b.png"] ["notes.txt"]) true
  = [].
Proof.
  apply no_image_no_pair; [apply world_with_ok|reflexivity].
Defined.

End ResolverEdges.

(** ** The realigner: bounds, monotony, what it reads of the rows *)

Section RealignerMore.
Import PyStr Resolver Session.

Lemma recognized_cons (ids : list pyval) (p : pair) (order : list pair) :
  recognized ids (p :: order)
  = (if in_ids (sid p) ids then 1 else 0) + recognized ids order.
Proof.
  unfold recognized. simpl. destruct (in_ids (sid p) ids); reflexivity.
Qed.

Lemma cursor_le_recognized (ids : list pyval) (order : list pair) :
  cursor_of ids order <= recognized ids order.
Proof.
  induction order as [|p order IH]; [reflexivity|].
  rewrite cursor_of_cons, recognized_cons.
  destruct (in_ids (sid p) ids); lia.
Qed.

Lemma recognized_le_length (ids : list pyval) (order : list pair) :
  recognized ids order <= length order.
Proof. unfold recognized. apply List.filter_length_le. Qed.

Lemma scored_ids_length (rows : list row) :
  length (scored_ids rows) <= length rows.
Proof.
  induction rows as [|r rows IH]; [reflexivity|].
  rewrite scored_ids_cons, List.length_app.
  destruct (r !! "subject_id") as [v|]; [|cbn [length]; lia].
  destruct (truthy (Some v)); cbn [length]; lia.
Qed.

(** Pairs with distinct subject ids that are all scored are no more than
    the scored ids. *)
Lemma recognized_le_ids (ids : list pyval) (order : list pair) :
  List.NoDup (map sid order) -> recognized ids order <= length ids.
Proof.
  intros N.
  set (strs := flat_map (fun v => match v with VStr s => [s] | _ => [] end) ids).
  assert (Hlen : length strs <= length ids).
  { unfold strs. clear. induction ids as [|v ids IH]; [reflexivity|].
    simpl. rewrite List.length_app. destruct v; simpl; lia. }
  assert (Hin : forall s, in_ids s ids = true -> In s strs).
  { intros s H. unfold in_ids in H. apply existsb_exists in H.
    destruct H as (v & Hv & Hs). unfold strs. apply in_flat_map.
    exists v. split; [assumption|].
    destruct v as [t| |]; try discriminate.
    apply String.eqb_eq in Hs. left. symmetry. assumption. }
  unfold recognized.
  rewrite <- (List.length_map sid).
  etransitivity; [|exact Hlen].
  apply List.NoDup_incl_length.
  - apply nodup_map_filter. assumption.
  - intros s Hs. apply List.in_map_iff in Hs.
    destruct Hs as (p & <- & Hp). apply List.filter_In in Hp.
    apply Hin. apply Hp.
Qed.

(** The order the page shows is the order the realigner works on. *)
Lemma scoring_page_order (e : env) (ts author : string) (m : machine) :
  let m' := snd (scoring_page e ts author m) in
  exists s, image_order (ss m') = image_order s
            /\ realign_order e s = image_order s
            /\ scored_count (ss m')
               = recognized (scored_ids (scores s)) (realign_order e s)
            /\ img_idx (ss m')
               = cursor_of (scored_ids (scores s)) (realign_order e s).
Proof.
  cbv zeta. unfold scoring_page.
  match goal with
  | |- context [_realign_img_idx_to_scores e (set_ss m ?s)] => set (s3 := s)
  end.
  pose proof (realign_effect e (set_ss m s3)) as H. cbv zeta in H.
  destruct H as (Hc & Hn & Hs & Ho & _).
  change (ss (set_ss m s3)) with s3 in *.
  set (m1 := _realign_img_idx_to_scores e (set_ss m s3)) in *.
  assert (Hord : realign_order e s3 = image_order s3).
  { unfold realign_order.
    destruct (image_order s3) as [|p l] eqn:E; [|reflexivity].
    revert E. unfold s3. clear.
    destruct (negb (bool_decide (last_author (ss m) = Some author)));
      cbn [image_order];
      repeat match goal with
             | |- context [match ?x with _ => _ end] => destruct x eqn:?; cbn [image_order]
             end; congruence. }
  exists s3.
  destruct (img_idx (ss m1) <? length (image_order s3)).
  - cbn [snd]. auto.
  - destruct (fs (df_to_csv e _ (scores (ss _)) _) !! _);
      destruct (get_secret e "RECIPIENT_EMAIL" None); cbn [snd];
      unfold send_email_with_attachment, emit, df_to_csv; cbn [ss]; auto.
Qed.

(** After the realigner the cursor is at most the scored count, and the
    scored count at most the number of pairs, so the progress bar never
    passes its end; the same holds of the state a run of the scoring page
    leaves.  With distinct subject ids in the order, the scored count is at
    most the number of rows. *)
Theorem progress_within_bounds (e : env) :
  (forall m : machine,
     let order := realign_order e (ss m) in
     let m' := _realign_img_idx_to_scores e m in
     img_idx (ss m') <= scored_count (ss m')
     /\ scored_count (ss m') <= length order
     /\ (List.NoDup (map sid order) ->
         scored_count (ss m') <= length (scores (ss m))))
  /\ (forall (ts author : string) (m : machine),
        let m' := snd (scoring_page e ts author m) in
        img_idx (ss m') <= scored_count (ss m')
        /\ scored_count (ss m') <= length (image_order (ss m'))).
Proof.
  split.
  - intros m order m'.
    pose proof (realign_effect e m) as H. cbv zeta in H.
    destruct H as (Hc & Hn & _). fold m' in Hc, Hn. rewrite Hc, Hn.
    split; [apply cursor_le_recognized|].
    split; [apply recognized_le_length|].
    intros N. etransitivity; [apply recognized_le_ids; exact N|].
    apply scored_ids_length.
  - intros ts author m m'.
    destruct (scoring_page_order e ts author m) as (s & Ho & Hr & Hn & Hc).
    fold m' in Ho, Hn, Hc. rewrite Hc, Hn, Ho, <- Hr.
    split; [apply cursor_le_recognized|apply recognized_le_length].
Qed.

End RealignerMore.

(** ** Paths of the cache and of the export *)

Section Paths.
Import PyStr Resolver Session.

Lemma append_cons (c : ascii) (a s : string) :
  (String c a ++ s)%string = String c (a ++ s).
Proof. reflexivity. Qed.

Lemma string_app_inv_head (a x y : string) :
  (a ++ x)%string = (a ++ y)%string -> x = y.
Proof.
  induction a as [|c a IH]; [tauto|].
  rewrite !append_cons. intros H. injection H as H. apply IH. assumption.
Qed.

Lemma string_app_assoc (a b c : string) :
  (a ++ b ++ c)%string = ((a ++ b) ++ c)%string.
Proof.
  induction a as [|x a IH]; [reflexivity|].
  rewrite !append_cons, IH. reflexivity.
Qed.

Lemma list_of_string_app (a b : string) :
  list_ascii_of_string (a ++ b)
  = list_ascii_of_string a ++ list_ascii_of_string b.
Proof.
  induction a as [|c a IH]; [reflexivity|].
  rewrite append_cons. simpl. rewrite IH. reflexivity.
Qed.

Lemma string_app_inv_tail (a b x : string) :
  (a ++ x)%string = (b ++ x)%string -> a = b.
Proof.
  intros H. apply (f_equal list_ascii_of_string) in H.
  rewrite !list_of_string_app in H. apply List.app_inv_tail in H.
  rewrite <- (string_of_list_ascii_of_string a),
          <- (string_of_list_ascii_of_string b), H. reflexivity.
Qed.

Lemma prefix_slash_app (a x : string) :
  x <> "" -> String.prefix "/" x = false ->
  String.prefix "/" (a ++ x) = String.prefix "/" a.
Proof.
  intros Hx Hp. destruct a as [|c a].
  - exact Hp.
  - change (String c a ++ x)%string with (String c (a ++ x)).
    cbn [String.prefix]. destruct (Ascii.ascii_dec "/" c); [|reflexivity].
    destruct (a ++ x)%string, a; reflexivity.
Qed.

(** Joining a directory and a relative name puts a prefix, that depends on
    the directory only, before the name. *)
Lemma path_join_relative (d b : string) :
  String.prefix "/" b = false ->
  path_join d b
  = ((if String.eqb d "" || endswith d "/" then d else d ++ "/") ++ b)%string.
Proof.
  intros H. unfold path_join. rewrite H.
  destruct (String.eqb d "" || endswith d "/"); [reflexivity|].
  apply string_app_assoc.
Qed.

Lemma path_join_absolute (d b : string) :
  String.prefix "/" b = true -> path_join d b = b.
Proof. intros H. unfold path_join. rewrite H. reflexivity. Qed.

(** The export of an author never has the path of that author's cache. *)
Lemma export_is_not_cache (e : env) (author ts : string) :
  export_path e author ts <> get_cache_path e author.
Proof.
  unfold export_path, get_cache_path.
  assert (Hp1 : String.prefix "/" (author ++ "_subject_scores_" ++ ts ++ ".csv")
                = String.prefix "/" author).
  { apply prefix_slash_app; [discriminate|reflexivity]. }
  assert (Hp2 : String.prefix "/" (author ++ "_scores_tmp.csv")
                = String.prefix "/" author).
  { apply prefix_slash_app; [discriminate|reflexivity]. }
  destruct (String.prefix "/" author) eqn:E.
  - rewrite !path_join_absolute by assumption.
    intros H. apply string_app_inv_head in H. discriminate.
  - rewrite !path_join_relative by assumption.
    intros H. apply string_app_inv_head, string_app_inv_head in H.
    discriminate.
Qed.

(** An author name that starts with a slash takes its cache out of the
    output directory: the path is the name followed by the suffix, whatever
    the directory of temporary files.  For any other name the cache is
    the file of that name in the output directory, and two such names
    never share a cache. *)
Theorem cache_path_of_author (e : env) :
  (forall author, String.prefix "/" author = true ->
     get_cache_path e author = (author ++ "_scores_tmp.csv")%string)
  /\ (forall author, String.prefix "/" author = false ->
        get_cache_path e author
        = (get_output_dir e ++ "/" ++ author ++ "_scores_tmp.csv")%string)
  /\ (forall a b, String.prefix "/" a = false -> String.prefix "/" b = false ->
        get_cache_path e a = get_cache_path e b -> a = b).
Proof.
  assert (Hrel : forall author, String.prefix "/" author = false ->
            get_cache_path e author
            = (get_output_dir e ++ "/" ++ author ++ "_scores_tmp.csv")%string).
  { intros author H. unfold get_cache_path.
    rewrite path_join_relative
      by (rewrite prefix_slash_app; [assumption|discriminate|reflexivity]).
    assert (Hd : String.eqb (get_output_dir e) "" || endswith (get_output_dir e) "/"
                 = false).
    { unfold get_output_dir.
      rewrite path_join_relative by reflexivity.
      match goal with
      | |- context [(?q ++ "gScorer-output")%string] => generalize q; intros p
      end.
      apply orb_false_intro.
      - destruct p; reflexivity.
      - induction p as [|c p IH]; [reflexivity|].
        rewrite append_cons. cbn [endswith]. rewrite IH.
        destruct (String.eqb_spec (String c (p ++ "gScorer-output")) "/")
          as [H'|]; [|reflexivity].
        exfalso. injection H' as _ H'. destruct p; discriminate. }
    rewrite Hd. symmetry. apply string_app_assoc. }
  split; [|split].
  - intros author H. unfold get_cache_path. apply path_join_absolute.
    rewrite prefix_slash_app; [assumption|discriminate|reflexivity].
  - exact Hrel.
  - intros a b Ha Hb H. rewrite (Hrel a Ha), (Hrel b Hb) in H.
    apply string_app_inv_head, string_app_inv_head in H.
    eapply string_app_inv_tail. exact H.
Qed.

End Paths.

(** ** What a submission and a run of the scoring page do, in full *)

Section RunEffects.
Import PyStr Resolver Session.

(** The warning the realigner emits for [order] and [rows], if any. *)
Lemma realign_log (e : env) (m : machine) :
  exists warn,
    log (_realign_img_idx_to_scores e m) = log m ++ warn
    /\ emails warn = [] /\ csv_writes warn = []
    /\ List.filter (fun x => negb (is_warning x)) warn = [].
Proof.
  pose proof (realign_effect e m) as H. cbv zeta in H.
  destruct H as (_ & _ & _ & _ & _ & _ & _ & _ & Hl).
  eexists. split; [exact Hl|].
  destruct (_ && _); repeat split; reflexivity.
Qed.

Lemma handle_score_full (e : env) (ts : string) (v : Z)
    (s rf ff : string) (total : nat) (author : string) (m : machine) :
  let rows := scores (ss m) ++ [score_row s rf ff v ts] in
  let order := realign_order e (ss m) in
  let c := cursor_of (scored_ids rows) order in
  let cache := get_cache_path e author in
  let out := handle_score e ts v s rf ff total author m in
  img_idx (ss (snd out)) = c
  /\ scored_count (ss (snd out)) = recognized (scored_ids rows) order
  /\ scores (ss (snd out)) = rows
  /\ image_order (ss (snd out)) = image_order (ss m)
  /\ last_author (ss (snd out)) = last_author (ss m)
  /\ fs (snd out) = <[cache := to_csv e rows]> (fs m)
  /\ exists warn,
       emails warn = [] /\ csv_writes warn = []
       /\ log (snd out)
          = log m ++ warn ++ [ToCsv cache rows]
            ++ (if c mod 20 =? 0
                then match get_secret e "RECIPIENT_EMAIL" None with
                     | Ok r => [progress_mail e author c total r]
                     | Raise _ => []
                     end
                else []).
Proof.
  cbv zeta. unfold handle_score.
  match goal with
  | |- context [_realign_img_idx_to_scores e ?m1] =>
      pose proof (realign_effect e m1) as H; cbv zeta in H;
      destruct (realign_log e m1) as (warn & Hw & Hwe & Hwc & _);
      set (m2 := _realign_img_idx_to_scores e m1) in *
  end.
  cbn [ss fs log set_ss scores image_order _warned_score_mismatch
       last_author] in H, Hw.
  destruct H as (Hc & Hn & Hs & Ho & Hla & _ & _ & Hf & _).
  change (realign_order e _) with (realign_order e (ss m)) in Hc, Hn.
  unfold df_to_csv, send_email_with_attachment, emit.
  cbn [ss fs log]. rewrite Hc, Hs, Hf, Hw.
  set (c := cursor_of _ _).
  destruct (c mod 20 =? 0).
  - destruct (get_secret e "RECIPIENT_EMAIL" None) as [r|x];
      cbn [fst snd ss fs log]; repeat split; try assumption;
      exists warn; repeat split; try assumption;
      rewrite <- ?List.app_assoc; reflexivity.
  - cbn [fst snd ss fs log]. repeat split; try assumption.
    exists warn. repeat split; try assumption.
    rewrite <- ?List.app_assoc. reflexivity.
Qed.

(** One run of the scoring page.  The rows and the order it works on are
    those of the session, or no row and the resolver's order when the
    author is not the one of the last run. *)
Lemma scoring_page_effect (e : env) (ts author : string) (m : machine) :
  let same := bool_decide (last_author (ss m) = Some author) in
  let rows := if same then scores (ss m) else [] in
  let order := if same then realign_order e (ss m)
               else get_subject_pairs (res e) false in
  let c := cursor_of (scored_ids rows) order in
  let export := export_path e author ts in
  let cache := get_cache_path e author in
  let out := scoring_page e ts author m in
  scores (ss (snd out)) = rows
  /\ image_order (ss (snd out)) = order
  /\ last_author (ss (snd out)) = Some author
  /\ img_idx (ss (snd out)) = c
  /\ exists warn,
       emails warn = [] /\ csv_writes warn = []
       /\ List.filter (fun x => negb (is_warning x)) warn = []
       /\ (c < length order ->
           fst out = Ok tt /\ fs (snd out) = fs m
           /\ log (snd out) = log m ++ warn)
       /\ (length order <= c ->
           fs (snd out) = delete cache (<[export := to_csv e rows]> (fs m))
           /\ fst out = match get_secret e "RECIPIENT_EMAIL" None with
                        | Ok _ => Ok tt
                        | Raise x => Raise x
                        end
           /\ log (snd out)
              = log m ++ warn
                ++ [StSuccess "All subject pairs scored!"; ToCsv export rows]
                ++ match fs m !! cache with
                   | Some _ => [OsRemove cache]
                   | None => []
                   end
                ++ match get_secret e "RECIPIENT_EMAIL" None with
                   | Ok r => [final_mail e author ts r]
                   | Raise _ => []
                   end).
Proof.
  cbv zeta. unfold scoring_page.
  set (same := bool_decide (last_author (ss m) = Some author)).
  set (rows := if same then scores (ss m) else []).
  set (order := if same then realign_order e (ss m)
                else get_subject_pairs (res e) false).
  match goal with
  | |- context [_realign_img_idx_to_scores e (set_ss m ?s)] =>
      assert (Hs3 : scores s = rows /\ image_order s = order
                    /\ last_author s = Some author
                    /\ _warned_score_mismatch s = _warned_score_mismatch (ss m)
                    /\ realign_order e s = order);
      [|set (s3 := s) in *]
  end.
  { unfold rows, order, realign_order.
    destruct same eqn:Es; cbn [negb].
    - apply bool_decide_eq_true_1 in Es.
      destruct (image_order (ss m)) as [|p l] eqn:Eo; cbn [image_order].
      + destruct (get_subject_pairs (res e) false) as [|q l'] eqn:Eg;
          destruct (_ && _ && _); cbn; rewrite ?Es, ?Eg; auto.
      + rewrite Eo. destruct (_ && _ && _); cbn; rewrite ?Es, ?Eo; auto.
    - cbn [image_order].
      destruct (get_subject_pairs (res e) false) as [|p l] eqn:Eg;
        cbn [image_order]; rewrite ?Eg;
        destruct (_ && _ && _); cbn; rewrite ?Eg; auto. }
  destruct Hs3 as (Hs3 & Ho3 & Hl3 & Hw3 & Hr3).
  pose proof (realign_effect e (set_ss m s3)) as H. cbv zeta in H.
  destruct (realign_log e (set_ss m s3)) as (warn & Hw & Hwe & Hwc & Hww).
  cbn [ss set_ss fs log] in H, Hw.
  set (m2 := _realign_img_idx_to_scores e (set_ss m s3)) in *.
  destruct H as (Hc & _ & Hsc & Hio & Hlast & _ & _ & Hfs & _).
  rewrite Hr3, Hs3 in Hc. rewrite Hs3 in Hsc. rewrite Ho3 in Hio.
  rewrite Hl3 in Hlast. rewrite Ho3, Hc.
  set (c := cursor_of (scored_ids rows) order) in *.
  assert (Hcache : <[export_path e author ts := to_csv e rows]> (fs m)
                   !! get_cache_path e author
                   = fs m !! get_cache_path e author).
  { apply lookup_insert_ne. apply export_is_not_cache. }
  destruct (Nat.ltb_spec c (length order)) as [Hlt|Hge].
  - cbn [fst snd]. repeat split; try assumption.
    exists warn. repeat split; try assumption; lia.
  - unfold send_email_with_attachment, df_to_csv, emit. cbn [ss fs log].
    fold (export_path e author ts). rewrite Hsc, Hfs, Hcache, Hw.
    destruct (fs m !! get_cache_path e author) eqn:Ec;
      destruct (get_secret e "RECIPIENT_EMAIL" None) as [r|x];
      cbn [fst snd ss fs log]; repeat split; try assumption;
      exists warn; repeat split; try assumption; try lia;
      try (rewrite delete_id by assumption);
      unfold final_mail; rewrite <- ?List.app_assoc; cbn [app];
      rewrite ?app_nil_r; reflexivity.
Qed.

End RunEffects.

(** ** Submissions: the cursor, the rows and the cache *)

Section SubmissionsMore.
Import PyStr Resolver Session.

Lemma cursor_of_mono (ids1 ids2 : list pyval) (order : list pair) :
  (forall p, In p order -> in_ids (sid p) ids1 = true ->
             in_ids (sid p) ids2 = true) ->
  cursor_of ids1 order <= cursor_of ids2 order.
Proof.
  induction order as [|p order IH]; intros H; [reflexivity|].
  rewrite !cursor_of_cons.
  destruct (in_ids (sid p) ids1) eqn:E1; [|lia].
  rewrite (H p (or_introl eq_refl) E1).
  apply le_n_S, IH. intros q Hq. apply H. right. assumption.
Qed.

Lemma recognized_mono (ids1 ids2 : list pyval) (order : list pair) :
  (forall p, In p order -> in_ids (sid p) ids1 = true ->
             in_ids (sid p) ids2 = true) ->
  recognized ids1 order <= recognized ids2 order.
Proof.
  induction order as [|p order IH]; intros H; [reflexivity|].
  rewrite !recognized_cons.
  assert (IH' := IH (fun q Hq => H q (or_intror Hq))).
  destruct (in_ids (sid p) ids1) eqn:E1.
  - rewrite (H p (or_introl eq_refl) E1). lia.
  - destruct (in_ids (sid p) ids2); lia.
Qed.

Lemma recognized_ext (ids1 ids2 : list pyval) (order : list pair) :
  (forall p, In p order -> in_ids (sid p) ids1 = in_ids (sid p) ids2) ->
  recognized ids1 order = recognized ids2 order.
Proof.
  intros H. apply Nat.le_antisymm; apply recognized_mono; intros p Hp;
    rewrite (H p Hp); tauto.
Qed.

(** Scoring the pair at the cursor moves the cursor on. *)
Lemma cursor_of_extend (ids1 ids2 : list pyval) (order : list pair) (p : pair) :
  (forall q, In q order -> in_ids (sid q) ids1 = true ->
             in_ids (sid q) ids2 = true) ->
  nth_error order (cursor_of ids1 order) = Some p ->
  in_ids (sid p) ids2 = true ->
  S (cursor_of ids1 order) <= cursor_of ids2 order.
Proof.
  intros Hsub Hp Hin.
  pose proof (cursor_of_mono ids1 ids2 order Hsub) as Hle.
  destruct (Nat.eq_dec (cursor_of ids1 order) (cursor_of ids2 order)) as [E|];
    [|lia].
  rewrite E in Hp. apply cursor_of_at in Hp. congruence.
Qed.

(** A submission never moves the cursor back and never lowers the scored
    count: it adds one row and leaves the earlier rows as they were. *)
Theorem submission_never_moves_back (e : env) (ts : string) (v : Z)
    (s rf ff : string) (total : nat) (author : string) (m0 : machine) :
  let m := _realign_img_idx_to_scores e m0 in
  let out := handle_score e ts v s rf ff total author m in
  img_idx (ss m) <= img_idx (ss (snd out))
  /\ scored_count (ss m) <= scored_count (ss (snd out))
  /\ scores (ss (snd out)) = scores (ss m0) ++ [score_row s rf ff v ts].
Proof.
  intros m out.
  pose proof (realign_effect e m0) as H0. cbv zeta in H0.
  destruct H0 as (Hc0 & Hn0 & Hs0 & Ho0 & _). fold m in Hc0, Hn0, Hs0, Ho0.
  pose proof (handle_score_full e ts v s rf ff total author m) as H.
  cbv zeta in H. fold out in H.
  destruct H as (Hc & Hn & Hs & _).
  assert (Hord : realign_order e (ss m) = realign_order e (ss m0)).
  { unfold realign_order. rewrite Ho0. reflexivity. }
  rewrite Hc, Hn, Hs, Hc0, Hn0, Hs0, Hord.
  assert (Hsub : forall p, In p (realign_order e (ss m0)) ->
            in_ids (sid p) (scored_ids (scores (ss m0))) = true ->
            in_ids (sid p)
              (scored_ids (scores (ss m0) ++ [score_row s rf ff v ts])) = true).
  { intros p _ Hp. rewrite scored_ids_app, in_ids_app, Hp. reflexivity. }
  split; [apply cursor_of_mono; exact Hsub|].
  split; [apply recognized_mono; exact Hsub|reflexivity].
Qed.

(** The realigner reads the rows through one question only: which
    subjects of the order have a record.  The order of the rows, repeated
    rows and rows of other subjects do not matter. *)
Theorem realigner_reads_which_subjects_have_a_record (e : env)
    (m1 m2 : machine) :
  realign_order e (ss m1) = realign_order e (ss m2) ->
  (forall p, In p (realign_order e (ss m1)) ->
     has_record (scores (ss m1)) (sid p) = has_record (scores (ss m2)) (sid p)) ->
  img_idx (ss (_realign_img_idx_to_scores e m1))
  = img_idx (ss (_realign_img_idx_to_scores e m2))
  /\ scored_count (ss (_realign_img_idx_to_scores e m1))
     = scored_count (ss (_realign_img_idx_to_scores e m2)).
Proof.
  intros Ho Hr.
  pose proof (realign_effect e m1) as H1. cbv zeta in H1.
  pose proof (realign_effect e m2) as H2. cbv zeta in H2.
  destruct H1 as (Hc1 & Hn1 & _), H2 as (Hc2 & Hn2 & _).
  rewrite Hc1, Hn1, Hc2, Hn2, <- Ho.
  assert (Hext : forall p, In p (realign_order e (ss m1)) ->
            in_ids (sid p) (scored_ids (scores (ss m1)))
            = in_ids (sid p) (scored_ids (scores (ss m2)))).
  { intros p Hp. rewrite !in_ids_scored_ids, (Hr p Hp). reflexivity. }
  split; [apply cursor_of_ext|apply recognized_ext]; exact Hext.
Qed.

Lemma realigner_reads_which_subjects_have_a_record_witness :
  let e := demo_env (demo_world []) in
  let order := firstn 3 demo_order20 in
  let r1 := score_row "S1" "a" "b" 1 "t1" in
  let r2 := score_row "S2" "a" "b" 2 "t2" in
  let r9 := score_row "S9" "a" "b" 3 "t3" in
  img_idx (ss (_realign_img_idx_to_scores e (session_with order [r1; r2])))
  = img_idx (ss (_realign_img_idx_to_scores e
                   (session_with order [r2; r9; r1; r2])))
  /\ scored_count (ss (_realign_img_idx_to_scores e
                         (session_with order [r1; r2])))
     = scored_count (ss (_realign_img_idx_to_scores e
                           (session_with order [r2; r9; r1; r2]))).
Proof.
  cbv zeta.
  apply realigner_reads_which_subjects_have_a_record; [reflexivity|].
  intros p Hp. vm_compute in Hp.
  destruct Hp as [<-|[<-|[<-|[]]]]; reflexivity.
Defined.

(** What [clicks] keeps true, and how far it gets. *)
Lemma clicks_progress (e : env) (author : string) (order : list pair)
    (inputs : list (string * Z)) (m : machine) :
  (forall p, In p order -> sid p <> "") ->
  image_order (ss m) = order ->
  img_idx (ss m) = cursor_of (scored_ids (scores (ss m))) order ->
  length (scores (ss m)) <= img_idx (ss m) ->
  let m' := clicks e author inputs m in
  image_order (ss m') = order
  /\ img_idx (ss m') = cursor_of (scored_ids (scores (ss m'))) order
  /\ length (scores (ss m')) <= img_idx (ss m')
  /\ Nat.min (length order) (img_idx (ss m) + length inputs)
     <= img_idx (ss m').
Proof.
  intros Hne. revert m.
  induction inputs as [|[ts v] inputs IH]; intros m Ho Hc Hl; cbv zeta.
  - simpl. repeat split; try assumption. lia.
  - unfold clicks. cbn [fold_left fst snd].
    fold (clicks e author inputs
            (snd (click_score e ts author v m))).
    set (m1 := snd (click_score e ts author v m)).
    assert (H1 : image_order (ss m1) = order
                 /\ img_idx (ss m1)
                    = cursor_of (scored_ids (scores (ss m1))) order
                 /\ length (scores (ss m1)) <= img_idx (ss m1)
                 /\ Nat.min (length order) (S (img_idx (ss m)))
                    <= img_idx (ss m1)).
    { unfold m1, click_score. rewrite Ho.
      destruct (nth_error order (img_idx (ss m))) as [[[s rf] ff]|] eqn:En.
      - pose proof (handle_score_full e ts v s rf ff (length order) author m)
          as H. cbv zeta in H.
        destruct H as (Hc' & _ & Hs' & Ho' & _).
        assert (Hord : realign_order e (ss m) = order).
        { unfold realign_order. rewrite Ho.
          destruct order; [destruct (img_idx (ss m)); discriminate|reflexivity]. }
        rewrite Hord in Hc'. rewrite Ho', Hc', Hs', Ho.
        assert (Hstep : S (img_idx (ss m))
                        <= cursor_of
                             (scored_ids (scores (ss m) ++ [score_row s rf ff v ts]))
                             order).
        { rewrite Hc. apply (cursor_of_extend _ _ _ (s, rf, ff)).
          - intros q _ Hq. rewrite scored_ids_app, in_ids_app, Hq. reflexivity.
          - rewrite <- Hc. exact En.
          - rewrite scored_ids_app, in_ids_app, scored_ids_score_row.
            assert (Hs : s <> "").
            { apply (Hne (s, rf, ff)). eapply nth_error_In. exact En. }
            destruct (String.eqb_spec s ""); [contradiction|].
            unfold sid. simpl. rewrite String.eqb_refl. apply orb_true_r. }
        rewrite List.length_app. cbn [length].
        repeat split; try reflexivity; lia.
      - apply nth_error_None in En. cbn [snd].
        pose proof (cursor_of_le (scored_ids (scores (ss m))) order).
        repeat split; try assumption. lia. }
    destruct H1 as (Ho1 & Hc1 & Hl1 & Hm1).
    destruct (IH m1 Ho1 Hc1 Hl1) as (Ho2 & Hc2 & Hl2 & Hm2).
    repeat split; try assumption. cbn [length]. lia.
Qed.

(** Scoring ends: when no subject id is empty, as many clicks as there are
    pairs take the cursor to the end, repeated subject ids or not; by then
    every pair has a record, and there are no more rows than pairs. *)
Theorem scoring_ends_within_one_click_per_pair (e : env) (author : string)
    (order : list pair) (inputs : list (string * Z)) :
  (forall p, In p order -> sid p <> "") ->
  length order <= length inputs ->
  let m' := clicks e author inputs (session_with order []) in
  img_idx (ss m') = length order
  /\ length (scores (ss m')) <= length order
  /\ forall p, In p order -> has_record (scores (ss m')) (sid p) = true.
Proof.
  intros Hne Hlen m'.
  destruct (clicks_progress e author order inputs (session_with order []) Hne)
    as (Ho & Hc & Hl & Hm).
  - reflexivity.
  - cbn. destruct order; reflexivity.
  - cbn. lia.
  - fold m' in Ho, Hc, Hl, Hm. cbn [session_with ss img_idx] in Hm.
    pose proof (cursor_of_le (scored_ids (scores (ss m'))) order) as Hle.
    assert (Hend : img_idx (ss m') = length order) by lia.
    split; [exact Hend|]. split; [lia|].
    intros p Hp. apply In_nth_error in Hp. destruct Hp as (i & Hi).
    assert (Hlt : i < cursor_of (scored_ids (scores (ss m'))) order).
    { rewrite <- Hc, Hend. apply nth_error_Some. congruence. }
    pose proof (cursor_of_before _ _ _ _ Hlt Hi) as Hin.
    rewrite in_ids_scored_ids in Hin. apply andb_true_iff in Hin. apply Hin.
Qed.

Lemma scoring_ends_within_one_click_per_pair_witness :
  let e := demo_env (demo_world []) in
  let order := [("S1", "S1_a.png", "S1_b.png"); ("S2", "S2_a.png", "S2_b.png");
                ("S1", "S1_c.png", "S1_d.png")] in
  let m' := clicks e "FI" [("t1", 3%Z); ("t2", 4%Z); ("t3", 5%Z)]
              (session_with order []) in
  img_idx (ss m') = 3 /\ length (scores (ss m')) <= 3
  /\ forall p, In p order -> has_record (scores (ss m')) (sid p) = true.
Proof.
  cbv zeta.
  apply (scoring_ends_within_one_click_per_pair (demo_env (demo_world [])) "FI"
           [("S1", "S1_a.png", "S1_b.png"); ("S2", "S2_a.png", "S2_b.png");
            ("S1", "S1_c.png", "S1_d.png")]
           [("t1", 3%Z); ("t2", 4%Z); ("t3", 5%Z)]).
  - intros p [<-|[<-|[<-|[]]]]; discriminate.
  - simpl. lia.
Defined.


End SubmissionsMore.

(** ** The scoring page: what a run writes *)

Section PageFiles.
Import PyStr Resolver Session.




(** A run that leaves the cursor at the end of the order writes the export
    with the rows of the session and leaves no cache behind, whether the
    mail can be sent or not: the cache of the author is absent, loading it
    gives nothing, and every other file is as it was. *)
Theorem completed_page_leaves_export_and_no_cache (e : env)
    (ts author : string) (m : machine) :
  let out := scoring_page e ts author m in
  length (image_order (ss (snd out))) <= img_idx (ss (snd out)) ->
  fs (snd out) !! export_path e author ts
  = Some (to_csv e (scores (ss (snd out))))
  /\ fs (snd out) !! get_cache_path e author = None
  /\ load_session_cache e (fs (snd out)) author = Ok None
  /\ (forall path, path <> export_path e author ts ->
        path <> get_cache_path e author ->
        fs (snd out) !! path = fs m !! path).
Proof.
  intros out Hge.
  pose proof (scoring_page_effect e ts author m) as H. cbv zeta in H.
  fold out in H.
  destruct H as (Hs & Ho & _ & Hc & warn & _ & _ & _ & _ & Hend).
  rewrite Ho, Hc in Hge. destruct (Hend Hge) as (Hf & _).
  rewrite Hf, Hs.
  assert (Hne := export_is_not_cache e author ts).
  assert (Hnone : delete (get_cache_path e author)
                    (<[export_path e author ts := to_csv e
                         (if bool_decide (last_author (ss m) = Some author)
                          then scores (ss m) else [])]> (fs m))
                  !! get_cache_path e author = None)
    by apply lookup_delete_eq.
  split; [|split; [|split]].
  - rewrite lookup_delete_ne by congruence. apply lookup_insert_eq.
  - exact Hnone.
  - unfold load_session_cache. rewrite Hnone. reflexivity.
  - intros path H1 H2. rewrite lookup_delete_ne by congruence.
    apply lookup_insert_ne. congruence.
Qed.

Lemma completed_page_leaves_export_and_no_cache_witness :
  let e := demo_env (demo_world []) in
  let rows := [score_row "S1" "a" "b" 3 "t"] in
  let m := {| ss := {| scores := rows; img_idx := 1;
                       image_order := firstn 1 demo_order20;
                       scored_count := 1; _warned_score_mismatch := false;
                       last_author := Some "FI";
                       imported_external := true |};
              fs := {[get_cache_path e "FI" := "csv"]}; log := [] |} in
  let out := scoring_page e "20240201_101500" "FI" m in
  fs (snd out) !! export_path e "FI" "20240201_101500" = Some "csv"
  /\ fs (snd out) !! get_cache_path e "FI" = None.
Proof.
  cbv zeta.
  match goal with
  | |- fs (snd (scoring_page ?e ?ts ?a ?m)) !! _ = _ /\ _ =>
      pose proof (completed_page_leaves_export_and_no_cache e ts a m) as H
  end.
  cbv zeta in H. destruct H as (H1 & H2 & _); [apply Nat.leb_le; vm_compute; reflexivity|].
  split; [exact H1|exact H2].
Defined.



End PageFiles.

(** ** Secrets *)

Section Secrets.
Import PyStr Resolver Session.

(** Where a secret comes from, and when asking for one raises.  Offline
    mode with a dict of secrets that is not empty answers from that dict
    alone and never raises: a key it lacks gives the default, [None] when
    there is none.  Otherwise the deployed secrets answer, then the
    default, and with neither the call raises [KeyError]. *)
Theorem get_secret_sources (e : env) (key : string) (dflt : option string) :
  (forall d, offline_mode e = true -> offline_secrets e = Some d -> d <> ∅ ->
     get_secret e key dflt
     = Ok (match d !! key with Some v => Some v | None => dflt end))
  /\ ((offline_mode e = false \/ offline_secrets e = None
       \/ offline_secrets e = Some ∅) ->
      get_secret e key dflt
      = match st_secrets e !! key, dflt with
        | Some v, _ => Ok (Some v)
        | None, Some v => Ok (Some v)
        | None, None => Raise (KeyError ("Secret '" ++ key ++ "' not found."))
        end)
  /\ ((exists x, get_secret e key dflt = Raise x) ->
      dflt = None /\ st_secrets e !! key = None).
Proof.
  unfold get_secret. split; [|split].
  - intros d Hm Hs Hd. rewrite Hs, Hm.
    rewrite bool_decide_eq_false_2 by assumption. reflexivity.
  - intros H.
    assert (Hoff : match offline_secrets e with
                   | Some d => if offline_mode e && negb (bool_decide (d = ∅))
                               then Some d else None
                   | None => None
                   end = None).
    { destruct H as [H|[H|H]]; rewrite H.
      - destruct (offline_secrets e); reflexivity.
      - reflexivity.
      - rewrite bool_decide_eq_true_2 by reflexivity.
        rewrite andb_false_r. reflexivity. }
    rewrite Hoff. destruct (st_secrets e !! key), dflt; reflexivity.
  - intros (x & H).
    destruct (match offline_secrets e with
              | Some d => if offline_mode e && negb (bool_decide (d = ∅))
                          then Some d else None
              | None => None
              end); [discriminate|].
    destruct (st_secrets e !! key); [discriminate|].
    destruct dflt; [discriminate|]. split; reflexivity.
Qed.

End Secrets.

(** ** Offline secrets: what the loader keeps of the file *)

Section OfflineSecrets.
Import PyStr Offline.

Lemma last_binding_app (k : string) (a b : list (string * toml)) :
  last_binding k (a ++ b)
  = match last_binding k b with
    | Some v => Some v
    | None => last_binding k a
    end.
Proof.
  induction a as [|[k' v] a IH]; simpl.
  - destruct (last_binding k b); reflexivity.
  - rewrite IH. destruct (last_binding k b); reflexivity.
Qed.

Lemma last_binding_None (k : string) (l : list (string * toml)) :
  last_binding k l = None <-> ~ In k (map fst l).
Proof.
  induction l as [|[k' v] l IH]; simpl; [tauto|].
  destruct (last_binding k l) as [v'|].
  - split; [discriminate|]. intros H. exfalso. apply H. right.
    apply Decidable.not_not; [|intros Hn; apply IH in Hn; discriminate].
    destruct (List.in_dec string_dec k (map fst l)); [left|right]; assumption.
  - destruct (String.eqb_spec k k') as [->|Hne].
    + split; [discriminate|]. intros H. exfalso. apply H. left. reflexivity.
    + split; [|reflexivity]. intros _ [H|H]; [congruence|].
      apply (proj1 IH eq_refl H).
Qed.

Lemma last_binding_In (k : string) (v : toml) (l : list (string * toml)) :
  last_binding k l = Some v -> In (k, v) l.
Proof.
  induction l as [|[k' v'] l IH]; simpl; [discriminate|].
  destruct (last_binding k l) as [w|].
  - intros [= ->]. right. apply IH. reflexivity.
  - destruct (String.eqb_spec k k') as [->|]; [|discriminate].
    intros [= ->]. left. reflexivity.
Qed.

Lemma last_binding_nodup (k : string) (v : toml) (l : list (string * toml)) :
  List.NoDup (map fst l) -> In (k, v) l -> last_binding k l = Some v.
Proof.
  induction l as [|[k' v'] l IH]; simpl; [tauto|].
  intros N H. inversion N as [|? ? Hn N']; subst.
  destruct H as [[= -> ->]|H].
  - rewrite (proj2 (last_binding_None k l) Hn), String.eqb_refl. reflexivity.
  - rewrite (IH N' H). reflexivity.
Qed.

Lemma flatten_table_lookup (items : list (string * toml))
    (flat : gmap string toml) (k : string) :
  flatten_table items flat !! k
  = match last_binding k items with
    | Some v => Some v
    | None => flat !! k
    end.
Proof.
  unfold flatten_table. revert flat.
  induction items as [|[k' v] items IH]; intros flat; [reflexivity|].
  cbn [fold_left fst snd last_binding]. rewrite IH.
  destruct (last_binding k items); [reflexivity|].
  destruct (String.eqb_spec k k') as [->|Hne].
  - apply lookup_insert_eq.
  - apply lookup_insert_ne. congruence.
Qed.

Lemma flatten_entry_lookup (flat : gmap string toml) (kv : string * toml)
    (k : string) :
  flatten_entry flat kv !! k
  = match last_binding k (bindings [kv]) with
    | Some v => Some v
    | None => flat !! k
    end.
Proof.
  unfold flatten_entry, bindings. cbn [flat_map]. rewrite app_nil_r.
  destruct kv as [k' v]. cbn [fst snd].
  destruct v as [s|z|b|items]; try apply flatten_table_lookup;
    cbn [last_binding];
    (destruct (String.eqb_spec k k') as [->|Hne];
     [apply lookup_insert_eq|apply lookup_insert_ne; congruence]).
Qed.

Lemma flatten_lookup_acc (data : list (string * toml))
    (flat : gmap string toml) (k : string) :
  fold_left flatten_entry data flat !! k
  = match last_binding k (bindings data) with
    | Some v => Some v
    | None => flat !! k
    end.
Proof.
  revert flat. induction data as [|kv data IH]; intros flat; [reflexivity|].
  cbn [fold_left]. rewrite IH.
  assert (Hb : bindings (kv :: data) = bindings [kv] ++ bindings data).
  { unfold bindings. cbn [flat_map]. rewrite app_nil_r. reflexivity. }
  rewrite Hb, last_binding_app.
  destruct (last_binding k (bindings data)); [reflexivity|].
  apply flatten_entry_lookup.
Qed.

(** The loader flattens one level: a key is bound to the last value written
    for it, where a table writes its items and any other value writes
    itself.  So, when no key is written twice, the secrets are the values
    at the top of the file that are not tables and the items of the tables
    at the top; the name of a table is not a key, and a table inside a
    table stays a table. *)
Theorem flatten_one_level (data : list (string * toml)) (k : string) :
  flatten data !! k = last_binding k (bindings data)
  /\ (List.NoDup (map fst (bindings data)) ->
      forall v, flatten data !! k = Some v <-> In (k, v) (bindings data))
  /\ (~ In k (map fst (bindings data)) -> flatten data !! k = None)
  /\ (forall items, In (k, TTable items) data ->
        forall k' v, In (k', v) items -> In (k', v) (bindings data)).
Proof.
  assert (H : flatten data !! k = last_binding k (bindings data)).
  { unfold flatten. rewrite flatten_lookup_acc.
    destruct (last_binding k (bindings data)); [reflexivity|].
    apply lookup_empty. }
  split; [exact H|]. split; [|split].
  - intros N v. rewrite H. split.
    + apply last_binding_In.
    + apply last_binding_nodup. exact N.
  - intros Hn. rewrite H. apply last_binding_None. exact Hn.
  - intros items Hi k' v Hv. unfold bindings. apply in_flat_map.
    exists (k, TTable items). split; [exact Hi|exact Hv].
Qed.

Lemma has_secrets_flatten (s : state) (d : gmap string toml) :
  has_secrets {| offline_mode := offline_mode s; offline_secrets := Some d |}
  = negb (Nat.eqb (size d) 0).
Proof. reflexivity. Qed.

(** The prompt lets the script go on only when offline mode is off or
    secrets are there, and then does nothing.  Otherwise the run stops
    there or is run again, and it is run again only after a file that
    gives at least one key was loaded, so that the next run goes on; in
    particular a file without a key is reported as loaded and the script
    stays halted. *)
Theorem offline_prompt_halts_until_secrets (read : string -> toml_file)
    (secrets_path : string) (load_clicked : bool) (s : state) :
  let out := offline_prompt read secrets_path load_clicked s in
  let s' := snd (fst out) in
  (fst (fst out) = Pass <-> offline_mode s = false \/ has_secrets s = true)
  /\ (fst (fst out) = Pass -> s' = s /\ snd out = [])
  /\ (fst (fst out) = Rerun ->
      offline_mode s' = true /\ has_secrets s' = true
      /\ (exists data, read secrets_path = Parsed data
                       /\ offline_secrets s' = Some (flatten data))
      /\ forall path clicked,
           offline_prompt read path clicked s' = (Pass, s', []))
  /\ (fst (fst out) = Stop ->
      offline_mode s' = true /\ has_secrets s' = false)
  /\ (forall data,
        offline_mode s = true -> has_secrets s = false ->
        load_clicked = true -> secrets_path <> "" ->
        read secrets_path = Parsed data -> size (flatten data) = 0 ->
        out = (Stop,
               {| offline_mode := true; offline_secrets := Some (flatten data) |},
               [Info prompt; Success "Offline secrets loaded."])).
Proof.
  cbv zeta. unfold offline_prompt.
  destruct (offline_mode s) eqn:Em; cbn [andb].
  2:{ cbn [fst snd]. repeat split; try discriminate; auto. }
  destruct (has_secrets s) eqn:Eh; cbn [negb].
  { cbn [fst snd]. repeat split; try discriminate; auto. }
  destruct load_clicked; cbn [andb].
  2:{ cbn [fst snd]. repeat split; try discriminate; try assumption.
      - intros [H|H]; discriminate. }
  destruct (String.eqb_spec secrets_path "") as [->|Hp]; cbn [negb].
  { cbn [fst snd]. repeat split; try discriminate; try assumption.
    - intros [H|H]; discriminate.
    - intros data _ _ _ H. contradiction. }
  unfold _load_offline_secrets.
  destruct (read secrets_path) as [|msg| |data] eqn:Er; cbn [fst snd];
    rewrite ?Eh; cbn [fst snd];
    try (repeat split; try discriminate; try assumption;
         intros [H|H]; discriminate).
  rewrite has_secrets_flatten.
  destruct (Nat.eqb_spec (size (flatten data)) 0) as [Hz|Hnz]; cbn [negb fst snd].
  - repeat split; try discriminate; try assumption.
    + intros [H|H]; discriminate.
    + unfold has_secrets. cbn. rewrite Hz. reflexivity.
    + intros d _ _ _ _ [= <-] _. rewrite Em. reflexivity.
  - repeat split; try discriminate; try assumption.
    + intros [H|H]; discriminate.
    + unfold has_secrets. cbn. destruct (Nat.eqb_spec (size (flatten data)) 0);
        [contradiction|reflexivity].
    + exists data. split; reflexivity.
    + intros path clicked. cbn [offline_mode]. rewrite Em. cbn [andb].
      unfold has_secrets at 1. cbn [offline_secrets].
      destruct (Nat.eqb_spec (size (flatten data)) 0); [contradiction|].
      reflexivity.
    + intros d _ _ _ _ [= <-] Hz. contradiction.
Qed.

End OfflineSecrets.

(** ** Showing an image: attempts, pauses and the warning *)

Section ShowImage.
Import PyStr Display.

Lemma try_display_fail (read : nat -> option string) (a tries : nat) :
  (forall j, j < tries -> read (a + j) = None) ->
  try_display read a tries = (false, repeat Sleep tries).
Proof.
  revert a. induction tries as [|tries IH]; intros a H; [reflexivity|].
  cbn [try_display]. rewrite <- (Nat.add_0_r a) at 1.
  rewrite (H 0) by lia. rewrite IH; [reflexivity|].
  intros j Hj. replace (S a + j) with (a + S j) by lia. apply H. lia.
Qed.

Lemma try_display_success (read : nat -> option string) (a tries i : nat)
    (data : string) :
  i < tries -> read (a + i) = Some data ->
  (forall j, j < i -> read (a + j) = None) ->
  try_display read a tries = (true, repeat Sleep i ++ [Image data]).
Proof.
  revert a i. induction tries as [|tries IH]; intros a i Hi Hd Hn; [lia|].
  cbn [try_display]. destruct i as [|i].
  - rewrite Nat.add_0_r in Hd. rewrite Hd. reflexivity.
  - rewrite <- (Nat.add_0_r a) at 1. rewrite (Hn 0) by lia.
    rewrite (IH (S a) i); [reflexivity|lia| |].
    + replace (S a + i) with (a + S i) by lia. exact Hd.
    + intros j Hj. replace (S a + j) with (a + S j) by lia. apply Hn. lia.
Qed.

Lemma last_split_app (c : ascii) (a b : string) :
  List.last (split c (a ++ String c b)) "" = List.last (split c b) "".
Proof.
  assert (Hne : forall s, split c s <> []).
  { intros s. destruct s as [|d s]; simpl; [discriminate|].
    destruct (Ascii.eqb d c); [discriminate|].
    destruct (split c s); discriminate. }
  induction a as [|d a IH].
  - change (("" ++ String c b)%string) with (String c b).
    cbn [split]. rewrite Ascii.eqb_refl.
    destruct (split c b) eqn:E; [destruct (Hne b E)|reflexivity].
  - change ((String d a ++ String c b)%string)
      with (String d (a ++ String c b)).
    cbn [split].
    destruct (Ascii.eqb d c).
    + destruct (split c (a ++ String c b)) eqn:E; [destruct (Hne _ E)|].
      exact IH.
    + destruct (split c (a ++ String c b)) as [|h t] eqn:E;
        [destruct (Hne _ E)|].
      rewrite <- IH. destruct t; [|reflexivity].
      (* one segment only: impossible, the separator is in the string *)
      exfalso. clear IH.
      assert (Hlen : forall s, contains c s = true -> 2 <= length (split c s)).
      { clear. induction s as [|x s IHs]; simpl; [discriminate|].
        destruct (Ascii.eqb x c); simpl.
        - intros _. destruct s as [|y s]; simpl; [lia|].
          destruct (Ascii.eqb y c); [simpl; lia|].
          destruct (split c s); simpl; lia.
        - intros H. specialize (IHs H).
          destruct (split c s); simpl in *; lia. }
      assert (Hc : contains c (a ++ String c b) = true).
      { clear. induction a as [|x a IHa].
        - change (("" ++ String c b)%string) with (String c b). simpl.
          rewrite Ascii.eqb_refl. reflexivity.
        - change ((String x a ++ String c b)%string)
            with (String x (a ++ String c b)). simpl.
          rewrite IHa. apply orb_true_r. }
      apply Hlen in Hc. rewrite E in Hc. simpl in Hc. lia.
Qed.

Lemma basename_no_slash (f : string) :
  contains "/" f = false -> basename f = f.
Proof.
  intros H. unfold basename.
  assert (Hs : split "/" f = [f]).
  { induction f as [|d r IH]; [reflexivity|].
    simpl in *. destruct (Ascii.eqb d "/"); [discriminate|].
    simpl in H. rewrite (IH H). reflexivity. }
  rewrite Hs. reflexivity.
Qed.

(** The image is tried once, or three times when retries are allowed, and
    no more: the first attempt that succeeds shows the image and ends the
    call with [True], after one pause for each attempt that failed; when
    every attempt fails the call pauses after each, warns once and returns
    [False].  The warning names the file without its directory. *)
Theorem display_image_attempts (read : nat -> option string)
    (img_path : string) (nonce : nat) (allow_retries : bool) :
  let tries := if allow_retries then 3 else 1 in
  let out := display_image read img_path nonce allow_retries in
  (forall i data,
     i < tries -> read i = Some data -> (forall j, j < i -> read j = None) ->
     out = (true, repeat Sleep i ++ [Image data]))
  /\ ((forall j, j < tries -> read j = None) ->
      out = (false,
             repeat Sleep tries
             ++ [Warning ("Couldn't load image: " ++ basename img_path
                          ++ ". Try reloading.")]))
  /\ (forall d f, contains "/" f = false ->
        basename (path_join d f) = f).
Proof.
  cbv zeta. unfold display_image. split; [|split].
  - intros i data Hi Hd Hn.
    rewrite (try_display_success read 0 _ i data Hi Hd Hn). reflexivity.
  - intros Hn. rewrite (try_display_fail read 0 _ Hn). reflexivity.
  - intros d f Hf. unfold path_join.
    assert (Hp : String.prefix "/" f = false).
    { destruct f as [|c f]; [reflexivity|]. cbn [String.prefix].
      destruct (Ascii.ascii_dec "/" c) as [<-|]; [|reflexivity].
      cbn [contains] in Hf. rewrite Ascii.eqb_refl in Hf. discriminate. }
    rewrite Hp.
    destruct (String.eqb_spec d "") as [->|Hd]; cbn [orb].
    + apply basename_no_slash. exact Hf.
    + destruct (endswith d "/") eqn:Ee.
      * apply endswith_spec in Ee. destruct Ee as (pre & ->).
        unfold basename.
        replace ((pre ++ "/") ++ f)%string with (pre ++ String "/" f)%string.
        -- rewrite last_split_app. apply basename_no_slash. exact Hf.
        -- clear. induction pre as [|c pre IH]; [reflexivity|].
           change ((String c pre ++ String "/" f)%string)
             with (String c (pre ++ String "/" f)).
           rewrite IH. reflexivity.
      * unfold basename.
        change (d ++ "/" ++ f)%string with (d ++ String "/" f)%string.
        rewrite last_split_app. apply basename_no_slash. exact Hf.
Qed.

End ShowImage.

(** ** The author page *)

Section AuthorPage.
Import PyStr Resolver Session App.

Lemma pressed_iff (w : widgets) (b : button) :
  pressed w b = true <-> clicked w = Some b.
Proof. unfold pressed. apply bool_decide_eq_true. Qed.

Lemma pressed_click (b c : button) :
  pressed (click b) c = bool_decide (b = c).
Proof.
  unfold pressed, click. cbn [clicked].
  destruct (decide (b = c)) as [->|Hne].
  - rewrite !bool_decide_eq_true_2; reflexivity.
  - rewrite !bool_decide_eq_false_2; congruence.
Qed.

(** The loop over the six buttons: a click on one of them selects its
    name and hides the field for a custom name; any other run leaves the
    page state as it was. *)
Lemma author_buttons_loop (w : widgets) (p : page_state) :
  fold_left (author_button w) author_buttons p
  = match clicked w with
    | Some (AuthorBtn name) =>
        if mem name author_buttons
        then {| author_name := author_name p; pending_author := name;
                show_custom_author := false |}
        else p
    | _ => p
    end.
Proof.
  assert (Hstep : forall names q,
            (forall name, clicked w <> Some (AuthorBtn name)) ->
            fold_left (author_button w) names q = q).
  { induction names as [|n names IH]; intros q H; [reflexivity|].
    cbn [fold_left]. unfold author_button at 2, pressed.
    rewrite bool_decide_eq_false_2 by apply H. apply IH. exact H. }
  destruct (clicked w) as [[name| | | | |]|] eqn:Ec;
    try (apply Hstep; intros name; congruence).
  assert (Hgen : forall names q,
            fold_left (author_button w) names q
            = if mem name names
              then {| author_name := author_name q; pending_author := name;
                      show_custom_author := false |}
              else q).
  { induction names as [|n names IH]; intros q; [reflexivity|].
    cbn [fold_left]. rewrite IH. unfold author_button, pressed. rewrite Ec.
    unfold mem. cbn [existsb]. fold (mem name names).
    destruct (String.eqb_spec name n) as [->|Hne].
    - rewrite bool_decide_eq_true_2 by reflexivity. cbn [orb].
      destruct (mem n names); reflexivity.
    - rewrite bool_decide_eq_false_2 by congruence. cbn [orb]. reflexivity. }
  apply Hgen.
Qed.

Lemma load_session_cache_total (e : env) (files : gmap string string)
    (author : string) :
  exists r, load_session_cache e files author = Ok r.
Proof.
  unfold load_session_cache.
  destruct (files !! get_cache_path e author); [|eexists; reflexivity].
  destruct (read_csv_records e s); eexists; reflexivity.
Qed.

Lemma lstrip_head (s : string) :
  match lstrip s with
  | EmptyString => True
  | String c _ => is_space c = false
  end.
Proof.
  induction s as [|c r IH]; [exact I|].
  cbn [lstrip]. destruct (is_space c) eqn:E; [exact IH|exact E].
Qed.

Lemma rstrip_idem (s : string) : rstrip (rstrip s) = rstrip s.
Proof.
  induction s as [|c r IH]; [reflexivity|].
  cbn [rstrip]. destruct (rstrip r) as [|d r'] eqn:E.
  - destruct (is_space c) eqn:Ec; [reflexivity|].
    cbn [rstrip]. rewrite Ec. reflexivity.
  - change (rstrip (String c (String d r')))
      with (match rstrip (String d r') with
            | EmptyString =>
                if is_space c then EmptyString else String c EmptyString
            | r'' => String c r''
            end).
    rewrite IH. reflexivity.
Qed.

Lemma strip_idem (s : string) : strip (strip s) = strip s.
Proof.
  unfold strip.
  assert (H : lstrip (rstrip (lstrip s)) = rstrip (lstrip s)).
  { pose proof (lstrip_head s) as Hh.
    destruct (lstrip s) as [|c t]; [reflexivity|].
    cbn [rstrip]. destruct (rstrip t); [rewrite Hh|];
      cbn [lstrip]; rewrite ?Hh; reflexivity. }
  rewrite H. apply rstrip_idem.
Qed.

(** What a run of the author page does, case by case.  [p] is the page
    state once the buttons and the field are read. *)
Lemma author_page_cases (e : env) (w : widgets) (a : app) :
  let out := author_page e w a in
  let m := mach a in
  let p := select_author w (page a) in
    author_name p = author_name (page a)
    /\ (pending_author p = pending_author (page a)
        \/ (In (pending_author p) author_buttons
            /\ clicked w = Some (AuthorBtn (pending_author p)))
        \/ (pending_author p = strip (custom_name w)
            /\ strip (custom_name w) <> "" /\ clicked w = Some ConfirmBtn))
    /\ ((fst out = Stopped /\ snd out = {| page := p; mach := m |}
         /\ (pending_author p = ""
             \/ (load_session_cache e (fs m) (pending_author p) <> Ok None
                 /\ clicked w <> Some (ContinueBtn (pending_author p))
                 /\ clicked w <> Some (StartNewBtn (pending_author p)))
             \/ (load_session_cache e (fs m) (pending_author p) = Ok None
                 /\ clicked w <> Some (StartAsBtn (pending_author p)))))
        \/ (pending_author p <> ""
            /\ fst out = Rerun
            /\ page (snd out)
               = {| author_name := Some (pending_author p);
                    pending_author := pending_author p;
                    show_custom_author := show_custom_author p |}
            /\ ((exists cd,
                   clicked w = Some (ContinueBtn (pending_author p))
                   /\ load_session_cache e (fs m) (pending_author p)
                      = Ok (Some cd)
                   /\ let m1 := _realign_img_idx_to_scores e
                        (set_ss m
                           {| scores := cd_scores cd;
                              img_idx := cd_img_idx cd;
                              image_order := image_order (ss m);
                              scored_count := scored_count (ss m);
                              _warned_score_mismatch :=
                                _warned_score_mismatch (ss m);
                              last_author := last_author (ss m);
                              imported_external :=
                                imported_external (ss m) |}) in
                      mach (snd out)
                      = set_ss m1
                          {| scores := scores (ss m1);
                             img_idx := img_idx (ss m1);
                             image_order := get_subject_pairs (res e) false;
                             scored_count := scored_count (ss m1);
                             _warned_score_mismatch :=
                               _warned_score_mismatch (ss m1);
                             last_author := Some (pending_author p);
                             imported_external :=
                               imported_external (ss m1) |})
                \/ (exists cd,
                      clicked w = Some (StartNewBtn (pending_author p))
                      /\ load_session_cache e (fs m) (pending_author p)
                         = Ok (Some cd)
                      /\ mach (snd out)
                         = start_session e (pending_author p)
                             {| ss := ss m;
                                fs := delete
                                        (get_cache_path e (pending_author p))
                                        (fs m);
                                log := log m
                                       ++ [OsRemove
                                             (get_cache_path e
                                                (pending_author p))] |})
                \/ (clicked w = Some (StartAsBtn (pending_author p))
                    /\ load_session_cache e (fs m) (pending_author p)
                       = Ok None
                    /\ mach (snd out)
                       = start_session e (pending_author p) m)))).
Proof.
  cbv zeta. unfold author_page.
  set (p3 := select_author w (page a)).
  set (p1 := fold_left (author_button w) author_buttons (page a)).
  set (p2 := if pressed w OthersBtn
             then {| author_name := author_name p1;
                     pending_author := pending_author p1;
                     show_custom_author := true |}
             else p1).
  assert (Hp3 : p3 = if show_custom_author p2 && pressed w ConfirmBtn
                        && negb (String.eqb (custom_name w) "")
                        && negb (String.eqb (strip (custom_name w)) "")
                     then {| author_name := author_name p2;
                             pending_author := strip (custom_name w);
                             show_custom_author := show_custom_author p2 |}
                     else p2) by reflexivity.
  assert (H1 : author_name p1 = author_name (page a)
               /\ (pending_author p1 = pending_author (page a)
                   \/ (In (pending_author p1) author_buttons
                       /\ clicked w = Some (AuthorBtn (pending_author p1))))).
  { unfold p1. rewrite author_buttons_loop.
    destruct (clicked w) as [[name| | | | |]|]; auto.
    destruct (mem name author_buttons) eqn:Em; auto.
    split; [reflexivity|]. right. split; [|reflexivity].
    apply mem_In. exact Em. }
  assert (H2 : author_name p2 = author_name p1
               /\ pending_author p2 = pending_author p1).
  { unfold p2. destruct (pressed w OthersBtn); auto. }
  assert (H3 : author_name p3 = author_name p2
               /\ (pending_author p3 = pending_author p2
                   \/ (pending_author p3 = strip (custom_name w)
                       /\ strip (custom_name w) <> ""
                       /\ clicked w = Some ConfirmBtn))).
  { rewrite Hp3. clear Hp3.
    destruct (show_custom_author p2); cbn [andb]; auto.
    destruct (pressed w ConfirmBtn) eqn:Ep; cbn [andb]; auto.
    destruct (String.eqb (custom_name w) ""); cbn [andb negb]; auto.
    destruct (String.eqb_spec (strip (custom_name w)) ""); cbn [negb]; auto.
    split; [reflexivity|]. right. cbn [pending_author].
    repeat split; try assumption. apply pressed_iff. exact Ep. }
  clear Hp3. destruct H1 as (Ha1 & Hp1), H2 as (Ha2 & Hp2), H3 as (Ha3 & Hp3).
  split; [congruence|]. split.
  { destruct Hp3 as [Hp3|Hp3]; [|right; right; exact Hp3].
    rewrite Hp3, Hp2. destruct Hp1 as [Hp1|Hp1]; [left|right; left];
      exact Hp1. }
  destruct (String.eqb_spec (pending_author p3) "") as [He|Hne];
    [left; repeat split; left; exact He|].
  destruct (load_session_cache e (fs (mach a)) (pending_author p3))
    as [[cd|]|x] eqn:El.
  - destruct (pressed w (ContinueBtn (pending_author p3))) eqn:E1.
    { right. cbn [fst snd page mach]. repeat split; try assumption.
      left. exists cd. repeat split. apply pressed_iff. exact E1. }
    destruct (pressed w (StartNewBtn (pending_author p3))) eqn:E2.
    { right. cbn [fst snd page mach]. repeat split; try assumption.
      right. left. exists cd. repeat split. apply pressed_iff. exact E2. }
    left. repeat split. right. left. split; [discriminate|].
    split; intros Hc; apply pressed_iff in Hc; congruence.
  - destruct (pressed w (StartAsBtn (pending_author p3))) eqn:E1.
    { right. cbn [fst snd page mach]. repeat split; try assumption.
      right. right. repeat split. apply pressed_iff. exact E1. }
    left. repeat split. right. right. split; [reflexivity|].
    intros Hc; apply pressed_iff in Hc; congruence.
  - destruct (load_session_cache_total e (fs (mach a)) (pending_author p3))
      as (r & Hr). congruence.
Qed.

(** A click that is not on a button of the first part leaves the page
    state as it was. *)
Lemma select_author_other (w : widgets) (p : page_state) :
  (forall name, clicked w <> Some (AuthorBtn name)) ->
  clicked w <> Some OthersBtn -> clicked w <> Some ConfirmBtn ->
  select_author w p = p.
Proof.
  intros H1 H2 H3. unfold select_author. rewrite author_buttons_loop.
  assert (Hp : match clicked w with
               | Some (AuthorBtn name) =>
                   if mem name author_buttons
                   then {| author_name := author_name p;
                           pending_author := name;
                           show_custom_author := false |}
                   else p
               | _ => p
               end = p).
  { destruct (clicked w) as [[name| | | | |]|]; try reflexivity.
    destruct (H1 name eq_refl). }
  rewrite Hp. unfold pressed.
  rewrite (bool_decide_eq_false_2 _ H2), (bool_decide_eq_false_2 _ H3).
  rewrite andb_false_r. reflexivity.
Qed.

(** A click on one of the six buttons selects its name. *)
Lemma select_author_button (name : string) (p : page_state) :
  In name author_buttons ->
  select_author (click (AuthorBtn name)) p
  = {| author_name := author_name p; pending_author := name;
       show_custom_author := false |}.
Proof.
  intros Hin. unfold select_author. rewrite author_buttons_loop.
  cbn [click clicked]. rewrite (proj2 (mem_In _ _) Hin).
  rewrite !pressed_click.
  rewrite (bool_decide_eq_false_2 (AuthorBtn name = OthersBtn))
    by discriminate.
  reflexivity.
Qed.

End AuthorPage.

Section AuthorPageResults.
Import PyStr Resolver Session App.

Lemma filter_snoc_false {A : Type} (f : A -> bool) (l : list A) (x : A) :
  f x = false -> List.filter f (l ++ [x]) = List.filter f l.
Proof.
  intros H. rewrite List.filter_app. cbn [List.filter]. rewrite H.
  apply app_nil_r.
Qed.

(** A run of the author page ends at [st.stop()] or at [st.rerun()], never
    by an exception.  It writes no CSV and sends no mail, and it leaves
    every file as it was unless the click is on "Start a new session".
    When it stops, the session state of the scores is untouched and no
    author is chosen yet; when the script is run again, an author is
    chosen through one of the three start buttons: the pending name, which
    is not empty, with the resolver's order for the session. *)
Theorem author_page_waits_or_starts (e : env) (w : widgets) (a : app) :
  let out := author_page e w a in
  let m := mach a in
  let m' := mach (snd out) in
  (fst out = Stopped \/ fst out = Rerun)
  /\ csv_writes (log m') = csv_writes (log m)
  /\ emails (log m') = emails (log m)
  /\ ((forall pending, clicked w <> Some (StartNewBtn pending)) ->
      fs m' = fs m)
  /\ (fst out = Stopped ->
      m' = m /\ author_name (page (snd out)) = author_name (page a))
  /\ (fst out = Rerun ->
      exists pending,
        pending <> ""
        /\ author_name (page (snd out)) = Some pending
        /\ pending_author (page (snd out)) = pending
        /\ last_author (ss m') = Some pending
        /\ image_order (ss m') = get_subject_pairs (res e) false
        /\ (clicked w = Some (ContinueBtn pending)
            \/ clicked w = Some (StartNewBtn pending)
            \/ clicked w = Some (StartAsBtn pending))).
Proof.
  cbv zeta.
  pose proof (author_page_cases e w a) as H. cbv zeta in H.
  set (p := select_author w (page a)) in *.
  destruct H as (Ha & _ & H).
  destruct H as [(Hs & Hout & _)|(Hne & Hr & Hp & H)].
  - rewrite Hs, Hout. cbn [page mach].
    repeat split; auto; try discriminate.
  - rewrite Hr.
    destruct H as [(cd & Hc & _ & Hm)|[(cd & Hc & _ & Hm)|(Hc & _ & Hm)]];
      rewrite Hm, Hp; cbn [page mach].
    + pose proof (realign_effect e
                    (set_ss (mach a)
                       {| scores := cd_scores cd; img_idx := cd_img_idx cd;
                          image_order := image_order (ss (mach a));
                          scored_count := scored_count (ss (mach a));
                          _warned_score_mismatch :=
                            _warned_score_mismatch (ss (mach a));
                          last_author := last_author (ss (mach a));
                          imported_external :=
                            imported_external (ss (mach a)) |})) as Hre.
      cbv zeta in Hre. destruct Hre as (_ & _ & _ & _ & _ & _ & _ & Hf & Hl).
      cbn [set_ss ss fs log] in *.
      split; [right; reflexivity|].
      split; [rewrite Hl, csv_writes_app; destruct (_ && _); cbn;
              rewrite ?app_nil_r; reflexivity|].
      split; [rewrite Hl, emails_app; destruct (_ && _); cbn;
              rewrite ?app_nil_r; reflexivity|].
      split; [intros _; exact Hf|].
      split; [discriminate|]. intros _.
      exists (pending_author p). repeat split; auto.
    + unfold start_session, set_ss. cbn [ss fs log].
      split; [right; reflexivity|].
      split; [apply filter_snoc_false; reflexivity|].
      split; [apply filter_snoc_false; reflexivity|].
      split; [intros Hn; destruct (Hn _ Hc)|].
      split; [discriminate|]. intros _.
      exists (pending_author p). repeat split; auto.
    + unfold start_session, set_ss. cbn [ss fs log].
      split; [right; reflexivity|].
      split; [reflexivity|]. split; [reflexivity|].
      split; [reflexivity|].
      split; [discriminate|]. intros _.
      exists (pending_author p). repeat split; auto.
Qed.

(** The two buttons that start from nothing open a session without a row,
    with the cursor at the first pair, and leave nothing to recover: the
    click on "Start a new session" removes the cache of the author, and
    no other file. *)
Theorem start_buttons_open_an_empty_session (e : env) (w : widgets)
    (a : app) (pending : string) :
  clicked w = Some (StartNewBtn pending)
  \/ clicked w = Some (StartAsBtn pending) ->
  fst (author_page e w a) = Rerun ->
  let m := mach a in
  let m' := mach (snd (author_page e w a)) in
  scores (ss m') = [] /\ img_idx (ss m') = 0
  /\ load_session_cache e (fs m') pending = Ok None
  /\ (clicked w = Some (StartNewBtn pending) ->
      fs m' !! get_cache_path e pending = None
      /\ log m' = log m ++ [OsRemove (get_cache_path e pending)])
  /\ (forall path, path <> get_cache_path e pending ->
        fs m' !! path = fs m !! path).
Proof.
  intros Hc Hr. cbv zeta.
  pose proof (author_page_cases e w a) as H. cbv zeta in H.
  set (p := select_author w (page a)) in *.
  destruct H as (_ & _ & H).
  destruct H as [(Hs & _)|(_ & _ & _ & H)]; [congruence|].
  destruct H as [(cd & Hc' & _)|[(cd & Hc' & _ & Hm)|(Hc' & Hl & Hm)]].
  - destruct Hc as [Hc|Hc]; congruence.
  - assert (Hp : pending_author p = pending)
      by (destruct Hc as [Hc|Hc]; congruence).
    rewrite Hm, Hp. unfold start_session, set_ss. cbn [ss fs log scores img_idx].
    assert (Hnone : delete (get_cache_path e pending) (fs (mach a))
                    !! get_cache_path e pending = None)
      by apply lookup_delete_eq.
    repeat split; try reflexivity; try assumption.
    + unfold load_session_cache. rewrite Hnone. reflexivity.
    + intros path Hpath. apply lookup_delete_ne. congruence.
  - assert (Hp : pending_author p = pending)
      by (destruct Hc as [Hc|Hc]; congruence).
    rewrite Hm, Hp. rewrite Hp in Hl.
    unfold start_session, set_ss. cbn [ss fs log scores img_idx].
    repeat split; try reflexivity; try assumption;
      match goal with
      | H : clicked w = Some (StartNewBtn _) |- _ =>
          rewrite H in Hc'; discriminate
      end.
Qed.

Lemma start_buttons_open_an_empty_session_witness :
  let e := env_reading (demo_world []) [score_row "S1" "a" "b" 3 "t"] in
  let a := {| page := {| author_name := None; pending_author := "FI";
                         show_custom_author := false |};
              mach := {| ss := fresh_session;
                         fs := {[get_cache_path e "FI" := "csv"]};
                         log := [] |} |} in
  let m' := mach (snd (author_page e (click (StartNewBtn "FI")) a)) in
  scores (ss m') = [] /\ img_idx (ss m') = 0
  /\ load_session_cache e (fs m') "FI" = Ok None.
Proof.
  cbv zeta.
  match goal with
  | |- scores (ss (mach (snd (author_page ?e ?w ?a)))) = _ /\ _ =>
      pose proof (start_buttons_open_an_empty_session e w a "FI") as H
  end.
  cbv zeta in H.
  destruct H as (H1 & H2 & H3 & _); [left; reflexivity|reflexivity|].
  split; [exact H1|]. split; [exact H2|exact H3].
Defined.

(** The name of the author is never empty and has no white space around
    it: the pending name is one of the six names or the stripped text of
    the field, and an author is chosen from the pending name only. *)
Theorem chosen_author_is_well_formed (e : env) (w : widgets) (a : app) :
  pending_author (page a) = "" \/ well_formed (pending_author (page a)) ->
  let out := author_page e w a in
  (pending_author (page (snd out)) = ""
   \/ well_formed (pending_author (page (snd out))))
  /\ (fst out = Rerun ->
      exists author, author_name (page (snd out)) = Some author
                     /\ well_formed author).
Proof.
  intros Hwf. cbv zeta.
  pose proof (author_page_cases e w a) as H. cbv zeta in H.
  set (p := select_author w (page a)) in *.
  destruct H as (_ & Hp & H).
  assert (Hwp : pending_author p = "" \/ well_formed (pending_author p)).
  { destruct Hp as [Hp|[(Hin & _)|(Hp & Hne & _)]].
    - rewrite Hp. exact Hwf.
    - right. revert Hin. generalize (pending_author p). intros n Hin.
      unfold author_buttons in Hin. cbn [In] in Hin.
      destruct Hin as [<-|[<-|[<-|[<-|[<-|[<-|[]]]]]]];
        (split; [discriminate|reflexivity]).
    - right. rewrite Hp. split; [exact Hne|apply strip_idem]. }
  destruct H as [(Hs & Hout & _)|(Hne & Hr & Hpage & _)].
  - rewrite Hs, Hout. cbn [page]. split; [exact Hwp|discriminate].
  - rewrite Hpage. cbn [pending_author author_name].
    split; [exact Hwp|]. intros _. exists (pending_author p).
    split; [reflexivity|]. destruct Hwp as [Hwp|Hwp]; [contradiction|exact Hwp].
Qed.

Lemma chosen_author_is_well_formed_witness :
  let e := demo_env (demo_world []) in
  let a := {| page := {| author_name := None; pending_author := "";
                         show_custom_author := true |};
              mach := fresh_machine |} in
  let out := author_page e {| clicked := Some ConfirmBtn;
                              custom_name := "  Dr Who " |} a in
  pending_author (page (snd out)) = "Dr Who"
  /\ (pending_author (page (snd out)) = ""
      \/ well_formed (pending_author (page (snd out)))).
Proof.
  cbv zeta. split; [reflexivity|].
  match goal with
  | |- pending_author (page (snd (author_page ?e ?w ?a))) = _ \/ _ =>
      apply (chosen_author_is_well_formed e w a)
  end.
  left. reflexivity.
Defined.

End AuthorPageResults.

(** ** Resuming a session *)

Section Resuming.
Import PyStr Resolver Session App.

Lemma realign_order_resolver (e : env) (s : session_state) :
  image_order s = get_subject_pairs (res e) false \/ image_order s = [] ->
  realign_order e s = get_subject_pairs (res e) false.
Proof.
  unfold realign_order. intros [H|H]; rewrite H; [|reflexivity].
  destruct (get_subject_pairs (res e) false); reflexivity.
Qed.

(** What the button "Continue" does when the cache of the pending author
    reads as [rows]. *)
Lemma continue_effect (e : env) (author : string) (rows : list row)
    (a : app) :
  author <> "" -> pending_author (page a) = author ->
  load_session_cache e (fs (mach a)) author
  = Ok (Some {| cd_scores := rows; cd_img_idx := length rows |}) ->
  image_order (ss (mach a)) = get_subject_pairs (res e) false
  \/ image_order (ss (mach a)) = [] ->
  let order := get_subject_pairs (res e) false in
  let out := author_page e (click (ContinueBtn author)) a in
  let m' := mach (snd out) in
  fst out = Rerun
  /\ author_name (page (snd out)) = Some author
  /\ scores (ss m') = rows
  /\ img_idx (ss m') = cursor_of (scored_ids rows) order
  /\ scored_count (ss m') = recognized (scored_ids rows) order
  /\ image_order (ss m') = order
  /\ last_author (ss m') = Some author
  /\ fs m' = fs (mach a).
Proof.
  intros Hne Hp Hl Ho. cbv zeta.
  pose proof (author_page_cases e (click (ContinueBtn author)) a) as H.
  cbv zeta in H.
  rewrite select_author_other in H by (cbn; congruence).
  rewrite Hp in H. destruct H as (_ & _ & H).
  destruct H as [(_ & _ & [H|[(_ & H & _)|(H & _)]])|(_ & Hr & Hpage & H)];
    try congruence.
  { destruct H. reflexivity. }
  destruct H as [(cd & _ & Hcd & Hm)|[(cd & Hc & _)|(Hc & _)]];
    try (cbn in Hc; congruence).
  rewrite Hl in Hcd. injection Hcd as <-. cbn [cd_scores cd_img_idx] in Hm.
  match type of Hm with
  | context [_realign_img_idx_to_scores e ?m0] =>
      pose proof (realign_effect e m0) as Hre; cbv zeta in Hre;
      set (m1 := _realign_img_idx_to_scores e m0) in *
  end.
  cbn [set_ss ss fs log scores image_order] in Hre.
  destruct Hre as (Hc & Hn & Hs & _ & _ & _ & _ & Hf & _).
  rewrite realign_order_resolver in Hc, Hn by (cbn [image_order]; exact Ho).
  rewrite Hr, Hpage, Hm. cbn [author_name set_ss ss fs scores img_idx
    scored_count image_order last_author].
  repeat split; assumption.
Qed.

(** A session interrupted after a submission is resumed where it was.
    When pandas reads back the rows it wrote, the button "Continue",
    clicked in a new browser session on the files the submission left,
    brings back the rows, the cursor and the scored count of the old
    session, and the scoring page that follows shows the same pair. *)
Theorem resume_restores_rows_and_cursor (e : env) (author : string)
    (ts : string) (v : Z) (s rf ff : string) (total : nat) (m : machine)
    (p : page_state) (ts' : string) :
  author <> "" -> pending_author p = author ->
  image_order (ss m) = get_subject_pairs (res e) false ->
  let old := snd (handle_score e ts v s rf ff total author m) in
  read_csv_records e (to_csv e (scores (ss old))) = Ok (scores (ss old)) ->
  let a := {| page := p;
              mach := {| ss := fresh_session; fs := fs old; log := [] |} |} in
  let out := author_page e (click (ContinueBtn author)) a in
  let m' := mach (snd out) in
  let next := snd (scoring_page e ts' author m') in
  fst out = Rerun
  /\ author_name (page (snd out)) = Some author
  /\ scores (ss m') = scores (ss old)
  /\ img_idx (ss m') = img_idx (ss old)
  /\ scored_count (ss m') = scored_count (ss old)
  /\ image_order (ss m') = image_order (ss old)
  /\ scores (ss next) = scores (ss old)
  /\ img_idx (ss next) = img_idx (ss old).
Proof.
  intros Hne Hp Ho old Hrt a out m' next.
  pose proof (handle_score_full e ts v s rf ff total author m) as H.
  cbv zeta in H. fold old in H.
  destruct H as (Hc & Hn & Hs & Hio & _ & Hf & _).
  rewrite realign_order_resolver in Hc, Hn by (left; exact Ho).
  assert (Hload : load_session_cache e (fs (mach a)) author
                  = Ok (Some {| cd_scores := scores (ss old);
                                cd_img_idx := length (scores (ss old)) |})).
  { unfold load_session_cache, a. cbn [mach fs].
    rewrite Hf, lookup_insert_eq, <- Hs, Hrt. reflexivity. }
  pose proof (continue_effect e author (scores (ss old)) a Hne Hp Hload
                (or_intror eq_refl)) as H.
  cbv zeta in H. fold out in H. fold m' in H.
  destruct H as (Hr & Ha & Hs' & Hc' & Hn' & Ho' & Hl' & _).
  pose proof (scoring_page_effect e ts' author m') as Hpg.
  cbv zeta in Hpg. fold next in Hpg.
  rewrite Hl', (bool_decide_eq_true_2 _ eq_refl) in Hpg.
  destruct Hpg as (Hs2 & _ & _ & Hc2 & _).
  rewrite realign_order_resolver in Hc2 by (left; exact Ho').
  rewrite Hs' in Hs2, Hc2.
  repeat split; try assumption; try congruence.
Qed.

Lemma resume_restores_rows_and_cursor_witness :
  let w := demo_world ["S1_20240101_0800.png"; "S1_20240115_0900.png";
                       "S2_20240101_0800.png"; "S2_20240115_0900.png"] in
  let row := score_row "S1" "S1_20240101_0800.png" "S1_20240115_0900.png" 4
               "2024-02-01 10:00:00" in
  let e := env_reading w [row] in
  let m := session_with (get_subject_pairs w false) [] in
  let old := snd (handle_score e "2024-02-01 10:00:00" 4 "S1"
                    "S1_20240101_0800.png" "S1_20240115_0900.png" 2 "FI" m) in
  let a := {| page := {| author_name := None; pending_author := "FI";
                         show_custom_author := false |};
              mach := {| ss := fresh_session; fs := fs old; log := [] |} |} in
  let m' := mach (snd (author_page e (click (ContinueBtn "FI")) a)) in
  scores (ss m') = [row] /\ img_idx (ss m') = 1
  /\ img_idx (ss m') = img_idx (ss old).
Proof.
  cbv zeta.
  match goal with
  | |- scores (ss (mach (snd (author_page ?e _ {| page := ?p; mach := _ |}))))
       = [?row] /\ _ =>
      pose proof (resume_restores_rows_and_cursor e "FI"
                    "2024-02-01 10:00:00" 4 "S1" "S1_20240101_0800.png"
                    "S1_20240115_0900.png" 2
                    (session_with (get_subject_pairs (res e) false) []) p
                    "20240202_090000") as H
  end.
  cbv zeta in H.
  destruct H as (_ & _ & H1 & H2 & _);
    [discriminate|reflexivity|reflexivity|reflexivity|].
  split; [etransitivity; [exact H1|reflexivity]|].
  split; [etransitivity; [exact H2|reflexivity]|exact H2].
Defined.

End Resuming.

(** ** A whole session, from the choice of the author to the export *)

Section WholeSession.
Import PyStr Resolver Session App.

Lemma rows_of_snoc (order : list pair) (l : list submission)
    (p : pair) (s : submission) :
  nth_error order (length l) = Some p ->
  rows_of order (l ++ [s]) = rows_of order l ++ [row_of p s].
Proof.
  revert l. induction order as [|q order IH]; intros l H.
  - destruct l; discriminate.
  - destruct l as [|s' l]; cbn [length nth_error] in H.
    + injection H as ->. destruct order; reflexivity.
    + cbn [List.app rows_of]. rewrite (IH l H). reflexivity.
Qed.

Lemma scored_ids_rows_of (order : list pair) (l : list submission) :
  (forall p, In p order -> sid p <> "") -> length l <= length order ->
  scored_ids (rows_of order l) = ids_of (firstn (length l) order).
Proof.
  revert l. induction order as [|q order IH]; intros l Hne Hl.
  - destruct l; [reflexivity|cbn in Hl; lia].
  - destruct l as [|s l]; [reflexivity|].
    cbn [rows_of length firstn]. rewrite scored_ids_cons.
    unfold row_of at 1. rewrite score_row_subject.
    assert (Hq : sid q <> "") by (apply Hne; left; reflexivity).
    cbn [truthy]. rewrite (proj2 (String.eqb_neq _ _) Hq). cbn [negb List.app].
    unfold ids_of. cbn [map]. f_equal. apply IH.
    + intros p Hp. apply Hne. right. exact Hp.
    + cbn in Hl. lia.
Qed.

(** The progress mails due after [k] submissions on [total] pairs. *)
Lemma progress_mails_snoc (e : env) (author : string) (r : option string)
    (total k : nat) :
  map (fun c => progress_mail e author c total r)
    (List.filter (fun c => c mod 20 =? 0) (seq 1 (S k)))
  = map (fun c => progress_mail e author c total r)
      (List.filter (fun c => c mod 20 =? 0) (seq 1 k))
    ++ (if S k mod 20 =? 0 then [progress_mail e author (S k) total r]
        else []).
Proof.
  rewrite List.seq_S, List.filter_app, List.map_app.
  change (1 + k) with (S k). cbn [List.filter].
  destruct (S k mod 20 =? 0); reflexivity.
Qed.

(** One submission on a session that has scored the first [length l]
    pairs, one row each. *)
Lemma submit_step (e : env) (author : string) (r : option string)
    (order : list pair) (l : list submission) (s : submission)
    (m : machine) :
  get_secret e "RECIPIENT_EMAIL" None = Ok r ->
  List.NoDup (map sid order) -> (forall p, In p order -> sid p <> "") ->
  length l < length order ->
  image_order (ss m) = order -> last_author (ss m) = Some author ->
  scores (ss m) = rows_of order l -> img_idx (ss m) = length l ->
  let m' := submit e author m s in
  let rows := rows_of order (l ++ [s]) in
  let mail := if S (length l) mod 20 =? 0
              then [progress_mail e author (S (length l)) (length order) r]
              else [] in
  image_order (ss m') = order /\ last_author (ss m') = Some author
  /\ scores (ss m') = rows /\ img_idx (ss m') = S (length l)
  /\ (forall path, path <> get_cache_path e author ->
        path <> export_path e author (at_file s) ->
        fs m' !! path = fs m !! path)
  /\ (S (length l) < length order ->
      emails (log m') = emails (log m) ++ mail
      /\ fs m' !! export_path e author (at_file s)
         = fs m !! export_path e author (at_file s))
  /\ (S (length l) = length order ->
      emails (log m')
      = emails (log m) ++ mail ++ [final_mail e author (at_file s) r]
      /\ fs m' !! export_path e author (at_file s) = Some (to_csv e rows)
      /\ fs m' !! get_cache_path e author = None).
Proof.
  intros Hsec Hnd Hne Hlt Ho Hla Hs Hi. cbv zeta.
  destruct (nth_error order (length l)) as [[[sd rf] ff]|] eqn:En;
    [|apply nth_error_None in En; lia].
  assert (Hrows : rows_of order (l ++ [s])
                  = rows_of order l
                    ++ [score_row sd rf ff (value s) (at_row s)]).
  { rewrite (rows_of_snoc _ _ _ _ En). reflexivity. }
  assert (Hcur : cursor_of (scored_ids (rows_of order (l ++ [s]))) order
                 = S (length l)).
  { rewrite scored_ids_rows_of; [|exact Hne|rewrite List.length_app; cbn; lia].
    rewrite List.length_app. cbn [length]. rewrite Nat.add_1_r.
    apply cursor_of_prefix; [exact Hnd|lia]. }
  assert (Hord : forall st, image_order st = order ->
                            realign_order e st = order).
  { intros st H. unfold realign_order. rewrite H.
    destruct order; [cbn in Hlt; lia|reflexivity]. }
  unfold submit, click_score. rewrite Ho, Hi, En.
  pose proof (handle_score_full e (at_row s) (value s) sd rf ff
                (length order) author m) as H1.
  cbv zeta in H1.
  set (m1 := snd (handle_score e (at_row s) (value s) sd rf ff
                    (length order) author m)) in *.
  destruct H1 as (Hc1 & _ & Hs1 & Ho1 & Hl1 & Hf1 & w1 & Hwe1 & _ & Hlog1).
  rewrite Hs, <- Hrows in Hs1, Hf1, Hlog1, Hc1.
  rewrite (Hord _ Ho), Hcur in Hc1, Hlog1. rewrite Ho in Ho1.
  rewrite Hla in Hl1. rewrite Hsec in Hlog1.
  assert (He1 : emails (log m1)
                = emails (log m)
                  ++ (if S (length l) mod 20 =? 0
                      then [progress_mail e author (S (length l))
                              (length order) r]
                      else [])).
  { rewrite Hlog1, !emails_app, Hwe1.
    destruct (S (length l) mod 20 =? 0); reflexivity. }
  pose proof (scoring_page_effect e (at_file s) author m1) as H2.
  cbv zeta in H2.
  set (m2 := snd (scoring_page e (at_file s) author m1)) in *.
  rewrite Hl1, (bool_decide_eq_true_2 _ eq_refl), (Hord _ Ho1), Hs1, Hcur
    in H2.
  destruct H2 as (Hs2 & Ho2 & Hl2 & Hc2 & w2 & Hwe2 & _ & _ & Hrun & Hend).
  split; [exact Ho2|]. split; [exact Hl2|]. split; [exact Hs2|].
  split; [exact Hc2|].
  assert (Hne' := export_is_not_cache e author (at_file s)).
  split; [|split].
  - intros path Hp1 Hp2.
    destruct (Nat.lt_ge_cases (S (length l)) (length order)) as [Hlt'|Hge].
    + destruct (Hrun Hlt') as (_ & Hf2 & _). rewrite Hf2, Hf1.
      apply lookup_insert_ne. congruence.
    + destruct (Hend Hge) as (Hf2 & _). rewrite Hf2, Hf1.
      rewrite lookup_delete_ne by congruence.
      rewrite lookup_insert_ne by congruence.
      apply lookup_insert_ne. congruence.
  - intros Hlt'. destruct (Hrun Hlt') as (_ & Hf2 & Hlog2).
    rewrite Hlog2, emails_app, Hwe2, app_nil_r, He1, Hf2, Hf1.
    split; [reflexivity|]. apply lookup_insert_ne. congruence.
  - intros Heq. destruct (Hend (Nat.eq_le_incl _ _ (eq_sym Heq)))
      as (Hf2 & _ & Hlog2).
    rewrite Hsec in Hlog2. rewrite Hlog2, Hf2.
    rewrite !emails_app, Hwe2, He1.
    split; [|split].
    + destruct (fs m1 !! get_cache_path e author);
        cbn [emails List.filter is_email List.app];
        rewrite <- ?List.app_assoc; reflexivity.
    + rewrite lookup_delete_ne by congruence. apply lookup_insert_eq.
    + apply lookup_delete_eq.
Qed.

(** The session while it runs: after [length l] submissions, fewer than
    there are pairs. *)
Lemma submissions_running (e : env) (author : string) (r : option string)
    (order : list pair) (m0 : machine) :
  get_secret e "RECIPIENT_EMAIL" None = Ok r ->
  List.NoDup (map sid order) -> (forall p, In p order -> sid p <> "") ->
  image_order (ss m0) = order -> last_author (ss m0) = Some author ->
  scores (ss m0) = [] -> img_idx (ss m0) = 0 ->
  forall l : list submission,
    length l < length order ->
    let m := submissions e author l m0 in
    image_order (ss m) = order /\ last_author (ss m) = Some author
    /\ scores (ss m) = rows_of order l /\ img_idx (ss m) = length l
    /\ (forall path, path <> get_cache_path e author ->
          (forall s, In s l -> path <> export_path e author (at_file s)) ->
          fs m !! path = fs m0 !! path)
    /\ emails (log m)
       = emails (log m0)
         ++ map (fun c => progress_mail e author c (length order) r)
              (List.filter (fun c => c mod 20 =? 0) (seq 1 (length l))).
Proof.
  intros Hsec Hnd Hne Ho Hla Hs Hi l.
  induction l as [|s l IH] using rev_ind; intros Hlt; cbv zeta.
  - cbn. rewrite app_nil_r.
    repeat split; try assumption. rewrite Hs. destruct order; reflexivity.
  - rewrite List.length_app in Hlt. cbn [length] in Hlt.
    destruct IH as (Ho1 & Hl1 & Hs1 & Hi1 & Hf1 & He1); [lia|].
    unfold submissions. rewrite fold_left_app. cbn [fold_left].
    fold (submissions e author l m0).
    pose proof (submit_step e author r order l s (submissions e author l m0)
                  Hsec Hnd Hne ltac:(lia) Ho1 Hl1 Hs1 Hi1) as H.
    cbv zeta in H.
    destruct H as (Ho2 & Hl2 & Hs2 & Hi2 & Hf2 & Hrun & _).
    destruct Hrun as (He2 & _); [lia|].
    rewrite List.length_app. cbn [length]. rewrite Nat.add_1_r.
    repeat split; try assumption.
    + intros path Hp1 Hp2. rewrite Hf2, Hf1; auto.
      * intros s' Hs'. apply Hp2. apply in_or_app. left. exact Hs'.
      * apply Hp2. apply in_or_app. right. left. reflexivity.
    + rewrite He2, He1, progress_mails_snoc, <- List.app_assoc. reflexivity.
Qed.

(** A whole session.  The operator picks one of the six names, starts
    scoring (there is no cache for that name) and scores every pair of an
    order whose subject ids are distinct and not empty.  The session then
    holds one row for each pair, in the order of the pairs; the export
    written at the last submission holds these rows; the cache is gone; and
    the mails sent are one progress mail at each multiple of 20 and, last,
    the final mail. *)
Theorem whole_session_exports_one_row_per_pair (e : env) (author : string)
    (r : option string) (files : gmap string string)
    (l : list submission) (s : submission) (ts0 : string) :
  let order := get_subject_pairs (res e) false in
  In author author_buttons ->
  get_secret e "RECIPIENT_EMAIL" None = Ok r ->
  List.NoDup (map sid order) -> (forall p, In p order -> sid p <> "") ->
  files !! get_cache_path e author = None ->
  S (length l) = length order ->
  let a1 := snd (author_page e (click (AuthorBtn author)) (fresh_app files)) in
  let o2 := author_page e (click (StartAsBtn author)) a1 in
  let m0 := snd (scoring_page e ts0 author (mach (snd o2))) in
  let m := submissions e author (l ++ [s]) m0 in
  fst o2 = Rerun
  /\ author_name (page (snd o2)) = Some author
  /\ scores (ss m) = rows_of order (l ++ [s])
  /\ length (scores (ss m)) = length order
  /\ img_idx (ss m) = length order
  /\ fs m !! export_path e author (at_file s)
     = Some (to_csv e (rows_of order (l ++ [s])))
  /\ fs m !! get_cache_path e author = None
  /\ emails (log m)
     = map (fun c => progress_mail e author c (length order) r)
         (List.filter (fun c => c mod 20 =? 0) (seq 1 (length order)))
       ++ [final_mail e author (at_file s) r].
Proof.
  intros order Hin Hsec Hnd Hne Hfile Hlen a1 o2 m0 m.
  assert (Hauthor : author <> "").
  { unfold author_buttons in Hin. cbn [In] in Hin.
    destruct Hin as [<-|[<-|[<-|[<-|[<-|[<-|[]]]]]]]; discriminate. }
  assert (Hload : load_session_cache e files author = Ok None).
  { unfold load_session_cache. rewrite Hfile. reflexivity. }
  (* the click on the name *)
  assert (Ha1 : a1 = {| page := {| author_name := None;
                                   pending_author := author;
                                   show_custom_author := false |};
                        mach := mach (fresh_app files) |}).
  { unfold a1, author_page. rewrite (select_author_button _ _ Hin).
    cbn [pending_author fresh_app page mach fs fresh_page author_name].
    rewrite (proj2 (String.eqb_neq _ _) Hauthor), Hload.
    rewrite pressed_click.
    rewrite (bool_decide_eq_false_2 (AuthorBtn author = StartAsBtn author))
      by discriminate.
    reflexivity. }
  (* the click on the start button *)
  assert (Ho2 : o2 = (Rerun,
                      {| page := {| author_name := Some author;
                                    pending_author := author;
                                    show_custom_author := false |};
                         mach := start_session e author
                                   (mach (fresh_app files)) |})).
  { unfold o2, author_page. rewrite Ha1.
    rewrite select_author_other by (cbn; congruence).
    cbn [page mach pending_author fresh_app fs show_custom_author].
    rewrite (proj2 (String.eqb_neq _ _) Hauthor), Hload.
    rewrite pressed_click, (bool_decide_eq_true_2 _ eq_refl). reflexivity. }
  (* the run that follows *)
  pose proof (scoring_page_effect e ts0 author (mach (snd o2))) as H0.
  cbv zeta in H0. fold m0 in H0. rewrite Ho2 in H0.
  cbn [snd mach start_session set_ss ss fresh_app last_author scores fs log]
    in H0.
  rewrite (bool_decide_eq_true_2 _ eq_refl) in H0.
  assert (Hord : realign_order e
                   {| scores := []; img_idx := 0;
                      image_order := get_subject_pairs (res e) false;
                      scored_count := scored_count fresh_session;
                      _warned_score_mismatch :=
                        _warned_score_mismatch fresh_session;
                      last_author := Some author;
                      imported_external := imported_external fresh_session |}
                 = order).
  { apply realign_order_resolver. left. reflexivity. }
  rewrite Hord in H0.
  assert (Hc0 : cursor_of (scored_ids []) order = 0).
  { destruct order; [discriminate|reflexivity]. }
  rewrite Hc0 in H0.
  destruct H0 as (Hs0 & Hio0 & Hl0 & Hi0 & w0 & Hwe0 & _ & _ & Hrun0 & _).
  destruct Hrun0 as (_ & Hf0 & Hlog0); [lia|].
  cbn [List.app] in Hlog0.
  (* the submissions but the last *)
  pose proof (submissions_running e author r order m0 Hsec Hnd Hne Hio0 Hl0
                Hs0 Hi0 l ltac:(lia)) as H1.
  cbv zeta in H1. destruct H1 as (Ho1 & Hl1 & Hs1 & Hi1 & Hf1 & He1).
  (* the last one *)
  pose proof (submit_step e author r order l s (submissions e author l m0)
                Hsec Hnd Hne ltac:(lia) Ho1 Hl1 Hs1 Hi1) as H2.
  cbv zeta in H2.
  assert (Hm : m = submit e author (submissions e author l m0) s).
  { unfold m, submissions. rewrite fold_left_app. reflexivity. }
  rewrite <- Hm in H2.
  destruct H2 as (_ & _ & Hs2 & Hi2 & _ & _ & Hend).
  destruct (Hend Hlen) as (He2 & Hx2 & Hc2).
  rewrite Ho2. cbn [fst snd page author_name].
  split; [reflexivity|]. split; [reflexivity|]. split; [exact Hs2|].
  split.
  { rewrite Hs2. clear - Hlen.
    assert (Hl : length (l ++ [s]) = length order)
      by (rewrite List.length_app; cbn; lia).
    revert Hl. generalize (l ++ [s]). generalize order. clear.
    induction order as [|p order IH]; intros [|x l'] H; try discriminate;
      [reflexivity|]. cbn [rows_of length]. f_equal. apply IH.
    cbn in H. lia. }
  split; [lia|]. split; [exact Hx2|]. split; [exact Hc2|].
  rewrite He2, He1, Hlog0, Hwe0, <- Hlen, progress_mails_snoc.
  cbn [List.app]. rewrite <- List.app_assoc. reflexivity.
Qed.

Lemma whole_session_exports_one_row_per_pair_witness :
  let e := demo_env (demo_world ["S1_20240101_0800.png";
                                 "S1_20240115_0900.png";
                                 "S2_20240101_0800.png";
                                 "S2_20240115_0900.png"]) in
  let s1 := {| at_row := "2024-02-01 10:00:00"; at_file := "20240201_100000";
               value := 4 |} in
  let s2 := {| at_row := "2024-02-01 10:01:00"; at_file := "20240201_100100";
               value := 6 |} in
  let a1 := snd (author_page e (click (AuthorBtn "FI")) (fresh_app ∅)) in
  let o2 := author_page e (click (StartAsBtn "FI")) a1 in
  let m0 := snd (scoring_page e "20240201_095900" "FI" (mach (snd o2))) in
  let m := submissions e "FI" [s1; s2] m0 in
  length (scores (ss m)) = 2
  /\ fs m !! get_cache_path e "FI" = None
  /\ emails (log m)
     = [final_mail e "FI" "20240201_100100" (Some "lab@example.org")].
Proof.
  cbv zeta.
  pose proof (whole_session_exports_one_row_per_pair
                (demo_env (demo_world ["S1_20240101_0800.png";
                                       "S1_20240115_0900.png";
                                       "S2_20240101_0800.png";
                                       "S2_20240115_0900.png"]))
                "FI" (Some "lab@example.org") ∅
                [{| at_row := "2024-02-01 10:00:00";
                    at_file := "20240201_100000"; value := 4 |}]
                {| at_row := "2024-02-01 10:01:00";
                   at_file := "20240201_100100"; value := 6 |}
                "20240201_095900") as H.
  cbv zeta in H.
  destruct H as (_ & _ & _ & H1 & _ & _ & H2 & H3).
  - left. reflexivity.
  - reflexivity.
  - vm_compute. repeat constructor; cbn; intuition discriminate.
  - intros p Hp. vm_compute in Hp.
    destruct Hp as [<-|[<-|[]]]; discriminate.
  - apply lookup_empty.
  - reflexivity.
  - split; [exact H1|]. split; [exact H2|exact H3].
Defined.

End WholeSession.

(** ** A session resumed with the first pairs scored *)

Section ResumedSession.
Import PyStr Resolver Session.

Lemma recognized_app (ids : list pyval) (a b : list pair) :
  recognized ids (a ++ b) = recognized ids a + recognized ids b.
Proof. unfold recognized. rewrite List.filter_app, List.length_app. reflexivity. Qed.

Lemma recognized_all (ids : list pyval) (order : list pair) :
  (forall p, In p order -> in_ids (sid p) ids = true) ->
  recognized ids order = length order.
Proof.
  induction order as [|p order IH]; intros H; [reflexivity|].
  rewrite recognized_cons, (H p (or_introl eq_refl)), IH; [reflexivity|].
  intros q Hq. apply H. right. exact Hq.
Qed.

Lemma recognized_none (ids : list pyval) (order : list pair) :
  (forall p, In p order -> in_ids (sid p) ids = false) ->
  recognized ids order = 0.
Proof.
  induction order as [|p order IH]; intros H; [reflexivity|].
  rewrite recognized_cons, (H p (or_introl eq_refl)), IH; [reflexivity|].
  intros q Hq. apply H. right. exact Hq.
Qed.

(** In an order with distinct subject ids, the pairs whose subject is
    among the first [k] are the first [k] pairs. *)
Lemma sid_in_prefix (order : list pair) (k i : nat) (p : pair) :
  List.NoDup (map sid order) -> nth_error order i = Some p ->
  In (sid p) (map sid (firstn k order)) <-> i < k.
Proof.
  intros N Hi. split.
  - intros H. apply List.in_map_iff in H. destruct H as (q & Hq & Hin).
    apply In_nth_error in Hin. destruct Hin as (j & Hj).
    assert (Hjk : j < k).
    { assert (Hlt : j < length (firstn k order))
        by (apply nth_error_Some; congruence).
      rewrite List.length_firstn in Hlt. lia. }
    rewrite List.nth_error_firstn in Hj.
    destruct (Nat.ltb_spec j k) as [_|]; [|lia].
    assert (Heq : i = j).
    { apply (proj1 (List.NoDup_nth_error (map sid order)) N).
      - rewrite List.length_map. apply nth_error_Some. congruence.
      - rewrite !List.nth_error_map, Hi, Hj. cbn. congruence. }
    lia.
  - intros Hlt. apply List.in_map. apply (nth_error_In _ i).
    rewrite List.nth_error_firstn.
    destruct (Nat.ltb_spec i k); [exact Hi|lia].
Qed.

(** When the rows record the first [k] pairs of the order and no other,
    the cursor and the scored count are [k]. *)
Lemma prefix_recorded (order : list pair) (rows : list row) (k : nat) :
  List.NoDup (map sid order) -> (forall p, In p order -> sid p <> "") ->
  k <= length order ->
  (forall i p, nth_error order i = Some p ->
     has_record rows (sid p) = (i <? k)) ->
  cursor_of (scored_ids rows) order = k
  /\ recognized (scored_ids rows) order = k.
Proof.
  intros N Hne Hk Hrec.
  assert (Hext : forall p, In p order ->
            in_ids (sid p) (scored_ids rows)
            = in_ids (sid p) (ids_of (firstn k order))).
  { intros p Hp. rewrite in_ids_scored_ids.
    rewrite (proj2 (String.eqb_neq _ _) (Hne p Hp)). cbn [negb andb].
    apply In_nth_error in Hp. destruct Hp as (i & Hi).
    rewrite (Hrec i p Hi).
    destruct (Nat.ltb_spec i k) as [Hlt|Hge].
    - symmetry. apply in_ids_ids_of. apply (sid_in_prefix order k i p N Hi).
      exact Hlt.
    - symmetry. apply not_true_is_false. intros H.
      apply in_ids_ids_of, (sid_in_prefix order k i p N Hi) in H. lia. }
  rewrite (cursor_of_ext _ _ _ Hext), (recognized_ext _ _ _ Hext).
  split; [apply cursor_of_prefix; assumption|].
  rewrite <- (firstn_skipn k order) at 2. rewrite recognized_app.
  rewrite recognized_all, recognized_none.
  - rewrite List.length_firstn. lia.
  - intros p Hp. apply not_true_is_false. intros H.
    apply in_ids_ids_of in H.
    apply In_nth_error in Hp. destruct Hp as (j & Hj).
    rewrite List.nth_error_skipn in Hj.
    apply (sid_in_prefix order k (k + j) p N Hj) in H. lia.
  - intros p Hp. apply in_ids_ids_of. apply List.in_map. exact Hp.
Qed.

(** A session resumed with records for the first [k] pairs of an order with
    distinct, non-empty subject ids: the realigner reports cursor [k] and
    scored count [k]; one more submission records pair [k], moves the
    cursor to [k + 1] and rewrites the cache with all the rows, the new
    one included. *)
Theorem resumed_session_advances (e : env) (author : string)
    (order : list pair) (rows : list row) (k : nat) (ts : string) (v : Z) :
  List.NoDup (map sid order) -> (forall p, In p order -> sid p <> "") ->
  k < length order ->
  (forall i p, nth_error order i = Some p ->
     has_record rows (sid p) = (i <? k)) ->
  let m1 := _realign_img_idx_to_scores e (session_with order rows) in
  let out := click_score e ts author v m1 in
  img_idx (ss m1) = k /\ scored_count (ss m1) = k
  /\ (exists p, nth_error order k = Some p
                /\ scores (ss (snd out))
                   = rows ++ [score_row (sid p) (ref p) (fin p) v ts])
  /\ img_idx (ss (snd out)) = S k
  /\ fs (snd out) !! get_cache_path e author
     = Some (to_csv e (scores (ss (snd out)))).
Proof.
  intros N Hne Hk Hrec m1 out.
  assert (Hord : realign_order e (ss (session_with order rows)) = order).
  { unfold realign_order. cbn. destruct order; [cbn in Hk; lia|reflexivity]. }
  pose proof (realign_effect e (session_with order rows)) as H. cbv zeta in H.
  fold m1 in H. rewrite Hord in H. cbn [session_with ss scores image_order] in H.
  destruct H as (Hc & Hn & Hs & Ho & _).
  destruct (prefix_recorded order rows k N Hne ltac:(lia) Hrec) as (Hck & Hnk).
  rewrite Hck in Hc. rewrite Hnk in Hn.
  split; [exact Hc|]. split; [exact Hn|].
  destruct (nth_error order k) as [[[s rf] ff]|] eqn:En;
    [|apply nth_error_None in En; lia].
  unfold out, click_score. rewrite Ho, Hc, En.
  pose proof (handle_score_effect e ts v s rf ff (length order) author m1)
    as H. cbv zeta in H.
  assert (Hord1 : realign_order e (ss m1) = order).
  { unfold realign_order. rewrite Ho.
    destruct order; [cbn in Hk; lia|reflexivity]. }
  rewrite Hord1, Hs in H. destruct H as (Hc' & Hs' & _ & Hf' & _).
  assert (Hrec' : forall i p, nth_error order i = Some p ->
            has_record (rows ++ [score_row s rf ff v ts]) (sid p)
            = (i <? S k)).
  { intros i p Hi. unfold has_record. rewrite existsb_app.
    fold (has_record rows (sid p)). rewrite (Hrec i p Hi). cbn [existsb].
    unfold records_subject. rewrite score_row_subject, orb_false_r.
    destruct (Nat.eq_dec i k) as [->|Hik].
    - rewrite En in Hi. injection Hi as <-. unfold sid. cbn [fst].
      rewrite String.eqb_refl, orb_true_r. symmetry. apply Nat.ltb_lt. lia.
    - assert (Hneq : sid p <> s).
      { intros Heq.
        apply Hik.
        apply (proj1 (List.NoDup_nth_error (map sid order)) N).
        - rewrite List.length_map. apply nth_error_Some. congruence.
        - rewrite !List.nth_error_map, Hi, En. cbn. congruence. }
      rewrite (proj2 (String.eqb_neq _ _) Hneq), orb_false_r.
      destruct (Nat.ltb_spec i k), (Nat.ltb_spec i (S k)); try reflexivity; lia. }
  destruct (prefix_recorded order _ (S k) N Hne ltac:(lia) Hrec') as (Hck' & _).
  split; [exists (s, rf, ff); split; [reflexivity|exact Hs']|].
  split; [rewrite Hc'; exact Hck'|].
  rewrite Hf', Hs'. apply lookup_insert_eq.
Qed.

Lemma resumed_session_advances_witness :
  let e := demo_env (demo_world []) in
  let order := firstn 5 demo_order20 in
  let rows := [score_row "S1" "S1_20240101_0800.png" "S1_20240115_0900.png"
                 4 "2024-02-01 10:00:00";
               score_row "S2" "S2_20240101_0800.png" "S2_20240115_0900.png"
                 1 "2024-02-01 10:01:00"] in
  let m1 := _realign_img_idx_to_scores e (session_with order rows) in
  let out := click_score e "2024-02-02 09:00:00" "FI" 6 m1 in
  img_idx (ss m1) = 2 /\ scored_count (ss m1) = 2
  /\ img_idx (ss (snd out)) = 3
  /\ length (scores (ss (snd out))) = 3.
Proof.
  cbv zeta.
  pose proof (resumed_session_advances (demo_env (demo_world [])) "FI"
                (firstn 5 demo_order20)
                [score_row "S1" "S1_20240101_0800.png" "S1_20240115_0900.png"
                   4 "2024-02-01 10:00:00";
                 score_row "S2" "S2_20240101_0800.png" "S2_20240115_0900.png"
                   1 "2024-02-01 10:01:00"]
                2 "2024-02-02 09:00:00" 6) as H.
  cbv zeta in H.
  destruct H as (H1 & H2 & (p & _ & H3) & H4 & _).
  - vm_compute. repeat constructor; cbn; intuition discriminate.
  - intros p Hp. vm_compute in Hp.
    destruct Hp as [<-|[<-|[<-|[<-|[<-|[]]]]]]; discriminate.
  - cbn. lia.
  - intros i p Hi.
    destruct i as [|[|[|[|[|i]]]]]; cbn in Hi;
      try (injection Hi as <-; reflexivity).
    destruct i; discriminate.
  - split; [exact H1|]. split; [exact H2|]. split; [exact H4|].
    rewrite H3. reflexivity.
Defined.

End ResumedSession.
